(** * Sentinel-1 burn-scar scripts: a shallow embedding and its properties

    The development follows the four command-line tools under
    [STEP1_SAR_BURN_SCAR]:

    - [s1_avg_before_after.py]            (module [Avg])
    - [s1_relative_burn_ratio_from_pairs.py] (module [Rbr])
    - [s1_extract_images.py], [tiff2png.py]  (module [Preview])

    Pixel values are IEEE-754 numbers, modelled with the executable
    specification of the Standard Library ([SpecFloat]): binary32 for
    numpy's [float32], binary64 for [float64] and Python's [float].
    Rasters are row-major lists of pixels.  File names and labels are
    strings of 8-bit characters, the code points U+0000 to U+00FF; on
    them [\d] is the class [0-9]. *)

From Stdlib Require Import ZArith NArith List Bool String Ascii Lia Permutation.
From Stdlib Require Import SpecFloat.
Import ListNotations.

Set Implicit Arguments.

(* ================================================================== *)
(** * Definitions *)
(* ================================================================== *)

(** ** Exceptions *)

Inductive exn : Type :=
| ValueError (msg : string)
| IndexError (msg : string)
| AttributeError (msg : string).

Inductive result (A : Type) : Type :=
| Ok (a : A)
| Raise (e : exn).
Arguments Ok {A} a.
Arguments Raise {A} e.

Definition bind {A B : Type} (r : result A) (k : A -> result B) : result B :=
  match r with
  | Ok a => k a
  | Raise e => Raise e
  end.

Notation "x <- r ;; k" := (bind r (fun x => k))
  (at level 61, r at next level, right associativity).

(** A [for] loop whose body can raise. *)
Fixpoint fold_result {A B : Type} (f : A -> B -> result A) (l : list B)
  (a : A) : result A :=
  match l with
  | [] => Ok a
  | b :: l' => a' <- f a b ;; fold_result f l' a'
  end.

(** ** IEEE-754 numbers *)

Module F.

Definition float : Type := spec_float.

Definition prec32 : Z := 24.
Definition emax32 : Z := 128.
Definition prec64 : Z := 53.
Definition emax64 : Z := 1024.

(** [np.isfinite] *)
Definition isfinite (x : float) : bool :=
  match x with
  | S754_zero _ | S754_finite _ _ _ => true
  | S754_infinity _ | S754_nan => false
  end.

(** [math.isnan] *)
Definition isnan (x : float) : bool :=
  match x with
  | S754_nan => true
  | _ => false
  end.

Definition nan : float := S754_nan.

Definition zero : float := S754_zero false.

(** [np.absolute] *)
Definition abs (x : float) : float := SFabs x.

(** Conversion to a format, round to nearest even: [astype("float32")],
    [astype("float64")]. *)
Definition astype (prec emax : Z) (x : float) : float :=
  match x with
  | S754_finite s m e => binary_round prec emax s m e
  | _ => x
  end.

Definition to_f32 : float -> float := astype prec32 emax32.
Definition to_f64 : float -> float := astype prec64 emax64.

(** Integers as floats (exact below 2^24, resp. 2^53). *)
Definition f32_of_Z (z : Z) : float := binary_normalize prec32 emax32 z 0 false.
Definition f64_of_Z (z : Z) : float := binary_normalize prec64 emax64 z 0 false.

(** The comparisons [==], [<], [<=] of IEEE-754, on two numbers of one
    format. *)
Definition eqb : float -> float -> bool := SFeqb.
Definition ltb : float -> float -> bool := SFltb.
Definition leb : float -> float -> bool := SFleb.

Definition add32 := SFadd prec32 emax32.
Definition sub32 := SFsub prec32 emax32.
Definition div32 := SFdiv prec32 emax32.
Definition mul32 := SFmul prec32 emax32.
Definition add64 := SFadd prec64 emax64.
Definition sub64 := SFsub prec64 emax64.
Definition div64 := SFdiv prec64 emax64.
Definition mul64 := SFmul prec64 emax64.

(** A member of the format: what an array of that dtype can hold. *)
Definition is_f32 (x : float) : bool := valid_binary prec32 emax32 x.
Definition is_f64 (x : float) : bool := valid_binary prec64 emax64 x.

(** Decimal literals of the source, as Python reads them: the binary64
    number nearest to n / 10^k. *)
Definition decimal (n : Z) (k : Z) : float :=
  div64 (f64_of_Z n) (f64_of_Z (10 ^ k)).

Definition one64 : float := Eval vm_compute in f64_of_Z 1.

End F.

(** ** Strings: the [str] methods the scripts use *)

Module Str.

Local Open Scope char_scope.

Definition is_digit (c : ascii) : bool :=
  let n := nat_of_ascii c in (48 <=? n)%nat && (n <=? 57)%nat.

(** [str.isspace] on 8-bit characters: tab, LF, VT, FF, CR (9 to 13), FS,
    GS, RS, US and space (28 to 32), next line (U+0085) and no-break
    space (U+00A0). *)
Definition is_space (c : ascii) : bool :=
  let n := nat_of_ascii c in
  ((9 <=? n)%nat && (n <=? 13)%nat) || ((28 <=? n)%nat && (n <=? 32)%nat)
  || Nat.eqb n 133 || Nat.eqb n 160.

(** The upper-case form of a character: of the letters a to z, and of the
    letters U+00E0 to U+00FE but the division sign U+00F7.  The forms of
    U+00B5, U+00DF and U+00FF are no strings of 8-bit characters (U+039C,
    the two letters SS, U+0178); these three are left as they are.  None
    of their forms holds a V or an H, so the comparisons with the names
    of the polarizations come out as in Python. *)
Definition upper_char (c : ascii) : ascii :=
  let n := nat_of_ascii c in
  if ((97 <=? n)%nat && (n <=? 122)%nat)
     || ((224 <=? n)%nat && (n <=? 254)%nat && negb (Nat.eqb n 247))
  then ascii_of_nat (n - 32) else c.

(** [str.upper] *)
Fixpoint upper (s : string) : string :=
  match s with
  | EmptyString => EmptyString
  | String c t => String (upper_char c) (upper t)
  end.

Fixpoint lstrip (s : string) : string :=
  match s with
  | EmptyString => EmptyString
  | String c t => if is_space c then lstrip t else s
  end.

Fixpoint rstrip (s : string) : string :=
  match s with
  | EmptyString => EmptyString
  | String c t =>
      match rstrip t with
      | EmptyString => if is_space c then EmptyString else String c EmptyString
      | t' => String c t'
      end
  end.

(** [str.strip] *)
Definition strip (s : string) : string := rstrip (lstrip s).

(** [sub in s] *)
Fixpoint contains (sub s : string) : bool :=
  if prefix sub s then true
  else match s with
       | EmptyString => false
       | String _ t => contains sub t
       end.

(** [int(s)] on a string of decimal digits. *)
Fixpoint int_of_digits (acc : Z) (cs : list ascii) : Z :=
  match cs with
  | [] => acc
  | c :: t => int_of_digits (10 * acc + (Z.of_nat (nat_of_ascii c) - 48))%Z t
  end.

End Str.

(** ** Regular expressions of the form used by the date patterns

    A pattern is a sequence of items, each a character class that is
    either mandatory or optional ([?], greedy, with backtracking).
    [match_here] returns the characters consumed by the mandatory items,
    from which the capture groups are cut by position. *)

Module Re.

Inductive item : Type :=
| One (cls : ascii -> bool)
| Opt (cls : ascii -> bool).

Definition pattern : Type := list item.

Fixpoint match_here (p : pattern) (s : string) : option (list ascii) :=
  match p with
  | [] => Some []
  | One cls :: p' =>
      match s with
      | String a s' =>
          if cls a then option_map (cons a) (match_here p' s') else None
      | EmptyString => None
      end
  | Opt cls :: p' =>
      match s with
      | String a s' =>
          if cls a then
            match match_here p' s' with
            | Some r => Some r
            | None => match_here p' s
            end
          else match_here p' s
      | EmptyString => match_here p' s
      end
  end.

(** [re.search]: the match at the leftmost position that has one. *)
Fixpoint search (p : pattern) (s : string) : option (list ascii) :=
  match match_here p s with
  | Some r => Some r
  | None =>
      match s with
      | EmptyString => None
      | String _ s' => search p s'
      end
  end.

Definition lit (c : ascii) : ascii -> bool := Ascii.eqb c.
Definition digit : ascii -> bool := Str.is_digit.
Definition one_of (cs : list ascii) (a : ascii) : bool :=
  existsb (Ascii.eqb a) cs.

(** What the pattern means: [Matches p s cs rest] when [p] matches a
    prefix of [s], the mandatory items consuming [cs] and leaving [rest]. *)
Inductive Matches : pattern -> string -> list ascii -> string -> Prop :=
| M_nil : forall s, Matches [] s [] s
| M_one : forall cls p a s cs rest,
    cls a = true -> Matches p s cs rest ->
    Matches (One cls :: p) (String a s) (a :: cs) rest
| M_take : forall cls p a s cs rest,
    cls a = true -> Matches p s cs rest ->
    Matches (Opt cls :: p) (String a s) cs rest
| M_skip : forall cls p s cs rest,
    Matches p s cs rest ->
    Matches (Opt cls :: p) s cs rest.

(** [p] matches nowhere in [s]. *)
Definition Absent (p : pattern) (s : string) : Prop :=
  forall pre suf cs rest, s = (pre ++ suf)%string -> ~ Matches p suf cs rest.

(** The leftmost match of [p] in [s] starts after [pre] and captures
    [cs]. *)
Definition Leftmost (p : pattern) (s : string) (cs : list ascii) : Prop :=
  exists pre suf rest,
    s = (pre ++ suf)%string
    /\ Matches p suf cs rest
    /\ forall pre' suf' cs' rest',
         s = (pre' ++ suf')%string ->
         (String.length pre' < String.length pre)%nat ->
         ~ Matches p suf' cs' rest'.

(** A pattern whose matches at one place all capture the same. *)
Definition Deterministic (p : pattern) : Prop :=
  forall s cs rest cs' rest',
    Matches p s cs rest -> Matches p s cs' rest' -> cs = cs'.

End Re.

(** ** Calendar dates ([datetime.date]) *)

Module Date.

Local Open Scope Z_scope.

Record date : Type := mk { year : Z; month : Z; day : Z }.

Definition is_leap (y : Z) : bool :=
  (y mod 4 =? 0) && (negb (y mod 100 =? 0) || (y mod 400 =? 0)).

Definition days_in_month (y m : Z) : Z :=
  match m with
  | 2 => if is_leap y then 29 else 28
  | 4 | 6 | 9 | 11 => 30
  | _ => 31
  end.

(** The constructor [date(y, m, d)], which rejects what is no calendar
    date. *)
Definition make (y m d : Z) : result date :=
  if negb ((1 <=? y) && (y <=? 9999)) then
    Raise (ValueError "year is out of range")
  else if negb ((1 <=? m) && (m <=? 12)) then
    Raise (ValueError "month must be in 1..12")
  else if negb ((1 <=? d) && (d <=? days_in_month y m)) then
    Raise (ValueError "day is out of range for month")
  else Ok (mk y m d).

(** [d1 < d2]: dates are ordered as the triples (year, month, day). *)
Definition ltb (d1 d2 : date) : bool :=
  (year d1 <? year d2)
  || ((year d1 =? year d2)
      && ((month d1 <? month d2)
          || ((month d1 =? month d2) && (day d1 <? day d2)))).

Definition lt (d1 d2 : date) : Prop :=
  year d1 < year d2
  \/ (year d1 = year d2
      /\ (month d1 < month d2
          \/ (month d1 = month d2 /\ day d1 < day d2))).

End Date.

(** ** Rasters, as the raster I/O library presents them

    A [File] stands for a GeoTIFF that [rasterio.open] has opened; a file
    that cannot be opened aborts the run before any of the code below is
    reached and is not modelled.  Bands have a floating dtype. *)

Module Raster.

Inductive pol : Type := VV | VH.
Inductive group : Type := before | after.
Inductive dtype : Type := float32 | float64.

Definition pol_eqb (p q : pol) : bool :=
  match p, q with
  | VV, VV | VH, VH => true
  | _, _ => false
  end.

Definition group_eqb (g h : group) : bool :=
  match g, h with
  | before, before | after, after => true
  | _, _ => false
  end.

Definition pol_name (p : pol) : string :=
  match p with VV => "VV" | VH => "VH" end.

Definition group_name (g : group) : string :=
  match g with before => "before" | after => "after" end.

(** Grid descriptor: CRS identifier, the six coefficients of the affine
    transform, width and height. *)
Record Grid : Type := mkGrid {
  crs : string;
  transform : list F.float;
  width : nat;
  height : nat
}.

Definition npix (g : Grid) : nat := height g * width g.

Fixpoint coeffs_eqb (a b : list F.float) : bool :=
  match a, b with
  | [], [] => true
  | x :: a', y :: b' => F.eqb x y && coeffs_eqb a' b'
  | _, _ => false
  end.

(** The four-field comparison of [same_grid] and [grids_match]. *)
Definition grid_eqb (g r : Grid) : bool :=
  String.eqb (crs g) (crs r)
  && coeffs_eqb (transform g) (transform r)
  && Nat.eqb (width g) (width r)
  && Nat.eqb (height g) (height r).

Record Band : Type := mkBand {
  description : option string;
  tags : list (string * string);
  pixels : list F.float
}.

Record Dataset : Type := mkDataset {
  grid : Grid;
  dt : dtype;
  nodata : option F.float;
  bands : list Band
}.

Record File : Type := mkFile {
  name : string;
  ds : Dataset
}.

(** [ds.count] *)
Definition count (d : Dataset) : nat := List.length (bands d).

(** [ds.descriptions] *)
Definition descriptions (d : Dataset) : list (option string) :=
  map description (bands d).

(** [dict.get] *)
Fixpoint get (k : string) (d : list (string * string)) : option string :=
  match d with
  | [] => None
  | (k', v) :: d' => if String.eqb k k' then Some v else get k d'
  end.

(** [numpy.ma.MaskedArray]: data and mask ([true] = masked out). *)
Record MaskedArray : Type := mkMA {
  data : list F.float;
  mask : list bool
}.

Fixpoint map2 {A B C : Type} (f : A -> B -> C) (l : list A) (m : list B)
  : list C :=
  match l, m with
  | a :: l', b :: m' => f a b :: map2 f l' m'
  | _, _ => []
  end.

Fixpoint map3 {A B C D : Type} (f : A -> B -> C -> D)
  (l : list A) (m : list B) (n : list C) : list D :=
  match l, m, n with
  | a :: l', b :: m', c :: n' => f a b c :: map3 f l' m' n'
  | _, _, _ => []
  end.

(** [ma.filled(v)] *)
Definition filled (v : F.float) (a : MaskedArray) : list F.float :=
  map2 (fun x (m : bool) => if m then v else x) (data a) (mask a).

(** [arr.astype("float32")] on an array of dtype [t]; on a [float32] array
    it is a copy. *)
Definition astype_f32 (t : dtype) (l : list F.float) : list F.float :=
  match t with
  | float32 => l
  | float64 => map F.to_f32 l
  end.

(** The conversion that [astype("float32")] applies to one value. *)
Definition cast_f32 (t : dtype) (x : F.float) : F.float :=
  match t with
  | float32 => x
  | float64 => F.to_f32 x
  end.

(** A Python [float] converted to the dtype of the array it is compared
    with. *)
Definition scalar_as (t : dtype) (x : F.float) : F.float :=
  match t with
  | float32 => F.to_f32 x
  | float64 => x
  end.

Definition in_dtype (t : dtype) (x : F.float) : bool :=
  match t with
  | float32 => F.is_f32 x
  | float64 => F.is_f64 x
  end.

(** What the reprojection library computes for pixel [p] of the
    destination grid; [reproject_to_ref] calls it once with bilinear
    resampling on the values and once with nearest-neighbour resampling
    on the 0/1 validity band. *)
Record WarpLib : Type := mkWarpLib {
  warp_bilinear : Grid -> Grid -> list F.float -> nat -> F.float;
  warp_nearest : Grid -> Grid -> list bool -> nat -> bool
}.

(** The output no-data value, [NODATA_OUT = -9999.0], in a [float32]
    array. *)
Definition NODATA_OUT : F.float := Eval vm_compute in F.f32_of_Z (-9999).

(** The mask of [read_band_masked], from the array as read and the
    [ds.nodata] of the data set:
    [[
    mask = ~np.isfinite(arr)
    if nd is not None and not (isinstance(nd, float) and math.isnan(nd)):
        mask |= (arr == nd)
    ]] *)
Definition mask_of (t : dtype) (nd : option F.float) (arr : list F.float)
  : list bool :=
  let mask := map (fun x => negb (F.isfinite x)) arr in
  match nd with
  | Some nd =>
      if negb (F.isnan nd)
      then map2 orb mask (map (fun x => F.eqb x (scalar_as t nd)) arr)
      else mask
  | None => mask
  end.

(** The test [arr == nd] of the reader, with its guard. *)
Definition is_sentinel (t : dtype) (nd : option F.float) (x : F.float)
  : bool :=
  match nd with
  | Some nd => negb (F.isnan nd) && F.eqb x (scalar_as t nd)
  | None => false
  end.

(** The mask bit [k] of a pixel [x] of an array of dtype [t]: set exactly
    when [x] is not finite or is the declared no-data value; a NaN no-data
    value counts as none. *)
Definition mask_law (t : dtype) (nd : option F.float) (x : F.float)
  (k : bool) : Prop :=
  (k = true <->
     F.isfinite x = false
     \/ exists v, nd = Some v /\ F.isnan v = false
                  /\ F.eqb x (scalar_as t v) = true)
  /\ (forall v, nd = Some v -> F.isnan v = true -> k = negb (F.isfinite x))
  /\ (nd = None -> k = negb (F.isfinite x)).

(** [ds.read(band_index)]; band indices start at 1. *)
Definition read (d : Dataset) (band_index : nat) : option (list F.float) :=
  match band_index with
  | O => None
  | S i => option_map pixels (nth_error (bands d) i)
  end.

(** [ds.tags(i)] *)
Definition tags_of (d : Dataset) (i : nat) : list (string * string) :=
  match i with
  | O => []
  | S j => match nth_error (bands d) j with
           | Some b => tags b
           | None => []
           end
  end.

(** *** The band resolver

    The three scripts carry the same four steps; [find_vv_vh_indices],
    [find_pol_indices] and [find_band_indices_for_vv_vh] below differ only
    in what they return.  [s1_extract_images.py] writes the update of steps
    1 and 2 as [vv_idx = vv_idx or i]; band indices start at 1, so an index
    is never falsy and this is the update of [note]. *)

Definition tag_keys : list string :=
  ["BAND_NAME"; "name"; "band_name"; "long_name"]%string.

(** [[
    if t == "VV" and vv is None: vv = i
    if t == "VH" and vh is None: vh = i
    ]] *)
Definition note (t : string) (i : nat) (st : option nat * option nat)
  : option nat * option nat :=
  let '(vv, vh) := st in
  let vv := if String.eqb t "VV" then
              match vv with None => Some i | Some _ => vv end
            else vv in
  let vh := if String.eqb t "VH" then
              match vh with None => Some i | Some _ => vh end
            else vh in
  (vv, vh).

(** A value that is [None] or the empty string is falsy. *)
Definition truthy (v : option string) : option string :=
  match v with
  | Some EmptyString => None
  | _ => v
  end.

(** [for i, d in enumerate(ds.descriptions, start=1)] *)
Fixpoint scan_descriptions (i : nat) (l : list (option string))
  (st : option nat * option nat) : option nat * option nat :=
  match l with
  | [] => st
  | d :: l' =>
      match truthy d with
      | None => scan_descriptions (S i) l' st
      | Some d => scan_descriptions (S i) l' (note (Str.upper (Str.strip d)) i st)
      end
  end.

(** [for k in ("BAND_NAME", "name", "band_name", "long_name")] *)
Fixpoint scan_keys (tg : list (string * string)) (i : nat) (ks : list string)
  (st : option nat * option nat) : option nat * option nat :=
  match ks with
  | [] => st
  | k :: ks' =>
      match truthy (get k tg) with
      | None => scan_keys tg i ks' st
      | Some v => scan_keys tg i ks' (note (Str.upper (Str.strip v)) i st)
      end
  end.

(** [for i in range(1, ds.count + 1)] *)
Fixpoint scan_tags (d : Dataset) (idxs : list nat)
  (st : option nat * option nat) : option nat * option nat :=
  match idxs with
  | [] => st
  | i :: idxs' => scan_tags d idxs' (scan_keys (tags_of d i) i tag_keys st)
  end.

Definition is_none {A : Type} (o : option A) : bool :=
  match o with None => true | Some _ => false end.

(** The body shared by the three resolvers, up to the [return]. *)
Definition resolve (d : Dataset) (filename : string)
  : option nat * option nat :=
  let st := (None, None) in
  (* descriptions *)
  let st := match descriptions d with
            | [] => st
            | l => scan_descriptions 1 l st
            end in
  (* tags *)
  let st := scan_tags d (seq 1 (count d)) st in
  (* filename hint for single-band *)
  let name := Str.upper filename in
  let st :=
    if Nat.eqb (count d) 1 then
      let '(vv, vh) := st in
      let vv := if Str.contains "VV" name && is_none vv then Some 1 else vv in
      let vh := if Str.contains "VH" name && is_none vh then Some 1 else vh in
      (vv, vh)
    else st in
  (* fallback by position for 2-band products *)
  let '(vv, vh) := st in
  if Nat.leb 2 (count d) && is_none vv && is_none vh
  then (Some 1, Some 2)
  else (vv, vh).

(** *** The band resolver as the specification words it

    Four lookup strategies, each answering with an optional band index;
    per polarization the first strategy that answers wins. *)

Definition or_else {A : Type} (o o' : option A) : option A :=
  match o with
  | Some _ => o
  | None => o'
  end.

(** Exact case-insensitive match to the name of the polarization, after
    stripping whitespace; an absent or empty string matches nothing. *)
Definition names_pol (p : pol) (v : option string) : bool :=
  match v with
  | None => false
  | Some EmptyString => false
  | Some v => String.eqb (Str.upper (Str.strip v)) (pol_name p)
  end.

(** The least index, counted from [i], of an element that satisfies [f]. *)
Fixpoint first_index {A : Type} (f : A -> bool) (i : nat) (l : list A)
  : option nat :=
  match l with
  | [] => None
  | a :: l' => if f a then Some i else first_index f (S i) l'
  end.

(** 1. Per-band description strings. *)
Definition by_description (p : pol) (d : Dataset) : option nat :=
  first_index (fun b => names_pol p (description b)) 1 (bands d).

(** 2. Per-band tag values under the four keys. *)
Definition by_tags (p : pol) (d : Dataset) : option nat :=
  first_index
    (fun b => existsb (fun k => names_pol p (get k (tags b))) tag_keys)
    1 (bands d).

(** 3. The file name, for a raster with exactly one band. *)
Definition by_filename (p : pol) (d : Dataset) (filename : string)
  : option nat :=
  if Nat.eqb (count d) 1 && Str.contains (pol_name p) (Str.upper filename)
  then Some 1 else None.

Definition steps_1_to_3 (p : pol) (d : Dataset) (filename : string)
  : option nat :=
  or_else (by_description p d)
          (or_else (by_tags p d) (by_filename p d filename)).

(** 4. The position, for a raster with at least two bands of which steps
    1 to 3 resolved neither polarization. *)
Definition by_position (p : pol) (d : Dataset) (filename : string)
  : option nat :=
  if Nat.leb 2 (count d)
     && is_none (steps_1_to_3 VV d filename)
     && is_none (steps_1_to_3 VH d filename)
  then Some (match p with VV => 1 | VH => 2 end)
  else None.

Definition resolve_spec (p : pol) (d : Dataset) (filename : string)
  : option nat :=
  or_else (steps_1_to_3 p d filename) (by_position p d filename).

End Raster.

(** ** [s1_avg_before_after.py] *)

Module Avg.

Import Raster.

Local Open Scope char_scope.

(** [THRESHOLD = date(2023, 7, 18)] *)
Definition THRESHOLD : Date.date := Date.mk 2023 7 18.

Definition sep : ascii -> bool := Re.one_of ["-"; "_"].

(** [(20\d{2})([01]\d)([0-3]\d)T] *)
Definition pat_T : Re.pattern :=
  [Re.One (Re.lit "2"); Re.One (Re.lit "0"); Re.One Re.digit; Re.One Re.digit;
   Re.One (Re.one_of ["0"; "1"]); Re.One Re.digit;
   Re.One (Re.one_of ["0"; "1"; "2"; "3"]); Re.One Re.digit;
   Re.One (Re.lit "T")].

(** [(20\d{2})[-_]?([01]\d)[-_]?([0-3]\d)] *)
Definition pat_sep : Re.pattern :=
  [Re.One (Re.lit "2"); Re.One (Re.lit "0"); Re.One Re.digit; Re.One Re.digit;
   Re.Opt sep;
   Re.One (Re.one_of ["0"; "1"]); Re.One Re.digit;
   Re.Opt sep;
   Re.One (Re.one_of ["0"; "1"; "2"; "3"]); Re.One Re.digit].

(** [date(int(m.group(1)), int(m.group(2)), int(m.group(3)))]: in both
    patterns the first eight mandatory characters are the digits of the
    three groups. *)
Definition date_of_match (cs : list ascii) : result Date.date :=
  Date.make (Str.int_of_digits 0 (firstn 4 cs))
            (Str.int_of_digits 0 (firstn 2 (skipn 4 cs)))
            (Str.int_of_digits 0 (firstn 2 (skipn 6 cs))).

Definition extract_date_from_name (name : string)
  : result (option Date.date) :=
  (* 1) YYYYMMDD followed by T *)
  match Re.search pat_T name with
  | Some cs => d <- date_of_match cs ;; Ok (Some d)
  | None =>
      (* 2) YYYY[-_]MM[-_]DD *)
      match Re.search pat_sep name with
      | Some cs => d <- date_of_match cs ;; Ok (Some d)
      | None => Ok None
      end
  end.

(** [which = "before" if acq < THRESHOLD else "after"] *)
Definition group_of (acq : Date.date) : group :=
  if Date.ltb acq THRESHOLD then before else after.

(** The array is used in the dtype of the file. *)
Definition read_band_masked (d : Dataset) (band_index : nat)
  : option MaskedArray :=
  match read d band_index with
  | Some arr => Some (mkMA arr (mask_of (dt d) (nodata d) arr))
  | None => None
  end.

(** Returns [{"VV": vv, "VH": vh}]. *)
Definition find_vv_vh_indices (d : Dataset) (filename : string)
  : pol -> option nat :=
  let '(vv, vh) := resolve d filename in
  fun p => match p with VV => vv | VH => vh end.

Definition same_grid (d : Dataset) (ref : Grid) : bool :=
  grid_eqb (grid d) ref.

(** [src_profile.transform], [src_profile.crs]: [main] hands over
    [ds.profile], a [rasterio.profiles.Profile].  That is a dictionary
    (a [collections.UserDict]): its entries are read as
    [profile["transform"]], the way [s1_relative_burn_ratio_from_pairs.py]
    does, and it has no attribute of that name. *)
Definition profile_getattr {A : Type} (profile : Grid) (attr : string)
  : result A :=
  Raise (AttributeError
           ("'Profile' object has no attribute '" ++ attr ++ "'")).

(** Both destination arrays have the shape of the reference grid;
    [dst_data] is a [float32] array.  The arguments of the first call of
    [reproject] are evaluated before the call: the attribute access
    raises, and the library is not reached. *)
Definition reproject_to_ref (lib : WarpLib) (t : dtype) (data_ma : MaskedArray)
  (src_profile : Grid) (ref : Grid) : result (list F.float * list bool) :=
  let src_data := astype_f32 t (filled F.nan data_ma) in
  let src_valid := map negb (mask data_ma) in
  let dst := seq 0 (npix ref) in
  src_transform <- profile_getattr (A := list F.float) src_profile
                     "transform" ;;
  src_crs <- profile_getattr (A := string) src_profile "crs" ;;
  let src := mkGrid src_crs src_transform
                    (width src_profile) (height src_profile) in
  let dst_data := map (fun p => F.to_f32 (warp_bilinear lib src ref src_data p)) dst in
  let dst_valid := map (warp_nearest lib src ref src_valid) dst in
  let valid_bool := map2 andb dst_valid (map F.isfinite dst_data) in
  Ok (dst_data, valid_bool).

(** The same-grid branch of lines 231-236:
    [[
    data = band.filled(np.nan).astype("float32")
    valid = (~band.mask) & np.isfinite(data)
    ]] *)
Definition on_grid (t : dtype) (band : MaskedArray)
  : list F.float * list bool :=
  let data := astype_f32 t (filled F.nan band) in
  let valid := map2 andb (map negb (mask band)) (map F.isfinite data) in
  (data, valid).

(** Lines 231-236 of [main]: the band on the reference grid, with its
    validity. *)
Definition align (lib : WarpLib) (d : Dataset) (ref : Grid)
  (band : MaskedArray) : result (list F.float * list bool) :=
  if same_grid d ref then Ok (on_grid (dt d) band)
  else reproject_to_ref lib (dt d) band (grid d) ref.

(** The sum ([float64]) and count ([uint32]) grids of one (group,
    polarization) pair; the two are created together. *)
Record Acc : Type := mkAcc {
  acc_sum : list F.float;
  acc_cnt : list N
}.

Inductive event : Type :=
| NoFiles
| WarnNoDate (filename : string)
| InfoNoData (p : pol) (g : group) (path : string)
| Wrote (path : string) (ref : Grid) (array : list F.float)
| OkLine (path : string) (n_imgs : nat) (n_pix : nat)
| Done.

Record State : Type := mkState {
  ref : option Grid;
  groups : group -> pol -> option Acc;
  total_used : group -> pol -> nat;
  log : list event
}.

Definition upd {A : Type} (f : group -> pol -> A) (g : group) (p : pol) (v : A)
  : group -> pol -> A :=
  fun g' p' => if group_eqb g g' && pol_eqb p p' then v else f g' p'.

Definition init : State :=
  mkState None (fun _ _ => None) (fun _ _ => 0) [].

Definition zeros_f64 (n : nat) : list F.float := repeat (S754_zero false) n.
Definition zeros_u32 (n : nat) : list N := repeat 0%N n.

Definition u32_succ (c : N) : N := ((c + 1) mod 2 ^ 32)%N.

(** [[
    groups[which][pol][valid] += data[valid].astype("float64")
    groups[which]["count"][pol][valid] += 1
    ]] *)
Definition accumulate (a : Acc) (data : list F.float) (valid : list bool)
  : Acc :=
  mkAcc
    (map3 (fun s x (v : bool) => if v then F.add64 s (F.to_f64 x) else s)
          (acc_sum a) data valid)
    (map2 (fun c (v : bool) => if v then u32_succ c else c) (acc_cnt a) valid).

(** The body of [for pol in ("VV", "VH")]. *)
Definition process_pol (lib : WarpLib) (f : File) (which : group) (r : Grid)
  (idx : pol -> option nat) (st : State) (p : pol) : result State :=
  match idx p with
  | None => Ok st
  | Some b =>
      if Nat.eqb b 0 || Nat.ltb (count (ds f)) b then Ok st
      else
        match read_band_masked (ds f) b with
        | None => Ok st
        | Some band =>
            dv <- align lib (ds f) r band ;;
            let '(data, valid) := dv in
            let a := match groups st which p with
                     | None => mkAcc (zeros_f64 (npix r)) (zeros_u32 (npix r))
                     | Some a => a
                     end in
            Ok (mkState (ref st)
                  (upd (groups st) which p (Some (accumulate a data valid)))
                  (upd (total_used st) which p (S (total_used st which p)))
                  (log st))
        end
  end.

(** The body of [for tif in files]. *)
Definition process_file (lib : WarpLib) (st : State) (f : File)
  : result State :=
  acq <- extract_date_from_name (name f) ;;
  match acq with
  | None =>
      Ok (mkState (ref st) (groups st) (total_used st)
                  (log st ++ [WarnNoDate (name f)]))
  | Some acq =>
      let which := group_of acq in
      let r := match ref st with
               | None => grid (ds f)
               | Some r => r
               end in
      let st := mkState (Some r) (groups st) (total_used st) (log st) in
      let idx := find_vv_vh_indices (ds f) (name f) in
      fold_result (process_pol lib f which r idx) [VV; VH] st
  end.

Fixpoint process_files (lib : WarpLib) (st : State) (files : list File)
  : result State :=
  match files with
  | [] => Ok st
  | f :: files' => st' <- process_file lib st f ;; process_files lib st' files'
  end.

(** The file names of [outputs], in the order of the dictionary. *)
Definition out_name (g : group) (p : pol) : string :=
  (pol_name p ++ "_" ++ group_name g ++ ".tiff")%string.

Definition outputs : list (group * pol) :=
  [(before, VV); (before, VH); (after, VV); (after, VH)].

(** [cnt_arr.max()]; numpy refuses an empty array. *)
Definition amax (l : list N) : result N :=
  match l with
  | [] => Raise (ValueError "zero-size array to reduction operation maximum")
  | c :: l' => Ok (fold_left N.max l' c)
  end.

(** [[
    avg = np.full_like(sum_arr, NODATA_OUT, dtype="float32")
    valid = cnt_arr > 0
    avg[valid] = (sum_arr[valid] / cnt_arr[valid]).astype("float32")
    ]] *)
Definition mean_px (s : F.float) (c : N) : F.float :=
  if (0 <? c)%N
  then F.to_f32 (F.div64 s (F.f64_of_Z (Z.of_N c)))
  else NODATA_OUT.

Definition average (a : Acc) : list F.float :=
  map2 mean_px (acc_sum a) (acc_cnt a).

Definition count_true (l : list bool) : nat :=
  List.length (filter (fun b : bool => b) l).

(** The body of [for (which, pol), path in outputs.items()];
    [write_geotiff] stores [avg], which already is a [float32] array,
    with the georeferencing of [ref]. *)
Definition finalize_one (st : State) (gp : group * pol)
  : result (list event) :=
  let '(which, p) := gp in
  let path := out_name which p in
  match ref st, groups st which p with
  | Some r, Some a =>
      mx <- amax (acc_cnt a) ;;
      if (mx =? 0)%N then Ok [InfoNoData p which path]
      else
        let avg := average a in
        let n_pix := count_true (map (fun c => (0 <? c)%N) (acc_cnt a)) in
        Ok [Wrote path r avg; OkLine path (total_used st which p) n_pix]
  | _, _ => Ok [InfoNoData p which path]
  end.

Fixpoint finalize (st : State) (l : list (group * pol))
  : result (list event) :=
  match l with
  | [] => Ok []
  | gp :: l' =>
      e <- finalize_one st gp ;;
      es <- finalize st l' ;;
      Ok (e ++ es)
  end.

(** [main], from the list of files that [list_tiffs] returns: what is
    printed and written, in order. *)
Definition main (lib : WarpLib) (files : list File) : result (list event) :=
  match files with
  | [] => Ok [NoFiles]
  | _ =>
      st <- process_files lib init files ;;
      es <- finalize st outputs ;;
      Ok (log st ++ es ++ [Done])
  end.

(** *** The accumulator as the specification words it

    A sequence of (group, polarization, values, validity) records on the
    reference grid, accumulated per (group, polarization). *)

(** What the align step hands on, if it does not raise. *)
Definition aligned (lib : WarpLib) (d : Dataset) (r : Grid)
  (band : MaskedArray) : option (list F.float * list bool) :=
  match align lib d r band with
  | Ok dv => Some dv
  | Raise _ => None
  end.

(** The values and validity that band [b] of [f] contributes on the
    reference grid [r], if [b] is the index of a band. *)
Definition band_record (lib : WarpLib) (r : Grid) (f : File) (b : option nat)
  : option (list F.float * list bool) :=
  match b with
  | None => None
  | Some b =>
      if Nat.eqb b 0 || Nat.ltb (count (ds f)) b then None
      else match read_band_masked (ds f) b with
           | Some band => aligned lib (ds f) r band
           | None => None
           end
  end.

(** The record of file [f] for polarization [p], with its group. *)
Definition contribution (lib : WarpLib) (r : Grid) (f : File) (p : pol)
  : option (group * (list F.float * list bool)) :=
  match extract_date_from_name (name f) with
  | Ok (Some acq) =>
      option_map (pair (group_of acq))
        (band_record lib r f (find_vv_vh_indices (ds f) (name f) p))
  | _ => None
  end.

(** The records of the pair (g, p), in the order of the files. *)
Definition records (lib : WarpLib) (r : Grid) (g : group) (p : pol)
  (files : list File) : list (list F.float * list bool) :=
  flat_map
    (fun f => match contribution lib r f p with
              | Some (g', dv) => if group_eqb g' g then [dv] else []
              | None => []
              end)
    files.

(** One record added to an accumulator, which is created on the first. *)
Definition add_record (r : Grid) (o : option Acc)
  (dv : list F.float * list bool) : option Acc :=
  let a := match o with
           | None => mkAcc (zeros_f64 (npix r)) (zeros_u32 (npix r))
           | Some a => a
           end in
  Some (accumulate a (fst dv) (snd dv)).

(** The reference grid: that of the first file whose name has a date. *)
Fixpoint ref_of (files : list File) : option Grid :=
  match files with
  | [] => None
  | f :: files' =>
      match extract_date_from_name (name f) with
      | Ok (Some _) => Some (grid (ds f))
      | _ => ref_of files'
      end
  end.


(** What a record is: values and validity of the shape of the reference
    grid, the values [float32] numbers, the valid ones finite. *)
Definition good_record (r : Grid) (dv : list F.float * list bool) : Prop :=
  List.length (fst dv) = npix r
  /\ List.length (snd dv) = npix r
  /\ forall i x, nth_error (fst dv) i = Some x ->
       F.is_f32 x = true
       /\ (nth_error (snd dv) i = Some true -> F.isfinite x = true).

(** An accumulator of the shape of the reference grid. *)
Definition good_acc (r : Grid) (a : Acc) : Prop :=
  List.length (acc_sum a) = npix r /\ List.length (acc_cnt a) = npix r.

(** The rasters that a run writes: name, georeferencing and pixels. *)
Definition rasters (run : result (list event))
  : list (string * Grid * list F.float) :=
  match run with
  | Ok es =>
      flat_map (fun e => match e with
                         | Wrote path r arr => [(path, r, arr)]
                         | _ => []
                         end) es
  | Raise _ => []
  end.


(** The name of the file has a date. *)
Definition has_date (f : File) : bool :=
  match extract_date_from_name (name f) with
  | Ok (Some _) => true
  | _ => false
  end.

(** No file name makes the date constructor raise. *)
Definition names_ok (files : list File) : bool :=
  forallb (fun f => match extract_date_from_name (name f) with
                    | Ok _ => true
                    | Raise _ => false
                    end) files.

(** The resolver names a band of the file for polarization [p]: the
    test [if not b or b > ds.count] of [main] lets it through. *)
Definition has_band (f : File) (p : pol) : bool :=
  match find_vv_vh_indices (ds f) (name f) p with
  | Some b => negb (Nat.eqb b 0 || Nat.ltb (count (ds f)) b)
  | None => false
  end.

(** A contributing file: its name has a date and it has a band for one
    of the polarizations. *)
Definition contributes (f : File) : bool :=
  has_date f && (has_band f VV || has_band f VH).

(** Every contributing file lies on the reference grid, as [same_grid]
    tests it. *)
Definition on_ref_grid (files : list File) : bool :=
  match ref_of files with
  | Some r => forallb (fun f => negb (contributes f) || same_grid (ds f) r)
                      files
  | None => true
  end.


(** A file as the raster library hands it over: every band has one value
    per pixel of the grid, in the dtype of the file, and the grid has a
    pixel. *)
Definition wf_file (f : File) : bool :=
  Nat.ltb 0 (npix (grid (ds f)))
  && forallb (fun b => Nat.eqb (List.length (pixels b)) (npix (grid (ds f)))
                       && forallb (in_dtype (dt (ds f))) (pixels b))
             (bands (ds f)).

End Avg.

(** ** [s1_relative_burn_ratio_from_pairs.py] *)

Module Rbr.

Import Raster.

(** [EPS = 1e-12]; added to a [float32] array it is taken in [float32]. *)
Definition EPS : F.float := Eval vm_compute in F.decimal 1 12.
Definition EPS32 : F.float := Eval vm_compute in F.to_f32 EPS.

Definition one32 : F.float := Eval vm_compute in F.f32_of_Z 1.
Definition ten32 : F.float := Eval vm_compute in F.f32_of_Z 10.

(** [np.finfo(float).tiny], the least positive normal [float64]. *)
Definition tiny : F.float := S754_finite false 4503599627370496 (-1074).

(** [np.power(10.0, x, dtype=np.float32)], which numpy leaves to the C
    library. *)
Record PowLib : Type := mkPowLib {
  power10 : F.float -> F.float
}.

(** The array is converted to [float32] as it is read. *)
Definition read_band_masked (d : Dataset) (band_index : nat)
  : result MaskedArray :=
  match read d band_index with
  | Some a =>
      let arr := astype_f32 (dt d) a in
      Ok (mkMA arr (mask_of float32 (nodata d) arr))
  | None => Raise (IndexError "band index out of range")
  end.

(** Returns the dictionary [present]. *)
Definition find_pol_indices (d : Dataset) (filename : string)
  : list (pol * nat) :=
  let '(vv, vh) := resolve d filename in
  (match vv with Some i => [(VV, i)] | None => [] end)
  ++ (match vh with Some i => [(VH, i)] | None => [] end).

(** [present.get(pol)] *)
Fixpoint lookup (p : pol) (d : list (pol * nat)) : option nat :=
  match d with
  | [] => None
  | (q, i) :: d' => if pol_eqb p q then Some i else lookup p d'
  end.

Definition grids_match (p1 p2 : Grid) : bool := grid_eqb p1 p2.

Definition reproject_to_ref (lib : WarpLib) (ma : MaskedArray)
  (src_prof ref_prof : Grid) : MaskedArray :=
  let src := filled F.nan ma in
  let src_valid := map negb (mask ma) in
  let dst := seq 0 (npix ref_prof) in
  let dst_data :=
    map (fun p => F.to_f32 (warp_bilinear lib src_prof ref_prof src p)) dst in
  let dst_valid := map (warp_nearest lib src_prof ref_prof src_valid) dst in
  mkMA dst_data
       (map2 orb (map negb dst_valid)
                 (map (fun x => negb (F.isfinite x)) dst_data)).

(** *** Masked arithmetic of [numpy.ma]

    A masked binary operation computes on the data of all entries, takes
    the union of the masks, and puts the data of the first operand back
    under the masked entries. *)
Definition ma_binop (f : F.float -> F.float -> F.float)
  (a b : MaskedArray) : MaskedArray :=
  let m := map2 orb (mask a) (mask b) in
  mkMA (map3 (fun x y (k : bool) => if k then x else f x y) (data a) (data b) m)
       m.

(** The same with a scalar as second operand. *)
Definition ma_binop_scalar (f : F.float -> F.float -> F.float)
  (a : MaskedArray) (c : F.float) : MaskedArray :=
  mkMA (map2 (fun x (k : bool) => if k then x else f x c) (data a) (mask a))
       (mask a).

(** The domain of [np.ma.divide]:
    [np.absolute(a) * tiny >= np.absolute(b)], formed in [float64]. *)
Definition domain_safe_divide (a b : F.float) : bool :=
  F.leb (F.to_f64 (F.abs b)) (F.mul64 (F.to_f64 (F.abs a)) tiny).

Definition bool32 (k : bool) : F.float := if k then one32 else F.zero.

(** [np.ma.divide] on [float32] operands: an entry whose quotient is not
    finite, or that is outside the domain, or that is masked in an
    operand, is masked, and under a masked entry the data of the
    numerator is put back:
    [[
    result = da / db
    m = ~isfinite(result) | domain(da, db) | getmask(a) | getmask(b)
    np.copyto(result, 0, where=m)
    result += np.multiply(m, da)
    ]] *)
Definition ma_divide_px (da db : F.float) (ka kb : bool) : F.float * bool :=
  let result := F.div32 da db in
  let m := negb (F.isfinite result) || domain_safe_divide da db || ka || kb in
  let result := if m then F.zero else result in
  (F.add32 result (F.mul32 (bool32 m) da), m).

Fixpoint map4 {A B C D E : Type} (f : A -> B -> C -> D -> E)
  (l : list A) (m : list B) (n : list C) (o : list D) : list E :=
  match l, m, n, o with
  | a :: l', b :: m', c :: n', d :: o' => f a b c d :: map4 f l' m' n' o'
  | _, _, _, _ => []
  end.

Definition ma_divide (a b : MaskedArray) : MaskedArray :=
  let r := map4 ma_divide_px (data a) (data b) (mask a) (mask b) in
  mkMA (map fst r) (map snd r).

(** [to_linear]: [ma_db / 10.0] is a masked division by a scalar, the
    power is taken on the data, and the mask is that of the input. *)
Definition to_linear (pw : PowLib) (ma_db : MaskedArray) : MaskedArray :=
  let q := ma_binop_scalar F.div32 ma_db ten32 in
  mkMA (map (power10 pw) (data q)) (mask ma_db).

(** [[
    mask = before_lin.mask | after_lin.mask
    b = np.ma.MaskedArray(before_lin.filled(0.0), mask=mask)
    a = np.ma.MaskedArray(after_lin.filled(0.0), mask=mask)
    num = a - b
    den = a + b
    r = np.ma.divide(num, den + EPS)
    r.mask = mask | ~np.isfinite(r)
    ]]
    The last line reads the data of [r], also under its masked entries,
    and replaces the mask of [r]. *)
Definition compute_rbr (before_lin after_lin : MaskedArray) : MaskedArray :=
  let mask := map2 orb (mask before_lin) (mask after_lin) in
  let b := mkMA (filled F.zero before_lin) mask in
  let a := mkMA (filled F.zero after_lin) mask in
  let num := ma_binop F.sub32 a b in
  let den := ma_binop F.add32 a b in
  let r := ma_divide num (ma_binop_scalar F.add32 den EPS32) in
  mkMA (data r)
       (map2 orb mask (map (fun x => negb (F.isfinite x)) (data r))).

(** [compute_rbr] at one pixel, from the values and mask bits of the two
    inputs there: the data and the mask bit of the result. *)
Definition rbr_px (xb xa : F.float) (kb ka : bool) : F.float * bool :=
  let k := kb || ka in
  let b := if kb then F.zero else xb in
  let a := if ka then F.zero else xa in
  let num := if k then a else F.sub32 a b in
  let den := if k then a else F.add32 a b in
  let den_eps := if k then den else F.add32 den EPS32 in
  let r := fst (ma_divide_px num den_eps k k) in
  (r, k || negb (F.isfinite r)).

(** The ratio proper, [(after - before) / (after + before + EPS)], in
    [float32] arithmetic. *)
Definition ratio (xb xa : F.float) : F.float :=
  F.div32 (F.sub32 xa xb) (F.add32 (F.add32 xa xb) EPS32).

Inductive event : Type :=
| InfoSkip (p : pol)
| ErrorNothing
| Wrote (path : string) (ref : Grid) (array : list F.float)
| OkStats (path : string) (vals : list F.float)
| OkNoValid (path : string)
| Done.

Definition out_name (p : pol) : string :=
  ("RBR_" ++ pol_name p ++ ".tiff")%string.

(** [rbr.compressed()] *)
Definition compressed (a : MaskedArray) : list F.float :=
  map fst (filter (fun xm => negb (snd xm)) (combine (data a) (mask a))).

(** [[
    out = np.full((h, w), NODATA_OUT, dtype="float32")
    valid = ~rbr.mask
    out[valid] = rbr.filled(0.0)[valid].astype("float32")
    ]] *)
Definition out_array (rbr : MaskedArray) : list F.float :=
  map2 (fun x (k : bool) => if k then NODATA_OUT else x) (data rbr) (mask rbr).

(** Lines 191-205 of [main]: the bands of one polarization read, aligned
    to the grid of BEFORE, converted, and combined. *)
Definition rbr_for (lib : WarpLib) (pw : PowLib) (inputs_in_db : bool)
  (fb fa : File) (b_idx a_idx : nat) : result MaskedArray :=
  b_band <- read_band_masked (ds fb) b_idx ;;
  a_band <- read_band_masked (ds fa) a_idx ;;
  let ref_prof := grid (ds fb) in
  let a_band :=
    if negb (grids_match (grid (ds fb)) (grid (ds fa)))
    then reproject_to_ref lib a_band (grid (ds fa)) ref_prof
    else a_band in
  let b_band := if inputs_in_db then to_linear pw b_band else b_band in
  let a_band := if inputs_in_db then to_linear pw a_band else a_band in
  Ok (compute_rbr b_band a_band).

(** The body of [for pol in available]. *)
Definition process_pol (lib : WarpLib) (pw : PowLib) (inputs_in_db : bool)
  (fb fa : File) (pol_b pol_a : list (pol * nat)) (p : pol)
  : result (list event) :=
  match lookup p pol_b, lookup p pol_a with
  | Some b_idx, Some a_idx =>
      rbr <- rbr_for lib pw inputs_in_db fb fa b_idx a_idx ;;
      let out_path := out_name p in
      let out := out_array rbr in
      let vals := compressed rbr in
      Ok [Wrote out_path (grid (ds fb)) out;
          match vals with
          | [] => OkNoValid out_path
          | _ => OkStats out_path vals
          end]
  | _, _ => Ok []
  end.

(** What the loop body writes and prints for a polarization that both
    inputs have, from the burn ratio [rbr] of its bands. *)
Definition written_for (p : pol) (fb : File) (rbr : MaskedArray)
  : list event :=
  [Wrote (out_name p) (grid (ds fb)) (out_array rbr);
   match compressed rbr with
   | [] => OkNoValid (out_name p)
   | _ => OkStats (out_name p) (compressed rbr)
   end].

Fixpoint process_pols (lib : WarpLib) (pw : PowLib) (inputs_in_db : bool)
  (fb fa : File) (pol_b pol_a : list (pol * nat)) (ps : list pol)
  : result (list event) :=
  match ps with
  | [] => Ok []
  | p :: ps' =>
      e <- process_pol lib pw inputs_in_db fb fa pol_b pol_a p ;;
      es <- process_pols lib pw inputs_in_db fb fa pol_b pol_a ps' ;;
      Ok (e ++ es)
  end.

Definition present_in_both (pol_b pol_a : list (pol * nat)) (p : pol) : bool :=
  negb (Raster.is_none (lookup p pol_b))
  && negb (Raster.is_none (lookup p pol_a)).

(** [main]: what is printed and written, in order. *)
Definition main (lib : WarpLib) (pw : PowLib) (inputs_in_db : bool)
  (fb fa : File) : result (list event) :=
  let pol_b := find_pol_indices (ds fb) (name fb) in
  let pol_a := find_pol_indices (ds fa) (name fa) in
  let available := filter (present_in_both pol_b pol_a) [VV; VH] in
  let skipped :=
    map InfoSkip
        (filter (fun p => negb (present_in_both pol_b pol_a p)) [VV; VH]) in
  match available with
  | [] => Ok (skipped ++ [ErrorNothing])
  | _ =>
      es <- process_pols lib pw inputs_in_db fb fa pol_b pol_a available ;;
      Ok (skipped ++ es ++ [Done])
  end.

End Rbr.

(** ** The display range of [s1_extract_images.py] and [tiff2png.py] *)

Module Preview.

Definition m35 : F.float := Eval vm_compute in F.f64_of_Z (-35).
Definition p5 : F.float := Eval vm_compute in F.f64_of_Z 5.
Definition tenth : F.float := Eval vm_compute in F.decimal 1 1.
Definition millionth : F.float := Eval vm_compute in F.decimal 1 6.

(** The builtin [max(a, b)] keeps [a] unless [b > a]; [min(a, b)] keeps
    [a] unless [b < a]. *)
Definition py_max (a b : F.float) : F.float := if F.ltb a b then b else a.
Definition py_min (a b : F.float) : F.float := if F.ltb b a then b else a.

(** Lines 193-205 of [s1_extract_images.main].  [fixed_range] is
    [args.fixed_range]; [pct] is what the call of [robust_percentiles]
    returns, [None] for [(None, None)].  The result [None] is the
    [continue] of a band without valid data. *)
Definition display_range_batch (fixed_range : option (F.float * F.float))
  (pct : option (F.float * F.float)) : option (F.float * F.float) :=
  match fixed_range with
  | Some (lo, hi) => Some (lo, hi)
  | None =>
      match pct with
      | None => None
      | Some (vmin, vmax) =>
          (* Clamp to a sensible SAR range to avoid wild outliers *)
          let vmin := py_max vmin m35 in
          let vmax := py_min vmax p5 in
          let vmax := if F.leb vmax vmin then F.add64 vmin tenth else vmax in
          Some (vmin, vmax)
      end
  end.

(** Lines 47-53 of [tiff2png.main]; [pct] is what [percentiles] returns. *)
Definition display_range_single (fixed_range : option (F.float * F.float))
  (pct : option (F.float * F.float)) : option (F.float * F.float) :=
  match fixed_range with
  | Some (lo, hi) => Some (lo, hi)
  | None =>
      match pct with
      | None => None
      | Some (vmin, vmax) =>
          let vmax := if F.leb vmax vmin then F.add64 vmin millionth else vmax in
          Some (vmin, vmax)
      end
  end.

(** [find_band_indices_for_vv_vh] of [s1_extract_images.py]. *)
Definition find_band_indices_for_vv_vh (d : Raster.Dataset) (filename : string)
  : Raster.pol -> option nat :=
  let '(vv, vh) := Raster.resolve d filename in
  fun p => match p with Raster.VV => vv | Raster.VH => vh end.

End Preview.

(** ** Sample inputs, for the examples below *)

Module Samples.

Definition f64_m50 : F.float := Eval vm_compute in F.f64_of_Z (-50).
Definition f64_10 : F.float := Eval vm_compute in F.f64_of_Z 10.
Definition f64_20 : F.float := Eval vm_compute in F.f64_of_Z 20.

(** A one-pixel grid and one-band [float32] rasters on it. *)
Definition grid1 : Raster.Grid :=
  Raster.mkGrid "EPSG:32635"
    (map F.f64_of_Z [10; 0; 500000; 0; -10; 4100000]%Z) 1 1.

Definition one_band (name : string) (nd : option F.float)
  (px : list F.float) : Raster.File :=
  Raster.mkFile name
    (Raster.mkDataset grid1 Raster.float32 nd
       [Raster.mkBand None [] px]).

Definition f32_1 : F.float := Eval vm_compute in F.f32_of_Z 1.
Definition f32_2 : F.float := Eval vm_compute in F.f32_of_Z 2.
Definition f32_3 : F.float := Eval vm_compute in F.f32_of_Z 3.
Definition f32_half : F.float := Eval vm_compute in F.to_f32 (F.decimal 5 1).

(** 2^126, -2^126 and 2^127 in [float32]. *)
Definition f32_big : F.float := Eval vm_compute in F.f32_of_Z (2 ^ 126).
Definition f32_mbig : F.float := Eval vm_compute in F.f32_of_Z (- 2 ^ 126).
Definition f32_big2 : F.float := Eval vm_compute in F.f32_of_Z (2 ^ 127).

(** A reprojection library and a power function; in the samples neither
    is called. *)
Definition no_warp : Raster.WarpLib :=
  Raster.mkWarpLib (fun _ _ _ _ => F.nan) (fun _ _ _ _ => false).
Definition no_pow : Rbr.PowLib := Rbr.mkPowLib (fun x => x).

Definition f32_m9999 : F.float := Eval vm_compute in F.f32_of_Z (-9999).
Definition f64_m9999 : F.float := Eval vm_compute in F.f64_of_Z (-9999).

(** Two one-band rasters, one dated before and one after the threshold,
    each with the single value 2.0. *)
Definition two_files : list Raster.File :=
  [one_band "S1_20230101_VV.tif" None [f32_2];
   one_band "S1_20230801_VV.tif" None [f32_2]].

Definition file_c : Raster.File := one_band "S1_20230103_VV.tif" None [f32_1].

(** A grid of two pixels. *)
Definition grid2 : Raster.Grid :=
  Raster.mkGrid "EPSG:32635"
    (map F.f64_of_Z [10; 0; 500000; 0; -10; 4100000]%Z) 2 1.

(** A [float64] raster on that grid, with the pixels 0.1, which is no
    [float32] number, and 2^200, which is beyond the range of
    [float32]. *)
Definition f64_tenth : F.float := Eval vm_compute in F.decimal 1 1.
Definition f32_tenth : F.float := Eval vm_compute in F.to_f32 (F.decimal 1 1).
Definition f64_huge : F.float := Eval vm_compute in F.f64_of_Z (2 ^ 200).
Definition file_f64 : Raster.File :=
  Raster.mkFile "S1_20230105_VV.tif"
    (Raster.mkDataset grid2 Raster.float64 None
       [Raster.mkBand None [] [f64_tenth; f64_huge]]).

(** A raster of two bands whose descriptions name the polarizations in
    the order VH, VV, in mixed case and padded with white space: a
    no-break space (U+00A0) after the first, a next-line character
    (U+0085), a space and a tab around the second. *)
Definition padded : Raster.Dataset :=
  Raster.mkDataset grid2 Raster.float32 None
    [Raster.mkBand (Some (String "V" (String "h" (String "160" EmptyString))))
       [] [f32_1; f32_1];
     Raster.mkBand
       (Some (String "133" (String " " (String "v" (String "V"
                (String "009" EmptyString))))))
       [] [f32_2; f32_2]].

(** A raster of one band that a tag names VH, in lower case between
    spaces. *)
Definition tagged : Raster.Dataset :=
  Raster.mkDataset grid1 Raster.float32 None
    [Raster.mkBand None [("long_name", " vh ")]%string [f32_1]].


End Samples.

(** ** The accumulators of the averager at one pixel *)

Module AvgPixel.

Import Raster Avg.

(** One pixel of the accumulators, through the records of a pair. *)
Definition sum_step (i : nat) (s : F.float) (dv : list F.float * list bool)
  : F.float :=
  if nth i (snd dv) false then F.add64 s (F.to_f64 (nth i (fst dv) F.nan))
  else s.

Definition count_step (i : nat) (c : N) (dv : list F.float * list bool) : N :=
  if nth i (snd dv) false then u32_succ c else c.

End AvgPixel.

(** ** The band resolver of [s1_extract_images.py] *)

Module Images.

Import Raster.

(** [a or i] on a band index that may be [None]: [None] and 0 are
    falsy. *)
Definition py_or (a : option nat) (i : nat) : option nat :=
  match a with
  | Some (S _) => a
  | _ => Some i
  end.

(** [[
    if t == "VV":
        vv_idx = vv_idx or i
    if t == "VH":
        vh_idx = vh_idx or i
    ]] *)
Definition note (t : string) (i : nat) (st : option nat * option nat)
  : option nat * option nat :=
  let '(vv_idx, vh_idx) := st in
  let vv_idx := if String.eqb t "VV" then py_or vv_idx i else vv_idx in
  let vh_idx := if String.eqb t "VH" then py_or vh_idx i else vh_idx in
  (vv_idx, vh_idx).

Fixpoint scan_descriptions (i : nat) (l : list (option string))
  (st : option nat * option nat) : option nat * option nat :=
  match l with
  | [] => st
  | d :: l' =>
      match truthy d with
      | None => scan_descriptions (S i) l' st
      | Some d => scan_descriptions (S i) l' (note (Str.upper (Str.strip d)) i st)
      end
  end.

Fixpoint scan_keys (tg : list (string * string)) (i : nat) (ks : list string)
  (st : option nat * option nat) : option nat * option nat :=
  match ks with
  | [] => st
  | k :: ks' =>
      match truthy (get k tg) with
      | None => scan_keys tg i ks' st
      | Some v => scan_keys tg i ks' (note (Str.upper (Str.strip v)) i st)
      end
  end.

Fixpoint scan_tags (d : Dataset) (idxs : list nat)
  (st : option nat * option nat) : option nat * option nat :=
  match idxs with
  | [] => st
  | i :: idxs' => scan_tags d idxs' (scan_keys (tags_of d i) i tag_keys st)
  end.

(** [find_band_indices_for_vv_vh], step by step as the script has it. *)
Definition find_band_indices_for_vv_vh (d : Dataset) (filename : string)
  : pol -> option nat :=
  let st := (None, None) in
  (* 1) Descriptions *)
  let st := match descriptions d with
            | [] => st
            | l => scan_descriptions 1 l st
            end in
  (* 2) Tags *)
  let st := scan_tags d (seq 1 (count d)) st in
  (* 3) Filename hint *)
  let name := Str.upper filename in
  let st :=
    if Nat.eqb (count d) 1 then
      let '(vv_idx, vh_idx) := st in
      let vv_idx :=
        if Str.contains "VV" name && is_none vv_idx then Some 1 else vv_idx in
      let vh_idx :=
        if Str.contains "VH" name && is_none vh_idx then Some 1 else vh_idx in
      (vv_idx, vh_idx)
    else st in
  (* 4) Fallback by position for two-band products *)
  let st :=
    if Nat.leb 2 (count d) then
      let '(vv_idx, vh_idx) := st in
      if is_none vv_idx && is_none vh_idx then (Some 1, Some 2) else st
    else st in
  let '(vv_idx, vh_idx) := st in
  fun p => match p with VV => vv_idx | VH => vh_idx end.

(** The indices that the scans have noted are band numbers, which start
    at 1. *)
Definition band_numbers (st : option nat * option nat) : Prop :=
  (forall i, fst st = Some i -> 1 <= i) /\ (forall i, snd st = Some i -> 1 <= i).

End Images.

(** ** From the averager to the burn-ratio tool

    The rasters that [s1_avg_before_after.py] writes are the inputs of
    [s1_relative_burn_ratio_from_pairs.py]. *)

Module Pipeline.

Import Raster.

(** [NODATA_OUT = -9999.0] as [ds.nodata] returns it, a Python [float]. *)
Definition nodata_py : F.float := Eval vm_compute in F.f64_of_Z (-9999).



End Pipeline.

(** ** Numbers of opposite sign *)

Module FloatSign.

(** [x] is [-y], or both are zeros (of any signs). *)
Definition opposite (x y : F.float) : Prop :=
  x = SFopp y \/ exists s s', x = S754_zero s /\ y = S754_zero s'.

End FloatSign.

(** ** [list_tiffs], of [s1_avg_before_after.py] and [s1_extract_images.py]

    The folder is given by its entries, each the list of the parts of
    its path below [root], in the order in which the file system lists
    them.  Names are matched as on a POSIX system, where the case of the
    letters counts. *)

Module Folder.

Definition path : Type := list string.

(** [p.name] *)
Definition name (p : path) : string := last p EmptyString.

(** The order of [Path] objects: the parts are compared one after the
    other, each as a string. *)
Fixpoint compare (p q : path) : comparison :=
  match p, q with
  | [], [] => Eq
  | [], _ :: _ => Lt
  | _ :: _, [] => Gt
  | a :: p', b :: q' =>
      match String.compare a b with
      | Eq => compare p' q'
      | c => c
      end
  end.

Definition leb (p q : path) : bool :=
  match compare p q with
  | Gt => false
  | _ => true
  end.

Definition path_eq_dec (p q : path) : {p = q} + {p <> q} :=
  list_eq_dec string_dec p q.

(** A name matches the pattern [*suf] when it ends with [suf]. *)
Definition ends_with (suf s : string) : bool :=
  (String.length suf <=? String.length s)%nat
  && String.eqb
       (substring (String.length s - String.length suf) (String.length suf) s)
       suf.

(** [root.glob("*" + suf)] yields the entries of the folder itself whose
    name matches, [root.rglob("*" + suf)] those at any depth. *)
Definition glob (recursive : bool) (entries : list path) (suf : string)
  : list path :=
  filter (fun p => (recursive || Nat.eqb (List.length p) 1)
                   && negb (Nat.eqb (List.length p) 0)
                   && ends_with suf (name p))
         entries.

(** [pats], without the leading [*]. *)
Definition pats : list string := [".tif"; ".tiff"; ".TIF"; ".TIFF"]%string.

(** [sorted] on paths: insertion into an ascending list.  On a list
    without repetitions the result is the one ascending arrangement,
    whichever algorithm builds it. *)
Fixpoint insert (p : path) (l : list path) : list path :=
  match l with
  | [] => [p]
  | q :: l' => if leb p q then p :: l else q :: insert p l'
  end.

Fixpoint sorted (l : list path) : list path :=
  match l with
  | [] => []
  | p :: l' => insert p (sorted l')
  end.

(** [[
    files = []
    for p in pats:
        files.extend(it(p))
    return sorted(set(files))
    ]] *)
Definition list_tiffs (entries : list path) (recursive : bool) : list path :=
  sorted (nodup path_eq_dec (flat_map (glob recursive entries) pats)).

(** A list in strictly ascending order. *)
Fixpoint ascending (l : list path) : Prop :=
  match l with
  | [] => True
  | p :: l' => (forall q, In q l' -> compare p q = Lt) /\ ascending l'
  end.

(** The name ends in one of the four extensions. *)
Definition is_tiff (p : path) : bool :=
  existsb (fun suf => ends_with suf (name p)) pats.

End Folder.

(* ================================================================== *)
(** * Theorems *)
(* ================================================================== *)

Unset Implicit Arguments.

(** ** The pattern matcher *)

Module ReFacts.

Import Re.

Lemma match_here_sound (p : pattern) :
  forall s cs, match_here p s = Some cs -> exists rest, Matches p s cs rest.
Proof.
  induction p as [|[cls|cls] p IH]; intros s cs H; simpl in H.
  - inversion H; subst. exists s. constructor.
  - destruct s as [|a s]; [discriminate|].
    destruct (cls a) eqn:Ha; [|discriminate].
    destruct (match_here p s) as [r|] eqn:Hr; [|discriminate].
    inversion H; subst.
    destruct (IH _ _ Hr) as [rest Hm].
    exists rest. now constructor.
  - destruct s as [|a s].
    + destruct (IH _ _ H) as [rest Hm]. exists rest. now apply M_skip.
    + destruct (cls a) eqn:Ha.
      * destruct (match_here p s) as [r|] eqn:Hr.
        -- inversion H; subst.
           destruct (IH _ _ Hr) as [rest Hm]. exists rest. now apply M_take.
        -- destruct (IH _ _ H) as [rest Hm]. exists rest. now apply M_skip.
      * destruct (IH _ _ H) as [rest Hm]. exists rest. now apply M_skip.
Qed.

Lemma match_here_complete (p : pattern) :
  forall s cs rest, Matches p s cs rest -> exists cs', match_here p s = Some cs'.
Proof.
  intros s cs rest H.
  induction H as [s|cls p a s cs rest Ha _ [cs' IH]
                  |cls p a s cs rest Ha _ [cs' IH]
                  |cls p s cs rest _ [cs' IH]]; simpl.
  - now exists [].
  - rewrite Ha, IH. simpl. eauto.
  - rewrite Ha, IH. eauto.
  - destruct s as [|a s]; [eauto|].
    destruct (cls a); [|eauto].
    destruct (match_here p s); eauto.
Qed.

Lemma match_here_none (p : pattern) (s : string) :
  match_here p s = None -> forall cs rest, ~ Matches p s cs rest.
Proof.
  intros H cs rest Hm.
  destruct (match_here_complete _ _ _ _ Hm) as [cs' Hc]. congruence.
Qed.

Lemma search_none (p : pattern) :
  forall s, search p s = None -> Absent p s.
Proof.
  induction s as [|a s IH]; simpl; intros H pre suf cs rest E.
  - destruct (match_here p "") eqn:Hm; [discriminate|].
    destruct pre; [|discriminate]. simpl in E. subst suf.
    now apply match_here_none.
  - destruct (match_here p (String a s)) eqn:Hm; [discriminate|].
    destruct pre as [|b pre]; simpl in E.
    + subst suf. now apply match_here_none.
    + inversion E; subst. now apply (IH H pre suf).
Qed.

Lemma search_some (p : pattern) :
  forall s cs, search p s = Some cs ->
  exists pre suf,
    s = (pre ++ suf)%string
    /\ match_here p suf = Some cs
    /\ forall pre' suf', s = (pre' ++ suf')%string ->
         (String.length pre' < String.length pre)%nat ->
         match_here p suf' = None.
Proof.
  induction s as [|a s IH]; simpl; intros cs H.
  - destruct (match_here p "") eqn:Hm; [|discriminate].
    inversion H; subst. exists ""%string, ""%string. repeat split; auto.
    simpl. intros; lia.
  - destruct (match_here p (String a s)) eqn:Hm.
    + inversion H; subst. exists ""%string, (String a s). repeat split; auto.
      simpl. intros; lia.
    + destruct (IH _ H) as (pre & suf & E & Hs & Hl).
      exists (String a pre), suf. subst s. repeat split; auto.
      intros [|b pre'] suf' E' Hlen; simpl in *.
      * now subst suf'.
      * inversion E'; subst. apply (Hl pre' suf'); auto. lia.
Qed.

Lemma search_leftmost (p : pattern) (s : string) (cs cs' : list ascii) :
  Deterministic p -> Leftmost p s cs -> search p s = Some cs' -> cs' = cs.
Proof.
  intros Hd (pre & suf & rest & E & Hm & Hl) Hs.
  destruct (search_some _ _ _ Hs) as (pre2 & suf2 & E2 & Hm2 & Hl2).
  destruct (match_here_sound _ _ _ Hm2) as [rest2 Hm2'].
  destruct (Nat.lt_trichotomy (String.length pre) (String.length pre2))
    as [Hlt|[Heq|Hgt]].
  - exfalso. specialize (Hl2 pre suf E Hlt).
    now apply (match_here_none _ _ Hl2 _ _ Hm).
  - assert (pre = pre2 /\ suf = suf2) as [-> ->].
    { subst s. clear - E2 Heq. revert pre2 E2 Heq.
      induction pre as [|a pre IH]; intros [|b pre2] E2 Heq;
        simpl in *; try discriminate; auto.
      inversion E2; subst. destruct (IH pre2); auto. now subst. }
    symmetry. eapply Hd; eauto.
  - exfalso. now apply (Hl pre2 suf2 cs' rest2 E2 Hgt).
Qed.

Lemma search_absent (p : pattern) (s : string) :
  Absent p s -> search p s = None.
Proof.
  intros Ha. destruct (search p s) as [cs|] eqn:Hs; auto.
  destruct (search_some _ _ _ Hs) as (pre & suf & E & Hm & _).
  destruct (match_here_sound _ _ _ Hm) as [rest Hm'].
  exfalso. now apply (Ha pre suf cs rest E).
Qed.

End ReFacts.

Module ReDet.

Import Re.

Lemma det_nil : Deterministic [].
Proof.
  intros s cs rest cs' rest' H1 H2. inversion H1; inversion H2; subst; auto.
Qed.

Lemma det_one (cls : ascii -> bool) (p : pattern) :
  Deterministic p -> Deterministic (One cls :: p).
Proof.
  intros Hp s cs rest cs' rest' H1 H2.
  inversion H1; subst. inversion H2; subst.
  f_equal. eapply Hp; eauto.
Qed.

(** An optional item is no source of ambiguity when the item after it
    refuses every character that the optional one accepts. *)
Lemma det_opt (cls cls' : ascii -> bool) (p : pattern) :
  (forall a, cls a = true -> cls' a = false) ->
  Deterministic (One cls' :: p) ->
  Deterministic (Opt cls :: One cls' :: p).
Proof.
  intros Hdis Hp s cs rest cs' rest' H1 H2.
  inversion H1; subst; inversion H2; subst.
  - eapply Hp; eauto.
  - exfalso. match goal with
             | H : Matches (One cls' :: p) (String _ _) _ _ |- _ =>
                 inversion H; subst
             end.
    match goal with
    | Ha : cls ?a = true, Hb : cls' ?a = true |- _ =>
        rewrite (Hdis _ Ha) in Hb; discriminate
    end.
  - exfalso. match goal with
             | H : Matches (One cls' :: p) (String _ _) _ _ |- _ =>
                 inversion H; subst
             end.
    match goal with
    | Ha : cls ?a = true, Hb : cls' ?a = true |- _ =>
        rewrite (Hdis _ Ha) in Hb; discriminate
    end.
  - eapply Hp; eauto.
Qed.

End ReDet.

(** ** Dates and temporal groups of the averager *)

Module AvgDates.

Import Raster Avg.

Lemma sep_not_01 (a : ascii) :
  sep a = true -> Re.one_of ["0"; "1"]%char a = false.
Proof.
  destruct a as [[] [] [] [] [] [] [] []]; vm_compute; congruence.
Qed.

Lemma sep_not_0123 (a : ascii) :
  sep a = true -> Re.one_of ["0"; "1"; "2"; "3"]%char a = false.
Proof.
  destruct a as [[] [] [] [] [] [] [] []]; vm_compute; congruence.
Qed.

Lemma pat_T_deterministic : Re.Deterministic pat_T.
Proof.
  unfold pat_T. repeat apply ReDet.det_one. apply ReDet.det_nil.
Qed.

Lemma pat_sep_deterministic : Re.Deterministic pat_sep.
Proof.
  unfold pat_sep.
  do 4 apply ReDet.det_one.
  apply ReDet.det_opt; [exact sep_not_01|].
  do 2 apply ReDet.det_one.
  apply ReDet.det_opt; [exact sep_not_0123|].
  do 2 apply ReDet.det_one. apply ReDet.det_nil.
Qed.

Lemma ltb_lt (d1 d2 : Date.date) : Date.ltb d1 d2 = true <-> Date.lt d1 d2.
Proof.
  unfold Date.ltb, Date.lt.
  rewrite !orb_true_iff, !andb_true_iff, !orb_true_iff, !andb_true_iff,
    !Z.ltb_lt, !Z.eqb_eq.
  tauto.
Qed.

(** Every name either has a leftmost match of a pattern or none at all. *)
Lemma leftmost_or_absent (p : Re.pattern) (s : string) :
  (exists cs, Re.Leftmost p s cs) \/ Re.Absent p s.
Proof.
  destruct (Re.search p s) as [cs|] eqn:Hs.
  - left. exists cs.
    destruct (ReFacts.search_some _ _ _ Hs) as (pre & suf & E & Hm & Hl).
    destruct (ReFacts.match_here_sound _ _ _ Hm) as [rest Hm'].
    exists pre, suf, rest. repeat split; auto.
    intros pre' suf' cs' rest' E' Hlen.
    apply ReFacts.match_here_none. now apply (Hl pre' suf').
  - right. now apply ReFacts.search_none.
Qed.

(** C2.  Date extraction takes the leftmost match of [YYYYMMDD] followed
    by [T] when the name has one; otherwise the leftmost match of
    [YYYY], optional separator, [MM], optional separator, [DD]; otherwise
    it returns no date.  A date strictly earlier than 2023-07-18 is in
    group [before], any other, the threshold included, in group [after].
    The three file names of the specification give 2023-07-12 [before],
    2023-07-20 [after], and no date. *)
Theorem date_extraction_and_group :
  (forall name cs,
      Re.Leftmost pat_T name cs ->
      extract_date_from_name name = (d <- date_of_match cs ;; Ok (Some d)))
  /\ (forall name cs,
         Re.Absent pat_T name -> Re.Leftmost pat_sep name cs ->
         extract_date_from_name name = (d <- date_of_match cs ;; Ok (Some d)))
  /\ (forall name,
         Re.Absent pat_T name -> Re.Absent pat_sep name ->
         extract_date_from_name name = Ok None)
  /\ (forall acq,
         (Date.lt acq THRESHOLD -> group_of acq = before)
         /\ (~ Date.lt acq THRESHOLD -> group_of acq = after))
  /\ group_of THRESHOLD = after
  /\ (extract_date_from_name "S1A_20230712T013245_..."
        = Ok (Some (Date.mk 2023 7 12))
      /\ group_of (Date.mk 2023 7 12) = before)
  /\ (extract_date_from_name "2023-07-20_VV.tif"
        = Ok (Some (Date.mk 2023 7 20))
      /\ group_of (Date.mk 2023 7 20) = after)
  /\ extract_date_from_name "no_date_here.tif" = Ok None.
Proof.
  split; [|split; [|split; [|split; [|split; [|split; [|split]]]]]].
  - intros name cs Hl. unfold extract_date_from_name.
    destruct (Re.search pat_T name) as [cs'|] eqn:Hs.
    + now rewrite (ReFacts.search_leftmost _ _ _ _ pat_T_deterministic Hl Hs).
    + exfalso. destruct Hl as (pre & suf & rest & E & Hm & _).
      exact (ReFacts.search_none _ _ Hs pre suf cs rest E Hm).
  - intros name cs Ha Hl. unfold extract_date_from_name.
    rewrite (ReFacts.search_absent _ _ Ha).
    destruct (Re.search pat_sep name) as [cs'|] eqn:Hs.
    + now rewrite (ReFacts.search_leftmost _ _ _ _ pat_sep_deterministic Hl Hs).
    + exfalso. destruct Hl as (pre & suf & rest & E & Hm & _).
      exact (ReFacts.search_none _ _ Hs pre suf cs rest E Hm).
  - intros name Ha Hb. unfold extract_date_from_name.
    now rewrite (ReFacts.search_absent _ _ Ha), (ReFacts.search_absent _ _ Hb).
  - intros acq. unfold group_of. split; intros H.
    + apply ltb_lt in H. now rewrite H.
    + destruct (Date.ltb acq THRESHOLD) eqn:E; auto.
      apply ltb_lt in E. contradiction.
  - reflexivity.
  - split; reflexivity.
  - split; reflexivity.
  - reflexivity.
Qed.

(** C3.  The name [20230239T.tif] matches the first pattern, and
    [date(2023, 2, 39)] raises: the extraction does not return, and the
    run of [main] over a folder that holds such a file ends with the
    exception, whatever the file contains and whatever other files
    follow it. *)
Theorem date_extraction_raises_on_impossible_date :
  extract_date_from_name "20230239T.tif"
    = Raise (ValueError "day is out of range for month")
  /\ forall lib d files,
       main lib (mkFile "20230239T.tif" d :: files)
         = Raise (ValueError "day is out of range for month").
Proof.
  split; [reflexivity|].
  intros lib d files. reflexivity.
Qed.

End AvgDates.

(** ** The band resolver *)

Module ResolverFacts.

Import Raster.

Lemma or_else_assoc {A : Type} (a b c : option A) :
  or_else (or_else a b) c = or_else a (or_else b c).
Proof. now destruct a. Qed.

Lemma or_else_none_r {A : Type} (a : option A) : or_else a None = a.
Proof. now destruct a. Qed.

Lemma note_spec (t : string) (i : nat) (vv vh : option nat) :
  note t i (vv, vh)
  = (or_else vv (if String.eqb t "VV" then Some i else None),
     or_else vh (if String.eqb t "VH" then Some i else None)).
Proof.
  unfold note.
  destruct (String.eqb t "VV"), (String.eqb t "VH"), vv, vh; reflexivity.
Qed.

Lemma scan_descriptions_spec (l : list (option string)) :
  forall i vv vh,
    scan_descriptions i l (vv, vh)
    = (or_else vv (first_index (names_pol VV) i l),
       or_else vh (first_index (names_pol VH) i l)).
Proof.
  induction l as [|d l IH]; intros i vv vh;
    cbn [scan_descriptions first_index].
  - now rewrite !or_else_none_r.
  - destruct d as [[|c s]|]; cbn [truthy names_pol pol_name].
    + apply IH.
    + rewrite note_spec, IH, !or_else_assoc.
      destruct (String.eqb (Str.upper (Str.strip (String c s))) "VV"),
               (String.eqb (Str.upper (Str.strip (String c s))) "VH");
        reflexivity.
    + apply IH.
Qed.

Lemma first_index_map {A B : Type} (g : A -> B) (f : B -> bool) (l : list A) :
  forall i, first_index f i (map g l) = first_index (fun a => f (g a)) i l.
Proof.
  induction l as [|a l IH]; intros i; simpl; auto.
  destruct (f (g a)); auto.
Qed.

Lemma scan_keys_spec (tg : list (string * string)) (i : nat)
  (ks : list string) :
  forall vv vh,
    scan_keys tg i ks (vv, vh)
    = (or_else vv (if existsb (fun k => names_pol VV (get k tg)) ks
                   then Some i else None),
       or_else vh (if existsb (fun k => names_pol VH (get k tg)) ks
                   then Some i else None)).
Proof.
  induction ks as [|k ks IH]; intros vv vh; cbn [scan_keys existsb].
  - now rewrite !or_else_none_r.
  - destruct (get k tg) as [[|c s]|]; cbn [truthy names_pol pol_name orb].
    + apply IH.
    + rewrite note_spec, IH, !or_else_assoc.
      destruct (String.eqb (Str.upper (Str.strip (String c s))) "VV"),
               (String.eqb (Str.upper (Str.strip (String c s))) "VH");
        reflexivity.
    + apply IH.
Qed.

Lemma tags_of_app (d : Dataset) (pre : list Band) (b : Band)
  (rest : list Band) :
  bands d = pre ++ b :: rest -> tags_of d (S (List.length pre)) = tags b.
Proof.
  intros E. unfold tags_of. rewrite E, nth_error_app2 by lia.
  now rewrite Nat.sub_diag.
Qed.

Lemma scan_tags_spec (d : Dataset) (rest : list Band) :
  forall pre vv vh,
    bands d = pre ++ rest ->
    scan_tags d (seq (S (List.length pre)) (List.length rest)) (vv, vh)
    = (or_else vv
         (first_index
            (fun b => existsb (fun k => names_pol VV (get k (tags b))) tag_keys)
            (S (List.length pre)) rest),
       or_else vh
         (first_index
            (fun b => existsb (fun k => names_pol VH (get k (tags b))) tag_keys)
            (S (List.length pre)) rest)).
Proof.
  induction rest as [|b rest IH]; intros pre vv vh E.
  - simpl. now rewrite !or_else_none_r.
  - cbn [List.length seq scan_tags first_index].
    rewrite (tags_of_app d pre b rest E), scan_keys_spec.
    assert (E' : bands d = (pre ++ [b]) ++ rest) by now rewrite <- app_assoc.
    specialize (IH (pre ++ [b])).
    rewrite length_app in IH. simpl in IH. rewrite Nat.add_1_r in IH.
    rewrite (IH _ _ E'), !or_else_assoc.
    destruct (existsb (fun k => names_pol VV (get k (tags b))) tag_keys),
             (existsb (fun k => names_pol VH (get k (tags b))) tag_keys);
      reflexivity.
Qed.

(** The body of the resolvers computes the chain of strategies. *)
Lemma resolve_refines (d : Dataset) (filename : string) :
  resolve d filename
  = (resolve_spec VV d filename, resolve_spec VH d filename).
Proof.
  unfold resolve. cbv zeta.
  assert (E0 : forall (l : list (option string)) st,
             match l with
             | [] => st
             | o :: l0 => scan_descriptions 1 (o :: l0) st
             end = scan_descriptions 1 l st) by (intros [|]; reflexivity).
  rewrite E0, scan_descriptions_spec. cbn [or_else].
  unfold descriptions. rewrite !first_index_map.
  fold (by_description VV d) (by_description VH d).
  rewrite (scan_tags_spec d (bands d) [] _ _ eq_refl).
  cbn [List.length].
  fold (by_tags VV d) (by_tags VH d).
  unfold resolve_spec, by_position, steps_1_to_3, by_filename. simpl pol_name.
  destruct (by_description VV d), (by_description VH d),
           (by_tags VV d), (by_tags VH d),
           (Nat.eqb (count d) 1) eqn:E1c, (Nat.leb 2 (count d)) eqn:E2c,
           (Str.contains "VV" (Str.upper filename)),
           (Str.contains "VH" (Str.upper filename));
    try reflexivity;
    exfalso; apply Nat.eqb_eq in E1c; apply Nat.leb_le in E2c; lia.
Qed.

Lemma find_vv_vh_indices_spec (d : Dataset) (filename : string) (p : pol) :
  Avg.find_vv_vh_indices d filename p = resolve_spec p d filename.
Proof.
  unfold Avg.find_vv_vh_indices. rewrite resolve_refines. now destruct p.
Qed.

Lemma find_pol_indices_spec (d : Dataset) (filename : string) (p : pol) :
  Rbr.lookup p (Rbr.find_pol_indices d filename) = resolve_spec p d filename.
Proof.
  unfold Rbr.find_pol_indices. rewrite resolve_refines.
  destruct p, (resolve_spec VV d filename), (resolve_spec VH d filename);
    reflexivity.
Qed.

Lemma first_index_range {A : Type} (f : A -> bool) (l : list A) :
  forall i j, first_index f i l = Some j -> i <= j < i + List.length l.
Proof.
  induction l as [|a l IH]; intros i j H; simpl in *; [discriminate|].
  destruct (f a).
  - inversion H; subst. lia.
  - apply IH in H. lia.
Qed.

(** Every index that the resolver returns is the index of a band. *)
Lemma resolve_spec_in_range (p : pol) (d : Dataset) (filename : string)
  (i : nat) :
  resolve_spec p d filename = Some i -> 1 <= i <= count d.
Proof.
  unfold resolve_spec, steps_1_to_3, by_description, by_tags, by_filename,
    by_position, count.
  repeat match goal with
         | |- context [first_index ?f 1 ?l] =>
             let E := fresh "E" in
             destruct (first_index f 1 l) eqn:E;
             [apply first_index_range in E|]
         end;
    cbn [or_else is_none andb]; intros H;
    try (inversion H; subst; lia);
    destruct (Nat.eqb (List.length (bands d)) 1) eqn:E1;
    destruct (Nat.leb 2 (List.length (bands d))) eqn:E2;
    try apply Nat.eqb_eq in E1; try apply Nat.leb_le in E2;
    cbn [andb] in H;
    repeat match goal with
           | H : context [if ?b then _ else _] |- _ => destruct b
           end;
    cbn [or_else is_none andb] in H;
    try discriminate; inversion H; subst; try destruct p; lia.
Qed.

(** C5.  In the averager and in the burn-ratio tool alike, the band
    resolver returns for each polarization the answer of the first of:
    the per-band descriptions, the per-band tags under the four keys, the
    file name of a one-band raster, and the positions 1 and 2 of a raster
    with at least two bands of which the earlier steps resolved neither
    polarization; a polarization that no step answers is absent.  A
    label matches whatever its case and the white space around it:
    descriptions in the order VH, VV, padded with a no-break space and a
    next-line character, give VV = 2 and VH = 1, not the positions; a tag
    [" vh "] on the band of a file named with [vv] gives VH = 1 by the
    tag and VV = 1 by the name. *)
Theorem band_resolver_first_match_wins (d : Dataset) (filename : string)
  (p : pol) :
  Avg.find_vv_vh_indices d filename p = resolve_spec p d filename
  /\ Rbr.lookup p (Rbr.find_pol_indices d filename)
     = resolve_spec p d filename
  /\ Avg.find_vv_vh_indices Samples.padded "S1_20230101.tif" VV = Some 2
  /\ Avg.find_vv_vh_indices Samples.padded "S1_20230101.tif" VH = Some 1
  /\ Rbr.find_pol_indices Samples.padded "S1_20230101.tif"
     = [(VV, 2); (VH, 1)]
  /\ by_description VV Samples.padded = Some 2
  /\ by_position VV Samples.padded "S1_20230101.tif" = None
  /\ Avg.find_vv_vh_indices Samples.tagged "s1_20230101_vv.tif" VH = Some 1
  /\ Avg.find_vv_vh_indices Samples.tagged "s1_20230101_vv.tif" VV = Some 1
  /\ Rbr.find_pol_indices Samples.tagged "s1_20230101_vv.tif"
     = [(VV, 1); (VH, 1)]
  /\ by_tags VH Samples.tagged = Some 1
  /\ by_filename VV Samples.tagged "s1_20230101_vv.tif" = Some 1.
Proof.
  split; [apply find_vv_vh_indices_spec|].
  split; [apply find_pol_indices_spec|].
  repeat split; vm_compute; reflexivity.
Qed.

End ResolverFacts.

(** ** IEEE-754 facts *)

Module FloatFacts.

Local Open Scope Z_scope.

(** Rounding a number to a format it already belongs to changes
    nothing. *)
Lemma binary_round_valid (prec emax : Z) (s : bool) (m : positive) (e : Z) :
  bounded prec emax m e = true ->
  binary_round prec emax s m e = S754_finite s m e.
Proof.
  unfold bounded, canonical_mantissa. intros H.
  apply andb_true_iff in H. destruct H as [Hc He].
  apply Z.eqb_eq in Hc.
  unfold binary_round, shl_align. rewrite Hc, Z.sub_diag.
  unfold binary_round_aux, shr_fexp. cbn [Zdigits2 shr_record_of_loc].
  rewrite Hc, Z.sub_diag. cbn [shr shr_m loc_of_shr_record round_nearest_even].
  cbn [Zdigits2 shr_record_of_loc]. rewrite Hc, Z.sub_diag. cbn [shr shr_m].
  now rewrite He.
Qed.

Lemma astype_valid (prec emax : Z) (x : F.float) :
  valid_binary prec emax x = true -> F.astype prec emax x = x.
Proof.
  destruct x as [s|s| |s m e]; simpl; auto.
  apply binary_round_valid.
Qed.

Lemma to_f32_valid (x : F.float) : F.is_f32 x = true -> F.to_f32 x = x.
Proof. apply astype_valid. Qed.

Lemma to_f64_valid (x : F.float) : F.is_f64 x = true -> F.to_f64 x = x.
Proof. apply astype_valid. Qed.

Lemma iter_pos_nat {A : Type} (f : A -> A) (p : positive) :
  forall x, iter_pos f p x = Nat.iter (Pos.to_nat p) f x.
Proof.
  induction p as [p IH|p IH|]; intros x; cbn [iter_pos].
  - rewrite !IH, Pos2Nat.inj_xI.
    replace (S (2 * Pos.to_nat p)) with (Pos.to_nat p + (Pos.to_nat p + 1))%nat by lia.
    rewrite !Nat.iter_add. reflexivity.
  - rewrite !IH, Pos2Nat.inj_xO.
    replace (2 * Pos.to_nat p)%nat with (Pos.to_nat p + Pos.to_nat p)%nat by lia.
    now rewrite Nat.iter_add.
  - reflexivity.
Qed.

Lemma digits2_size (m : positive) : digits2_pos m = Pos.size m.
Proof. induction m; simpl; congruence. Qed.

Lemma Zdigits2_log2 (a : Z) : 0 < a -> Zdigits2 a = Z.log2 a + 1.
Proof.
  destruct a as [|p|p]; try lia. intros _. simpl Zdigits2.
  rewrite digits2_size.
  destruct p; simpl; rewrite ?Pos2Z.inj_succ; lia.
Qed.

Lemma shr_1_m (r : shr_record) :
  0 <= shr_m r -> shr_m (shr_1 r) = Z.div2 (shr_m r).
Proof.
  destruct r as [m b c]. simpl. destruct m as [|[p|p|]|p]; simpl; try lia; reflexivity.
Qed.

Lemma shr_nat_m (n : nat) :
  forall r, 0 <= shr_m r ->
    shr_m (Nat.iter n shr_1 r) = Z.shiftr (shr_m r) (Z.of_nat n).
Proof.
  induction n as [|n IH]; intros r Hr.
  - simpl. now rewrite Z.shiftr_0_r.
  - rewrite Nat.iter_succ_r, IH.
    + rewrite shr_1_m by auto. rewrite Z.div2_spec, Z.shiftr_shiftr by lia.
      f_equal. lia.
    + rewrite shr_1_m by auto. rewrite Z.div2_spec. now apply Z.shiftr_nonneg.
Qed.

Section Round.
Variables prec emax : Z.
Hypothesis Hprec : 0 < prec.

Lemma fexp_mono (x y : Z) :
  x <= y -> fexp prec emax x <= fexp prec emax y.
Proof. unfold fexp. lia. Qed.

Lemma fexp_ge_emin (x : Z) : emin prec emax <= fexp prec emax x.
Proof. unfold fexp. lia. Qed.

(** What [shr_fexp] does to the mantissa and the exponent. *)
Lemma shr_fexp_spec (m e : Z) (l : location) :
  0 <= m ->
  let '(r, e') := shr_fexp prec emax m e l in
  0 <= shr_m r
  /\ (e <= fexp prec emax (Zdigits2 m + e) ->
      e' = fexp prec emax (Zdigits2 m + e)
      /\ (0 < shr_m r -> Zdigits2 (shr_m r) + e' = Zdigits2 m + e)
      /\ (shr_m r = 0 -> m = 0 \/ Zdigits2 m + e <= e'))
  /\ (fexp prec emax (Zdigits2 m + e) <= e -> shr_m r = m /\ e' = e).
Proof.
  intros Hm. unfold shr_fexp.
  set (n := fexp prec emax (Zdigits2 m + e) - e).
  assert (Hrec : shr_m (shr_record_of_loc m l) = m)
    by (destruct l as [|[]]; reflexivity).
  destruct n as [|p|p] eqn:En; cbn [shr].
  - rewrite Hrec. split; [lia|]. split.
    + intros _. split; [lia|]. split; [lia|]. intros ->. now left.
    + intros _. split; lia.
  - rewrite iter_pos_nat, shr_nat_m by lia. rewrite Hrec, positive_nat_Z.
    split; [now apply Z.shiftr_nonneg|]. split.
    + intros _. split; [lia|].
      destruct (Z.eq_dec m 0) as [->|Hm0].
      * rewrite Z.shiftr_0_l. split; [lia|]. intros _. now left.
      * assert (Hpos : 0 < m) by lia.
        pose proof (Z.log2_shiftr m (Zpos p) Hpos) as Hlog.
        pose proof (Z.shiftr_eq_0_iff m (Zpos p)) as Hz.
        rewrite (Zdigits2_log2 m Hpos). split.
        -- intros Hs. rewrite (Zdigits2_log2 _ Hs), Hlog.
           assert (~ Z.log2 m < Zpos p).
           { intros Hlt. assert (Z.shiftr m (Zpos p) = 0) by (apply Hz; right; lia). lia. }
           lia.
        -- intros Hs. right. apply Hz in Hs. destruct Hs as [Hs|[_ Hs]]; lia.
    + intros Hle. lia.
  - rewrite Hrec. split; [lia|]. split.
    + intros Hle. lia.
    + intros _. split; lia.
Qed.

Lemma round_nearest_even_cases (m : Z) (l : location) :
  round_nearest_even m l = m \/ round_nearest_even m l = m + 1.
Proof.
  destruct l as [|[]]; simpl; auto. destruct (Z.even m); auto.
Qed.

Lemma Zdigits2_mono (a b : Z) : 0 <= a <= b -> Zdigits2 a <= Zdigits2 b.
Proof.
  intros [Ha Hab]. destruct (Z.eq_dec a 0) as [->|Ha0].
  - destruct b; simpl; lia.
  - rewrite !Zdigits2_log2 by lia.
    pose proof (Z.log2_le_mono a b Hab). lia.
Qed.

Lemma Zdigits2_pos (a : Z) : 0 < a -> 0 < Zdigits2 a.
Proof. destruct a; simpl; lia. Qed.

(** The rounding step returns a member of the format. *)
Lemma binary_round_aux_valid (s : bool) (m e : Z) (l : location) :
  0 < m -> e <= fexp prec emax (Zdigits2 m + e) ->
  valid_binary prec emax (binary_round_aux prec emax s m e l) = true.
Proof.
  intros Hm He. unfold binary_round_aux.
  pose proof (shr_fexp_spec m e l ltac:(lia)) as H1.
  destruct (shr_fexp prec emax m e l) as [r1 e1].
  destruct H1 as (Hr1 & H1 & _). specialize (H1 He).
  remember (fexp prec emax (Zdigits2 m + e)) as F eqn:EF.
  destruct H1 as (He1 & Hd1 & Hz1). subst e1.
  set (m1' := round_nearest_even (shr_m r1) (loc_of_shr_record r1)).
  assert (Hm1' : m1' = shr_m r1 \/ m1' = shr_m r1 + 1)
    by apply round_nearest_even_cases.
  pose proof (shr_fexp_spec m1' F loc_Exact ltac:(lia)) as H2.
  destruct (shr_fexp prec emax m1' F loc_Exact) as [r2 e2].
  destruct H2 as (Hr2 & H2 & H2').
  destruct (shr_m r2) as [|p2|p2] eqn:E2; try lia; [reflexivity|].
  destruct (Z.leb e2 (emax - prec)) eqn:Hle; [|reflexivity].
  cbn [valid_binary]. unfold bounded, canonical_mantissa.
  rewrite Hle, andb_true_r. apply Z.eqb_eq.
  change (Zpos (digits2_pos p2)) with (Zdigits2 (Zpos p2)).
  assert (HF : (emin prec emax) <= F) by (rewrite EF; apply fexp_ge_emin).
  assert (Hm1pos : 0 < m1').
  { destruct (Z.eq_dec m1' 0) as [Hz|]; [|lia]. exfalso.
    destruct (Z_le_gt_dec (fexp prec emax (Zdigits2 m1' + F)) F) as [Hc|Hc].
    - destruct (H2' Hc) as [Hs _]. lia.
    - rewrite Hz in Hc. simpl in Hc. unfold fexp in Hc. lia. }
  assert (Hpre : F <= fexp prec emax (Zdigits2 m1' + F)).
  { destruct (Z.eq_dec (shr_m r1) 0) as [Hz|Hnz].
    - destruct (Hz1 Hz) as [?|Hall]; [lia|].
      assert (F = (emin prec emax)) by (rewrite EF in *; unfold fexp in *; lia).
      rewrite H at 1. apply fexp_ge_emin.
    - specialize (Hd1 ltac:(lia)).
      assert (Hdd : Zdigits2 (shr_m r1) <= Zdigits2 m1')
        by (apply Zdigits2_mono; lia).
      assert (HFF : F = fexp prec emax (Zdigits2 (shr_m r1) + F))
        by (rewrite Hd1; exact EF).
      rewrite HFF at 1. apply fexp_mono. lia. }
  destruct (H2 Hpre) as (He2 & Hd2 & _).
  rewrite Hd2 by lia. lia.
Qed.

Lemma digits_pos_iter (m k : positive) :
  Zpos (digits2_pos (Pos.iter xO m k)) = Zpos (digits2_pos m) + Zpos k.
Proof.
  rewrite Pos2Nat.inj_iter.
  rewrite <- (positive_nat_Z k). generalize (Pos.to_nat k). intros n.
  induction n as [|n IH]; [simpl; lia|].
  cbn [nat_rect digits2_pos]. rewrite Pos2Z.inj_succ, IH. lia.
Qed.

Lemma binary_round_is_valid (s : bool) (m : positive) (e : Z) :
  valid_binary prec emax (binary_round prec emax s m e) = true.
Proof.
  unfold binary_round, shl_align.
  destruct (fexp prec emax (Zpos (digits2_pos m) + e) - e) as [|p|p] eqn:En.
  - apply binary_round_aux_valid; [lia|]. simpl Zdigits2. lia.
  - apply binary_round_aux_valid; [lia|]. simpl Zdigits2. lia.
  - apply binary_round_aux_valid; [lia|]. cbn [Zdigits2].
    rewrite digits_pos_iter.
    replace (Zpos (digits2_pos m) + Zpos p + fexp prec emax (Zpos (digits2_pos m) + e))
      with (Zpos (digits2_pos m) + e) by lia.
    lia.
Qed.

End Round.

(** Conversion to a format yields a member of the format. *)
Lemma to_f32_is_f32 (x : F.float) : F.is_f32 (F.to_f32 x) = true.
Proof.
  destruct x as [s|s| |s m e]; try reflexivity.
  apply binary_round_is_valid. reflexivity.
Qed.

Lemma pos_iter_nat {A : Type} (f : A -> A) (p : positive) (x : A) :
  Pos.iter f x p = Nat.iter (Pos.to_nat p) f x.
Proof. apply Pos2Nat.inj_iter. Qed.

Lemma shr_nat_xO (n : nat) :
  forall m, Nat.iter n shr_1 (Build_shr_record (Zpos (Nat.iter n xO m)) false false)
       = Build_shr_record (Zpos m) false false.
Proof.
  induction n as [|n IH]; intros m; [reflexivity|].
  rewrite Nat.iter_succ_r. simpl Nat.iter at 2. cbn [shr_1 orb].
  apply IH.
Qed.

Lemma digits_nat_xO (n : nat) (m : positive) :
  Zpos (digits2_pos (Nat.iter n xO m)) = Zpos (digits2_pos m) + Z.of_nat n.
Proof.
  induction n as [|n IH]; [simpl; lia|].
  rewrite Nat.iter_succ. cbn [digits2_pos].
  rewrite Pos2Z.inj_succ, IH. lia.
Qed.

Lemma digits_shift (prec emax : Z) (m : positive) (e : Z) (k : positive) :
  Zpos (digits2_pos (Pos.iter xO m k)) + (e - Zpos k)
  = Zpos (digits2_pos m) + e.
Proof.
  rewrite pos_iter_nat, digits_nat_xO, positive_nat_Z. lia.
Qed.

Lemma binary_round_widen (prec emax : Z) (s : bool) (m : positive) (e : Z) (k : positive) :
  fexp prec emax (Zpos (digits2_pos m) + e) = e - Zpos k ->
  e - Zpos k <= emax - prec ->
  binary_round prec emax s m e = S754_finite s (Pos.iter xO m k) (e - Zpos k).
Proof.
  intros Hc He.
  unfold binary_round, shl_align. rewrite Hc.
  replace (e - Zpos k - e) with (Zneg k) by lia.
  unfold binary_round_aux, shr_fexp. cbn [Zdigits2 shr_record_of_loc].
  rewrite digits_shift by auto. rewrite Hc, Z.sub_diag.
  cbn [shr shr_m loc_of_shr_record round_nearest_even Zdigits2 shr_record_of_loc].
  rewrite digits_shift by auto. rewrite Hc, Z.sub_diag. cbn [shr shr_m].
  apply Z.leb_le in He. now rewrite He.
Qed.

Lemma binary_round_narrow (prec emax : Z) (s : bool) (m : positive) (e : Z) (k : positive) :
  bounded prec emax m e = true ->
  binary_round prec emax s (Pos.iter xO m k) (e - Zpos k) = S754_finite s m e.
Proof.
  unfold bounded, canonical_mantissa. intros H.
  apply andb_true_iff in H. destruct H as [Hc He]. apply Z.eqb_eq in Hc.
  unfold binary_round, shl_align. rewrite digits_shift by auto. rewrite Hc.
  replace (e - (e - Zpos k)) with (Zpos k) by lia.
  unfold binary_round_aux, shr_fexp. cbn [Zdigits2 shr_record_of_loc].
  rewrite digits_shift by auto. rewrite Hc.
  replace (e - (e - Zpos k)) with (Zpos k) by lia.
  cbn [shr]. rewrite iter_pos_nat, pos_iter_nat, shr_nat_xO.
  cbn [shr_m loc_of_shr_record round_nearest_even Zdigits2 shr_record_of_loc].
  replace (e - Zpos k + Zpos k) with e by lia.
  rewrite Hc, Z.sub_diag. cbn [shr shr_m]. now rewrite He.
Qed.

Lemma div_eucl_pow2 (m1 : positive) (s : Z) :
  s = 52 \/ s = 53 ->
  Z.div_eucl (Z.shiftl (Zpos m1) s) 4503599627370496
  = (Zpos m1 * 2 ^ (s - 52), 0).
Proof.
  intros Hs. rewrite Z.shiftl_mul_pow2 by lia.
  pose proof (Z_div_mod (Zpos m1 * 2 ^ s) 4503599627370496 eq_refl) as H.
  destruct (Z.div_eucl (Zpos m1 * 2 ^ s) 4503599627370496) as [q r].
  destruct H as [H1 H2].
  destruct Hs as [-> | ->]; simpl Z.sub; change (2 ^ 0) with 1; change (2 ^ 1) with 2;
    change (2 ^ 52) with 4503599627370496 in H1;
    change (2 ^ 53) with 9007199254740992 in H1;
    f_equal; lia.
Qed.

Lemma div64_one (s : bool) (m1 : positive) (e1 : Z) :
  bounded 53 1024 m1 e1 = true ->
  F.div64 (S754_finite s m1 e1) F.one64 = S754_finite s m1 e1.
Proof.
  unfold bounded, canonical_mantissa. intros H.
  apply andb_true_iff in H. destruct H as [Hc He]. apply Z.eqb_eq in Hc.
  pose proof Hc as Hc'. unfold fexp, emin in Hc'.
  unfold F.div64, F.prec64, F.emax64, F.one64, SFdiv, SFdiv_core_binary.
  cbn [Zdigits2 digits2_pos Pos.succ].
  set (D := Zpos (digits2_pos m1)) in *.
  destruct (Z.eq_dec e1 (-1074)) as [Hsub|Hnorm].
  - (* subnormal *)
    assert (Hm : Z.min (fexp 53 1024 (D + e1 - (53 + -52))) (e1 - -52) = e1)
      by (unfold fexp, emin; lia).
    rewrite Hm. replace (e1 - -52 - e1) with 52 by lia.
    rewrite (div_eucl_pow2 m1 52) by auto.
    change (2 ^ (52 - 52)) with 1. rewrite Z.mul_1_r.
    cbn [new_location Z.even new_location_even Z.eqb].
    unfold binary_round_aux, shr_fexp. cbn [Zdigits2 shr_record_of_loc].
    fold D. rewrite Hc, Z.sub_diag.
    cbn [shr shr_m loc_of_shr_record round_nearest_even Zdigits2 shr_record_of_loc].
    fold D. rewrite Hc, Z.sub_diag. cbn [shr shr_m].
    rewrite He. now destruct s.
  - assert (Hm : Z.min (fexp 53 1024 (D + e1 - (53 + -52))) (e1 - -52) = e1 - 1)
      by (unfold fexp, emin; lia).
    rewrite Hm. replace (e1 - -52 - (e1 - 1)) with 53 by lia.
    rewrite (div_eucl_pow2 m1 53) by auto.
    change (2 ^ (53 - 52)) with 2.
    replace (Zpos m1 * 2) with (Zpos m1~0) by lia.
    cbn [new_location Z.even new_location_even Z.eqb].
    unfold binary_round_aux, shr_fexp. cbn [Zdigits2 shr_record_of_loc digits2_pos].
    rewrite Pos2Z.inj_succ. fold D.
    assert (Hf : fexp 53 1024 (Z.succ D + (e1 - 1)) = e1)
      by (unfold fexp, emin; lia).
    rewrite Hf. replace (e1 - (e1 - 1)) with 1 by lia.
    cbn [shr iter_pos shr_1 orb shr_m loc_of_shr_record round_nearest_even
         Zdigits2 shr_record_of_loc].
    fold D. replace (e1 - 1 + 1) with e1 by lia.
    rewrite Hc, Z.sub_diag. cbn [shr shr_m].
    rewrite He. now destruct s.
Qed.

Lemma SFcompare_refl_finite (s : bool) (m : positive) (e : Z) :
  SFcompare (S754_finite s m e) (S754_finite s m e) = Some Eq.
Proof.
  simpl. rewrite Z.compare_refl.
  change (Pos.compare_cont Eq m m) with (Pos.compare m m).
  rewrite Pos.compare_refl. now destruct s.
Qed.

Lemma eqb_refl_finite (x : F.float) : F.isfinite x = true -> F.eqb x x = true.
Proof.
  destruct x as [s|s| |s m e]; try discriminate; intros _.
  - reflexivity.
  - unfold F.eqb, SFeqb. now rewrite SFcompare_refl_finite.
Qed.

(** A [float32] number is a [float64] number: the conversion pads the
    mantissa. *)
Lemma to_f64_of_f32 (s : bool) (m : positive) (e : Z) :
  bounded 24 128 m e = true ->
  exists k,
    F.to_f64 (S754_finite s m e) = S754_finite s (Pos.iter xO m k) (e - Zpos k)
    /\ bounded 53 1024 (Pos.iter xO m k) (e - Zpos k) = true.
Proof.
  intros H. pose proof H as H0. unfold bounded, canonical_mantissa in H.
  apply andb_true_iff in H. destruct H as [Hc He].
  apply Z.eqb_eq in Hc. apply Z.leb_le in He.
  set (D := Zpos (digits2_pos m)) in *.
  assert (HD : 0 < D) by (unfold D; lia).
  pose (k := e - fexp 53 1024 (D + e)).
  assert (Hk : 0 < k) by (unfold k, fexp, emin in *; lia).
  exists (Z.to_pos k).
  assert (Ek : Zpos (Z.to_pos k) = k) by (apply Z2Pos.id; lia).
  assert (Hf : fexp 53 1024 (D + e) = e - Zpos (Z.to_pos k))
    by (rewrite Ek; unfold k; lia).
  assert (Hle : e - Zpos (Z.to_pos k) <= 1024 - 53) by lia.
  split.
  - apply binary_round_widen; auto.
  - unfold bounded, canonical_mantissa.
    rewrite (digits_shift 53 1024). fold D. rewrite Hf, Z.eqb_refl.
    now apply Z.leb_le.
Qed.

Lemma f32_roundtrip (x : F.float) :
  F.is_f32 x = true -> F.to_f32 (F.to_f64 x) = x.
Proof.
  destruct x as [s|s| |s m e]; try reflexivity.
  intros H. destruct (to_f64_of_f32 s m e H) as (k & E & _).
  rewrite E. now apply binary_round_narrow.
Qed.

(** The mean of a single finite [float32] value is that value (and +0
    for either zero). *)
Lemma mean_single (x : F.float) :
  F.is_f32 x = true -> F.isfinite x = true ->
  F.eqb (Avg.mean_px (F.add64 (S754_zero false) (F.to_f64 x)) 1) x = true.
Proof.
  intros Hv Hf. unfold Avg.mean_px. cbn [N.ltb N.compare].
  change (F.f64_of_Z (Z.of_N 1)) with F.one64.
  destruct x as [s|s| |s m e]; try discriminate.
  - now destruct s.
  - destruct (to_f64_of_f32 s m e Hv) as (k & E & Hb).
    rewrite E. cbn [F.add64 SFadd].
    rewrite div64_one by exact Hb.
    unfold F.to_f32, F.astype, F.prec32, F.emax32.
    rewrite (binary_round_narrow 24 128 s m e k Hv).
    apply eqb_refl_finite. reflexivity.
Qed.

(** Comparison is antisymmetric. *)
Lemma SFcompare_antisym (x y : F.float) :
  SFcompare y x = option_map CompOpp (SFcompare x y).
Proof.
  destruct x as [sx|sx| |sx mx ex], y as [sy|sy| |sy my ey]; simpl;
    try reflexivity;
    try (now destruct sx); try (now destruct sy);
    try (now destruct sx, sy).
  destruct sx, sy; try reflexivity;
    rewrite (Z.compare_antisym ex ey);
    destruct (ex ?= ey) eqn:E; simpl; try reflexivity;
    fold (Pos.compare mx my); fold (Pos.compare my mx);
    rewrite (Pos.compare_antisym mx my); now rewrite ?CompOpp_involutive.
Qed.

(** Among numbers that are not NaN, [x < y] or [y <= x]. *)
Lemma ltb_false_leb (x y : F.float) :
  F.isnan x = false -> F.isnan y = false ->
  F.ltb x y = false -> F.leb y x = true.
Proof.
  unfold F.ltb, F.leb, SFltb, SFleb. intros Hx Hy.
  rewrite (SFcompare_antisym x y).
  destruct (SFcompare x y) as [[| |]|] eqn:E; simpl; try congruence.
  destruct x, y; simpl in *; congruence.
Qed.

Lemma leb_false_ltb (x y : F.float) :
  F.isnan x = false -> F.isnan y = false ->
  F.leb x y = false -> F.ltb y x = true.
Proof.
  unfold F.ltb, F.leb, SFltb, SFleb. intros Hx Hy.
  rewrite (SFcompare_antisym x y).
  destruct (SFcompare x y) as [[| |]|] eqn:E; simpl; try congruence.
  destruct x, y; simpl in *; congruence.
Qed.

End FloatFacts.

(** ** Element-wise operations on rasters *)

Module ListFacts.

Import Raster.

Lemma nth_error_map2 {A B C : Type} (f : A -> B -> C) (l : list A) :
  forall (m : list B) (i : nat),
    nth_error (map2 f l m) i
    = match nth_error l i, nth_error m i with
      | Some a, Some b => Some (f a b)
      | _, _ => None
      end.
Proof.
  induction l as [|a l IH]; intros [|b m] [|i]; simpl; auto;
    repeat match goal with
           | |- context [match nth_error ?l ?i with _ => _ end] =>
               destruct (nth_error l i)
           end; auto.
Qed.

Lemma nth_error_map3 {A B C D : Type} (f : A -> B -> C -> D) (l : list A) :
  forall (m : list B) (n : list C) (i : nat),
    nth_error (map3 f l m n) i
    = match nth_error l i, nth_error m i, nth_error n i with
      | Some a, Some b, Some c => Some (f a b c)
      | _, _, _ => None
      end.
Proof.
  induction l as [|a l IH]; intros [|b m] [|c n] [|i]; simpl; auto;
    repeat match goal with
           | |- context [match nth_error ?l ?i with _ => _ end] =>
               destruct (nth_error l i)
           end; auto.
Qed.

Lemma length_map2 {A B C : Type} (f : A -> B -> C) (l : list A) :
  forall m : list B,
    List.length (map2 f l m) = Nat.min (List.length l) (List.length m).
Proof.
  induction l as [|a l IH]; intros [|b m]; simpl; auto.
Qed.

Lemma length_map3 {A B C D : Type} (f : A -> B -> C -> D) (l : list A) :
  forall (m : list B) (n : list C),
    List.length (map3 f l m n)
    = Nat.min (List.length l) (Nat.min (List.length m) (List.length n)).
Proof.
  induction l as [|a l IH]; intros [|b m] [|c n]; simpl; auto.
Qed.

Lemma nth_error_map4 {A B C D E : Type} (f : A -> B -> C -> D -> E)
  (l : list A) :
  forall (m : list B) (n : list C) (o : list D) (i : nat),
    nth_error (Rbr.map4 f l m n o) i
    = match nth_error l i, nth_error m i, nth_error n i, nth_error o i with
      | Some a, Some b, Some c, Some d => Some (f a b c d)
      | _, _, _, _ => None
      end.
Proof.
  induction l as [|a l IH]; intros [|b m] [|c n] [|d o] [|i]; simpl; auto;
    repeat match goal with
           | |- context [match nth_error ?l ?i with _ => _ end] =>
               destruct (nth_error l i)
           end; auto.
Qed.

End ListFacts.

(** ** The masked reader *)

Module ReaderFacts.

Import Raster.

Lemma mask_of_nth (t : dtype) (nd : option F.float) (arr : list F.float)
  (i : nat) :
  nth_error (mask_of t nd arr) i
  = option_map (fun x => negb (F.isfinite x) || is_sentinel t nd x)
               (nth_error arr i).
Proof.
  unfold mask_of, is_sentinel.
  destruct nd as [nd|].
  - destruct (F.isnan nd); cbn [negb andb].
    + rewrite nth_error_map. destruct (nth_error arr i); simpl; auto.
      now rewrite orb_false_r.
    + rewrite ListFacts.nth_error_map2, !nth_error_map.
      now destruct (nth_error arr i).
  - rewrite nth_error_map. destruct (nth_error arr i); simpl; auto.
    now rewrite orb_false_r.
Qed.

Lemma mask_of_length (t : dtype) (nd : option F.float) (arr : list F.float) :
  List.length (mask_of t nd arr) = List.length arr.
Proof.
  unfold mask_of. destruct nd as [nd|]; [destruct (F.isnan nd)|];
    cbn [negb]; rewrite ?ListFacts.length_map2, ?length_map; auto.
  apply Nat.min_id.
Qed.

Lemma scalar_as_in_dtype (t : dtype) (nd : F.float) :
  in_dtype t nd = true -> scalar_as t nd = nd.
Proof.
  destruct t; simpl; auto. apply FloatFacts.to_f32_valid.
Qed.

Lemma read_in_range (d : Dataset) (b : nat) :
  (1 <= b <= count d)%nat -> exists arr, read d b = Some arr.
Proof.
  intros [H1 H2]. destruct b as [|i]; [lia|]. simpl.
  destruct (nth_error (bands d) i) eqn:E.
  - eexists; reflexivity.
  - apply nth_error_None in E. unfold count in H2. lia.
Qed.

Lemma mask_law_holds (t : dtype) (nd : option F.float) (x : F.float) :
  mask_law t nd x (negb (F.isfinite x) || is_sentinel t nd x).
Proof.
  unfold mask_law, is_sentinel. repeat split.
  - intros H. apply orb_true_iff in H. destruct H as [H|H].
    + left. now apply negb_true_iff.
    + right. destruct nd as [v|]; [|discriminate].
      apply andb_true_iff in H. destruct H as [H1 H2].
      exists v. repeat split; auto. now apply negb_true_iff.
  - intros [H|(v & -> & H1 & H2)].
    + now rewrite H.
    + rewrite H1, H2. simpl. apply orb_true_r.
  - intros v -> Hn. rewrite Hn. simpl. apply orb_false_r.
  - intros ->. apply orb_false_r.
Qed.

(** C6.  Both masked readers return a mask of the shape of the data
    whose bit at a pixel is set exactly when the value is not finite or
    equals the declared no-data value (taken in the dtype of the array,
    which changes nothing for a no-data value that the dtype holds); with
    a NaN no-data value, or none, exactly the non-finite values are
    masked.  A band index within [1, count] is read successfully. *)
Theorem masked_reader_mask (d : Dataset) (b : nat) :
  (forall ma,
      Avg.read_band_masked d b = Some ma ->
      read d b = Some (data ma)
      /\ List.length (mask ma) = List.length (data ma)
      /\ forall i x, nth_error (data ma) i = Some x ->
           exists k, nth_error (mask ma) i = Some k
                     /\ mask_law (dt d) (nodata d) x k)
  /\ (forall ma,
         Rbr.read_band_masked d b = Ok ma ->
         option_map (astype_f32 (dt d)) (read d b) = Some (data ma)
         /\ List.length (mask ma) = List.length (data ma)
         /\ forall i x, nth_error (data ma) i = Some x ->
              exists k, nth_error (mask ma) i = Some k
                        /\ mask_law float32 (nodata d) x k)
  /\ (forall t v, in_dtype t v = true -> scalar_as t v = v)
  /\ ((1 <= b <= count d)%nat ->
      (exists ma, Avg.read_band_masked d b = Some ma)
      /\ (exists ma, Rbr.read_band_masked d b = Ok ma)).
Proof.
  split; [|split; [|split]].
  - unfold Avg.read_band_masked. intros ma H.
    destruct (read d b) as [arr|]; [|discriminate].
    inversion H; subst; clear H. cbn [data mask].
    split; [reflexivity|]. split; [apply mask_of_length|].
    intros i x Hx. rewrite mask_of_nth, Hx. cbn [option_map].
    eexists; split; [reflexivity|]. apply mask_law_holds.
  - unfold Rbr.read_band_masked. intros ma H.
    destruct (read d b) as [arr|]; [|discriminate].
    inversion H; subst; clear H. cbn [data mask option_map].
    split; [reflexivity|]. split; [apply mask_of_length|].
    intros i x Hx. rewrite mask_of_nth, Hx. cbn [option_map].
    eexists; split; [reflexivity|]. apply mask_law_holds.
  - exact scalar_as_in_dtype.
  - intros Hb. destruct (read_in_range d b Hb) as [arr E].
    unfold Avg.read_band_masked, Rbr.read_band_masked. rewrite E.
    split; eexists; reflexivity.
Qed.

End ReaderFacts.

(** ** The display range of the previews *)

Module PreviewFacts.

Import Preview.

Lemma py_max_not_nan (a b : F.float) :
  F.isnan a = false -> F.isnan b = false -> F.isnan (py_max a b) = false.
Proof. unfold py_max. now destruct (F.ltb a b). Qed.

Lemma py_min_not_nan (a b : F.float) :
  F.isnan a = false -> F.isnan b = false -> F.isnan (py_min a b) = false.
Proof. unfold py_min. now destruct (F.ltb b a). Qed.

(** [max(vmin, -35.0)] is at least -35. *)
Lemma py_max_lower (lo : F.float) :
  F.isnan lo = false -> F.leb m35 (py_max lo m35) = true.
Proof.
  intros H. unfold py_max. destruct (F.ltb lo m35) eqn:E.
  - reflexivity.
  - now apply FloatFacts.ltb_false_leb.
Qed.

(** [min(vmax, 5.0)] is at most 5. *)
Lemma py_min_upper (hi : F.float) :
  F.isnan hi = false -> F.leb (py_min hi p5) p5 = true.
Proof.
  intros H. unfold py_min. destruct (F.ltb p5 hi) eqn:E.
  - reflexivity.
  - now apply FloatFacts.ltb_false_leb.
Qed.

(** C9, as the code has it.  With percentiles [lo], [hi] (no NaN) and no
    fixed range, the batch renderer takes [vmin = max(lo, -35)], which is
    at least -35, and [vmax = min(hi, 5)], which is at most 5, when that
    leaves [vmin < vmax]; otherwise it takes [vmax = vmin + 0.1], without
    a bound.  The single-file renderer takes the percentiles unclamped,
    with [vmax = vmin + 1e-6] when [vmin >= vmax].  Either renderer uses a
    fixed range as given, whatever the percentiles would be. *)
Theorem display_range_clamp (lo hi : F.float)
  (fixed : F.float * F.float) (pct : option (F.float * F.float)) :
  F.isnan lo = false -> F.isnan hi = false ->
  (exists vmin vmax,
      display_range_batch None (Some (lo, hi)) = Some (vmin, vmax)
      /\ vmin = py_max lo m35
      /\ F.leb m35 vmin = true
      /\ ((F.ltb vmin (py_min hi p5) = true
           /\ vmax = py_min hi p5 /\ F.leb vmax p5 = true)
          \/ (F.leb (py_min hi p5) vmin = true
              /\ vmax = F.add64 vmin tenth)))
  /\ display_range_single None (Some (lo, hi))
     = Some (lo, if F.leb hi lo then F.add64 lo millionth else hi)
  /\ display_range_batch (Some fixed) pct = Some fixed
  /\ display_range_single (Some fixed) pct = Some fixed.
Proof.
  intros Hlo Hhi. split; [|split; [|split]].
  - unfold display_range_batch.
    destruct (F.leb (py_min hi p5) (py_max lo m35)) eqn:E.
    + eexists _, _. split; [reflexivity|]. split; [reflexivity|].
      split; [now apply py_max_lower|]. right. now split.
    + eexists _, _. split; [reflexivity|]. split; [reflexivity|].
      split; [now apply py_max_lower|]. left.
      split; [|split; [reflexivity|now apply py_min_upper]].
      apply FloatFacts.leb_false_ltb; auto.
      * now apply py_min_not_nan.
      * now apply py_max_not_nan.
  - reflexivity.
  - now destruct fixed.
  - now destruct fixed.
Qed.

Lemma display_range_clamp_witness :
  F.isnan Samples.f64_m50 = false /\ F.isnan Samples.f64_20 = false
  /\ exists vmin vmax,
       display_range_batch None (Some (Samples.f64_m50, Samples.f64_20))
       = Some (vmin, vmax)
       /\ F.leb m35 vmin = true.
Proof.
  split; [reflexivity|]. split; [reflexivity|].
  destruct (display_range_clamp Samples.f64_m50 Samples.f64_20 (m35, p5) None
              eq_refl eq_refl) as [(vmin & vmax & H & _ & Hm & _) _].
  exists vmin, vmax. split; assumption.
Defined.

(** The percentiles 10 and 20 give the range from 10 to 10.1 in the batch
    renderer, above 5; the percentiles -50 and 20 stay as they are in the
    single-file renderer, outside [-35, 5] at both ends. *)
Lemma display_range_not_within_bounds :
  ~ (forall lo hi vmin vmax,
        F.isnan lo = false -> F.isnan hi = false ->
        display_range_batch None (Some (lo, hi)) = Some (vmin, vmax) ->
        F.leb m35 vmin = true /\ F.leb vmax p5 = true)
  /\ ~ (forall lo hi vmin vmax,
           F.isnan lo = false -> F.isnan hi = false ->
           display_range_single None (Some (lo, hi)) = Some (vmin, vmax) ->
           F.leb m35 vmin = true /\ F.leb vmax p5 = true).
Proof.
  split; intros H.
  - destruct (H Samples.f64_10 Samples.f64_20 _ _ eq_refl eq_refl eq_refl) as [_ H2].
    vm_compute in H2. discriminate.
  - destruct (H Samples.f64_m50 Samples.f64_20 _ _ eq_refl eq_refl eq_refl) as [H1 _].
    vm_compute in H1. discriminate.
Qed.

End PreviewFacts.

(** ** The averager: a pair without valid pixels *)

Module AvgSkip.

Import Raster.

Lemma amax_all_zero (l : list N) :
  l <> [] -> (forall c, In c l -> c = 0%N) -> Avg.amax l = Ok 0%N.
Proof.
  destruct l as [|c l]; [congruence|]. intros _ H. simpl.
  rewrite (H c) by now left.
  assert (Hl : forall c', In c' l -> c' = 0%N) by (intros; apply H; now right).
  clear H. f_equal. induction l as [|c' l IH]; simpl; auto.
  rewrite (Hl c') by now left. simpl. apply IH.
  intros; apply Hl; now right.
Qed.

Lemma finalize_one_all_zero (st : Avg.State) (g : group) (q : pol)
  (r : Grid) (a : Avg.Acc) :
  Avg.ref st = Some r -> Avg.groups st g q = Some a ->
  Avg.acc_cnt a <> [] -> (forall c, In c (Avg.acc_cnt a) -> c = 0%N) ->
  Avg.finalize_one st (g, q) = Ok [Avg.InfoNoData q g (Avg.out_name g q)].
Proof.
  intros Hr Hg Hne Hz. unfold Avg.finalize_one.
  now rewrite Hr, Hg, (amax_all_zero _ Hne Hz).
Qed.

End AvgSkip.

(** ** The burn-ratio tool *)

Module RbrFacts.

Import Raster Rbr.

(** [compute_rbr] works pixel by pixel. *)
Lemma compute_rbr_nth (before_lin after_lin : MaskedArray) (i : nat)
  (xb xa : F.float) (kb ka : bool) :
  nth_error (data before_lin) i = Some xb ->
  nth_error (mask before_lin) i = Some kb ->
  nth_error (data after_lin) i = Some xa ->
  nth_error (mask after_lin) i = Some ka ->
  nth_error (data (compute_rbr before_lin after_lin)) i
    = Some (fst (rbr_px xb xa kb ka))
  /\ nth_error (mask (compute_rbr before_lin after_lin)) i
     = Some (snd (rbr_px xb xa kb ka)).
Proof.
  intros Hxb Hkb Hxa Hka.
  assert (Hd : nth_error (data (compute_rbr before_lin after_lin)) i
               = Some (fst (rbr_px xb xa kb ka))).
  { unfold compute_rbr, ma_divide, ma_binop, ma_binop_scalar, filled.
    cbn [data mask].
    rewrite nth_error_map, ListFacts.nth_error_map4.
    rewrite !ListFacts.nth_error_map3, !ListFacts.nth_error_map2.
    rewrite !ListFacts.nth_error_map3, !ListFacts.nth_error_map2.
    rewrite Hxb, Hkb, Hxa, Hka. cbn [option_map].
    rewrite !orb_diag. reflexivity. }
  split; [exact Hd|].
  unfold compute_rbr in *. cbn [data mask] in *.
  rewrite ListFacts.nth_error_map2, nth_error_map, Hd.
  rewrite ListFacts.nth_error_map2, Hkb, Hka. reflexivity.
Qed.

Lemma rbr_for_ok (lib : WarpLib) (pw : PowLib) (db : bool) (fb fa : File)
  (p : pol) (b_idx a_idx : nat) :
  lookup p (find_pol_indices (ds fb) (name fb)) = Some b_idx ->
  lookup p (find_pol_indices (ds fa) (name fa)) = Some a_idx ->
  exists rbr, rbr_for lib pw db fb fa b_idx a_idx = Ok rbr.
Proof.
  intros Hb Ha.
  rewrite ResolverFacts.find_pol_indices_spec in Hb, Ha.
  apply ResolverFacts.resolve_spec_in_range in Hb, Ha.
  destruct (ReaderFacts.read_in_range _ _ Hb) as [arrb Eb].
  destruct (ReaderFacts.read_in_range _ _ Ha) as [arra Ea].
  unfold rbr_for, read_band_masked. rewrite Eb, Ea. cbn [bind].
  eexists; reflexivity.
Qed.

Lemma process_pol_present (lib : WarpLib) (pw : PowLib) (db : bool)
  (fb fa : File) (p : pol) :
  let pol_b := find_pol_indices (ds fb) (name fb) in
  let pol_a := find_pol_indices (ds fa) (name fa) in
  present_in_both pol_b pol_a p = true ->
  exists b_idx a_idx rbr,
    lookup p pol_b = Some b_idx /\ lookup p pol_a = Some a_idx
    /\ rbr_for lib pw db fb fa b_idx a_idx = Ok rbr
    /\ process_pol lib pw db fb fa pol_b pol_a p = Ok (written_for p fb rbr).
Proof.
  intros pol_b pol_a H. unfold present_in_both in H.
  unfold process_pol. fold pol_b pol_a.
  destruct (lookup p pol_b) as [b_idx|] eqn:Eb; [|discriminate].
  destruct (lookup p pol_a) as [a_idx|] eqn:Ea; [|discriminate].
  destruct (rbr_for_ok lib pw db fb fa p b_idx a_idx Eb Ea) as [rbr Er].
  exists b_idx, a_idx, rbr. rewrite Er. cbn [bind]. unfold written_for.
  repeat split; auto.
Qed.

Ltac in_tac :=
  match goal with
  | H : In ?e ?l |- In ?e ?l => exact H
  | |- In ?e (?l ++ ?m) =>
      apply in_or_app; first [left; in_tac | right; in_tac]
  | |- In ?e (?a :: ?l) => right; in_tac
  end.

(** [main] always ends with a result, and for a polarization of both
    inputs what it prints and writes holds the events of that
    polarization. *)
Lemma main_present (lib : WarpLib) (pw : PowLib) (db : bool)
  (fb fa : File) (p : pol) :
  let pol_b := find_pol_indices (ds fb) (name fb) in
  let pol_a := find_pol_indices (ds fa) (name fa) in
  present_in_both pol_b pol_a p = true ->
  exists evs b_idx a_idx rbr,
    main lib pw db fb fa = Ok evs
    /\ lookup p pol_b = Some b_idx /\ lookup p pol_a = Some a_idx
    /\ rbr_for lib pw db fb fa b_idx a_idx = Ok rbr
    /\ forall e, In e (written_for p fb rbr) -> In e evs.
Proof.
  intros pol_b pol_a H.
  destruct (process_pol_present lib pw db fb fa p H)
    as (b_idx & a_idx & rbr & Eb & Ea & Er & Ep).
  fold pol_b pol_a in Eb, Ea, Ep.
  unfold main. fold pol_b pol_a. cbn [filter].
  destruct (present_in_both pol_b pol_a VV) eqn:EVV;
    destruct (present_in_both pol_b pol_a VH) eqn:EVH;
    destruct p; try congruence; cbn [negb filter map process_pols].
  - destruct (process_pol_present lib pw db fb fa VH EVH)
      as (b2 & a2 & rbr2 & _ & _ & _ & Ep2).
    fold pol_b pol_a in Ep2. rewrite Ep, Ep2. cbn [bind].
    eexists _, b_idx, a_idx, rbr. repeat split; eauto.
    intros e He. cbn [map]. in_tac.
  - destruct (process_pol_present lib pw db fb fa VV EVV)
      as (b2 & a2 & rbr2 & _ & _ & _ & Ep2).
    fold pol_b pol_a in Ep2. rewrite Ep, Ep2. cbn [bind].
    eexists _, b_idx, a_idx, rbr. repeat split; eauto.
    intros e He. cbn [map]. in_tac.
  - rewrite Ep. cbn [bind].
    eexists _, b_idx, a_idx, rbr. repeat split; eauto.
    intros e He. cbn [map]. in_tac.
  - rewrite Ep. cbn [bind].
    eexists _, b_idx, a_idx, rbr. repeat split; eauto.
    intros e He. cbn [map]. in_tac.
Qed.

Lemma out_array_all_masked (rbr : MaskedArray) :
  (forall k, In k (mask rbr) -> k = true) ->
  forall x, In x (out_array rbr) -> x = NODATA_OUT.
Proof.
  unfold out_array. destruct rbr as [dat msk]. cbn [data mask].
  revert msk. induction dat as [|y dat IH]; intros [|k msk] H x Hx;
    simpl in Hx; try contradiction.
  destruct Hx as [Hx|Hx].
  - rewrite (H k) in Hx by now left. now subst.
  - apply (IH msk); auto. intros k' Hk'. apply H. now right.
Qed.

Lemma compressed_all_masked (rbr : MaskedArray) :
  (forall k, In k (mask rbr) -> k = true) -> compressed rbr = [].
Proof.
  unfold compressed. destruct rbr as [dat msk]. cbn [data mask].
  revert msk. induction dat as [|y dat IH]; intros [|k msk] H; simpl; auto.
  rewrite (H k) by now left. simpl. apply IH.
  intros k' Hk'. apply H. now right.
Qed.

(** C10.  For a polarization that both inputs have, [main] comes to an
    end and writes [RBR_<pol>.tiff] on the grid of BEFORE; when the burn
    ratio has no valid pixel, every pixel of the file is -9999.0 and the
    line for no valid pixels is printed.  The averager, for a pair whose
    counts are all zero, writes nothing and prints its diagnostic. *)
Theorem rbr_written_even_when_empty (lib : WarpLib) (pw : PowLib)
  (db : bool) (fb fa : File) (p : pol) :
  present_in_both (find_pol_indices (ds fb) (name fb))
                  (find_pol_indices (ds fa) (name fa)) p = true ->
  (exists evs b_idx a_idx rbr,
      main lib pw db fb fa = Ok evs
      /\ lookup p (find_pol_indices (ds fb) (name fb)) = Some b_idx
      /\ lookup p (find_pol_indices (ds fa) (name fa)) = Some a_idx
      /\ rbr_for lib pw db fb fa b_idx a_idx = Ok rbr
      /\ In (Wrote (out_name p) (grid (ds fb)) (out_array rbr)) evs
      /\ ((forall k, In k (mask rbr) -> k = true) ->
          (forall x, In x (out_array rbr) -> x = NODATA_OUT)
          /\ In (OkNoValid (out_name p)) evs))
  /\ (forall st g q r a,
         Avg.ref st = Some r -> Avg.groups st g q = Some a ->
         Avg.acc_cnt a <> [] ->
         (forall c, In c (Avg.acc_cnt a) -> c = 0%N) ->
         Avg.finalize_one st (g, q)
         = Ok [Avg.InfoNoData q g (Avg.out_name g q)]).
Proof.
  intros H. split; [|exact AvgSkip.finalize_one_all_zero].
  destruct (main_present lib pw db fb fa p H)
    as (evs & b_idx & a_idx & rbr & Em & Eb & Ea & Er & Hin).
  exists evs, b_idx, a_idx, rbr. repeat split; auto.
  - apply Hin. now left.
  - now apply out_array_all_masked.
  - apply Hin. unfold written_for.
    rewrite (compressed_all_masked rbr) by assumption.
    right. now left.
Qed.

Lemma rbr_written_even_when_empty_witness :
  present_in_both
    (find_pol_indices (ds (Samples.one_band "before_VV.tif" None [F.nan]))
                      "before_VV.tif")
    (find_pol_indices (ds (Samples.one_band "after_VV.tif" None [Samples.f32_1]))
                      "after_VV.tif") VV = true
  /\ exists evs,
       main Samples.no_warp Samples.no_pow false
            (Samples.one_band "before_VV.tif" None [F.nan])
            (Samples.one_band "after_VV.tif" None [Samples.f32_1]) = Ok evs
       /\ In (Wrote "RBR_VV.tiff" Samples.grid1 [NODATA_OUT]) evs.
Proof.
  split; [reflexivity|].
  destruct (rbr_written_even_when_empty Samples.no_warp Samples.no_pow false
              (Samples.one_band "before_VV.tif" None [F.nan])
              (Samples.one_band "after_VV.tif" None [Samples.f32_1]) VV
              eq_refl)
    as [(evs & b_idx & a_idx & rbr & Em & Eb & Ea & Er & Hin & _) _].
  exists evs. split; [exact Em|].
  vm_compute in Eb, Ea. inversion Eb; inversion Ea; subst.
  vm_compute in Er. inversion Er; subst. exact Hin.
Defined.

(** A pixel that is masked in either input is masked in the result, and
    written as -9999.0. *)
Lemma rbr_px_masked_input (xb xa : F.float) (kb ka : bool) :
  kb || ka = true -> snd (rbr_px xb xa kb ka) = true.
Proof. intros H. unfold rbr_px. cbn [snd]. now rewrite H. Qed.

(** A pixel valid in both inputs is valid in the result exactly when the
    data that [np.ma.divide] leaves there is finite: the quotient where
    it is finite and within the domain, the numerator elsewhere. *)
Lemma rbr_px_valid_inputs (xb xa : F.float) :
  let num := F.sub32 xa xb in
  let q := ratio xb xa in
  let m := negb (F.isfinite q)
           || domain_safe_divide num (F.add32 (F.add32 xa xb) EPS32) in
  let r := F.add32 (if m then F.zero else q) (F.mul32 (bool32 m) num) in
  rbr_px xb xa false false = (r, negb (F.isfinite r)).
Proof.
  unfold rbr_px, ma_divide_px, ratio. cbn [orb fst].
  now rewrite !orb_false_r.
Qed.

(** C4, at a pixel valid in both inputs where the ratio is not finite.
    With BEFORE = -2^126 and AFTER = 2^126 the ratio overflows to
    infinity; [np.ma.divide] masks the entry and puts the numerator 2^127
    back under it, so the test on the data of [r] finds a finite number:
    the pixel stays valid and the file holds 2^127 there, not -9999.0.
    With BEFORE = -EPS and AFTER = 0 the denominator is zero and the file
    holds the numerator EPS. *)
Theorem rbr_nonfinite_ratio_left_valid :
  F.isfinite (ratio Samples.f32_mbig Samples.f32_big) = false
  /\ compute_rbr (mkMA [Samples.f32_mbig] [false])
                 (mkMA [Samples.f32_big] [false])
     = mkMA [Samples.f32_big2] [false]
  /\ main Samples.no_warp Samples.no_pow false
          (Samples.one_band "before_VV.tif" None [Samples.f32_mbig])
          (Samples.one_band "after_VV.tif" None [Samples.f32_big])
     = Ok [InfoSkip VH;
           Wrote "RBR_VV.tiff" Samples.grid1 [Samples.f32_big2];
           OkStats "RBR_VV.tiff" [Samples.f32_big2];
           Done]
  /\ Samples.f32_big2 <> NODATA_OUT
  /\ F.isfinite (ratio (SFopp EPS32) F.zero) = false
  /\ compute_rbr (mkMA [SFopp EPS32] [false]) (mkMA [F.zero] [false])
     = mkMA [EPS32] [false].
Proof.
  repeat split; try (vm_compute; reflexivity).
  vm_compute. discriminate.
Qed.

End RbrFacts.

(** ** The averager: the loop over the files *)

Module AvgLoop.

Import Raster Avg.

(** A band that the resolver names passes the test of [main] and is
    read. *)
Lemma has_band_read (f : File) (p : pol) :
  has_band f p = true ->
  exists b band,
    find_vv_vh_indices (ds f) (name f) p = Some b
    /\ (Nat.eqb b 0 || Nat.ltb (count (ds f)) b) = false
    /\ read_band_masked (ds f) b = Some band.
Proof.
  unfold has_band. intros H.
  destruct (find_vv_vh_indices (ds f) (name f) p) as [b|]; [|discriminate].
  apply negb_true_iff in H.
  assert (Hb : 1 <= b <= count (ds f)).
  { apply orb_false_iff in H. destruct H as [H1 H2].
    apply Nat.eqb_neq in H1. apply Nat.ltb_ge in H2. lia. }
  destruct (ReaderFacts.read_in_range (ds f) b Hb) as [arr Er].
  exists b. eexists. split; [reflexivity|]. split; [exact H|].
  unfold read_band_masked. now rewrite Er.
Qed.

Lemma band_record_no_band (lib : WarpLib) (r : Grid) (f : File) (p : pol) :
  has_band f p = false ->
  band_record lib r f (find_vv_vh_indices (ds f) (name f) p) = None.
Proof.
  unfold has_band, band_record.
  destruct (find_vv_vh_indices (ds f) (name f) p) as [b|]; [|reflexivity].
  intros H. apply negb_false_iff in H. now rewrite H.
Qed.

(** On the reference grid the record of a band is the band, filled and
    converted. *)
Lemma band_record_on_ref (lib : WarpLib) (r : Grid) (f : File) (p : pol) :
  has_band f p = true -> same_grid (ds f) r = true ->
  exists b band,
    find_vv_vh_indices (ds f) (name f) p = Some b
    /\ read_band_masked (ds f) b = Some band
    /\ band_record lib r f (find_vv_vh_indices (ds f) (name f) p)
       = Some (on_grid (dt (ds f)) band).
Proof.
  intros Hb Hg. destruct (has_band_read f p Hb) as (b & band & E & Hr & Er).
  exists b, band. split; [exact E|]. split; [exact Er|].
  rewrite E. unfold band_record, aligned, align. now rewrite Hr, Er, Hg.
Qed.

(** The body of the loop over the polarizations: a band off the
    reference grid raises; any other is accumulated, and a polarization
    without band leaves the state as it is. *)
Lemma process_pol_eq (lib : WarpLib) (f : File) (which : group) (r : Grid)
  (st : State) (p : pol) :
  process_pol lib f which r (find_vv_vh_indices (ds f) (name f)) st p
  = if has_band f p && negb (same_grid (ds f) r)
    then Raise (AttributeError "'Profile' object has no attribute 'transform'")
    else
      Ok (match band_record lib r f
                  (find_vv_vh_indices (ds f) (name f) p) with
          | None => st
          | Some dv =>
              mkState (ref st)
                (upd (groups st) which p
                     (add_record r (groups st which p) dv))
                (upd (total_used st) which p (S (total_used st which p)))
                (log st)
          end).
Proof.
  destruct (has_band f p) eqn:Hb; cbn [andb].
  - destruct (has_band_read f p Hb) as (b & band & E & Hr & Er).
    unfold process_pol, band_record, aligned, align. rewrite E, Hr, Er.
    destruct (same_grid (ds f) r); cbn [negb bind]; [|reflexivity].
    unfold add_record. now destruct (on_grid (dt (ds f)) band).
  - rewrite (band_record_no_band lib r f p Hb).
    unfold process_pol, has_band in *.
    destruct (find_vv_vh_indices (ds f) (name f) p) as [b|]; [|reflexivity].
    apply negb_false_iff in Hb. now rewrite Hb.
Qed.

(** The state that the loop body leaves, for a file with a date. *)
Lemma process_dated (lib : WarpLib) (st st' : State) (f : File)
  (acq : Date.date) :
  extract_date_from_name (name f) = Ok (Some acq) ->
  process_file lib st f = Ok st' ->
  let r := match ref st with None => grid (ds f) | Some r => r end in
  ref st' = Some r /\ log st' = log st
  /\ forall g q,
       groups st' g q
       = fold_left (add_record r) (records lib r g q [f]) (groups st g q)
       /\ total_used st' g q
          = total_used st g q + List.length (records lib r g q [f]).
Proof.
  intros E H r. unfold process_file in H. rewrite E in H.
  cbn [bind fold_result] in H. fold r in H.
  rewrite process_pol_eq in H.
  destruct (has_band f VV && negb (same_grid (ds f) r)); cbn [bind] in H;
    [discriminate|].
  rewrite process_pol_eq in H.
  destruct (has_band f VH && negb (same_grid (ds f) r)); cbn [bind] in H;
    [discriminate|].
  inversion H; subst st'; clear H.
  assert (Hrec : forall g q,
             records lib r g q [f]
             = match band_record lib r f
                       (find_vv_vh_indices (ds f) (name f) q) with
               | Some dv => if group_eqb (group_of acq) g then [dv] else []
               | None => []
               end).
  { intros g q. unfold records. cbn [flat_map]. unfold contribution.
    rewrite E.
    destruct (band_record lib r f (find_vv_vh_indices (ds f) (name f) q));
      cbn [option_map]; [|reflexivity].
    now rewrite app_nil_r. }
  destruct (band_record lib r f (find_vv_vh_indices (ds f) (name f) VV))
    as [dv1|] eqn:E1;
    destruct (band_record lib r f (find_vv_vh_indices (ds f) (name f) VH))
      as [dv2|] eqn:E2;
    cbn [ref log groups total_used];
    (split; [reflexivity|]; split; [reflexivity|]);
    intros g q; rewrite Hrec; unfold upd;
    destruct (group_of acq), g, q; rewrite ?E1, ?E2;
    cbn [group_eqb pol_eqb andb app fold_left List.length];
    split; try reflexivity; lia.
Qed.

(** The loop body comes to an end exactly when the name makes no date
    raise and, if the file contributes, it lies on the reference grid. *)
Lemma process_file_returns (lib : WarpLib) (st : State) (f : File) :
  (exists st', process_file lib st f = Ok st')
  <-> (exists o, extract_date_from_name (name f) = Ok o)
      /\ (contributes f = true ->
          same_grid (ds f)
            (match ref st with None => grid (ds f) | Some r => r end) = true).
Proof.
  unfold process_file, contributes, has_date.
  destruct (extract_date_from_name (name f)) as [[acq|]|e]; cbn [bind andb].
  - cbv zeta. cbn [fold_result].
    set (r := match ref st with None => grid (ds f) | Some r => r end).
    rewrite process_pol_eq.
    destruct (has_band f VV) eqn:H1, (has_band f VH) eqn:H2,
      (same_grid (ds f) r) eqn:Hg;
      cbn [andb negb orb bind];
      try rewrite process_pol_eq; rewrite ?H1, ?H2, ?Hg;
      cbn [andb negb orb bind];
      (split;
       [intros [st' H];
        first [discriminate
              |split; [now eexists|first [reflexivity|discriminate]]]
       |intros [_ H];
        first [specialize (H eq_refl); discriminate|now eexists]]).
  - split.
    + intros _. split; [now eexists|discriminate].
    + intros _. now eexists.
  - split; [intros [st' H]; discriminate|].
    intros [[o H] _]. discriminate.
Qed.

Lemma process_undated (lib : WarpLib) (st : State) (f : File) :
  extract_date_from_name (name f) = Ok None ->
  process_file lib st f
  = Ok (mkState (ref st) (groups st) (total_used st)
                (log st ++ [WarnNoDate (name f)])).
Proof. intros E. unfold process_file. now rewrite E. Qed.

Lemma records_cons (lib : WarpLib) (r : Grid) (g : group) (q : pol)
  (f : File) (files : list File) :
  records lib r g q (f :: files)
  = records lib r g q [f] ++ records lib r g q files.
Proof. unfold records. cbn [flat_map]. now rewrite app_nil_r. Qed.

Lemma records_undated (lib : WarpLib) (r : Grid) (g : group) (q : pol)
  (f : File) :
  extract_date_from_name (name f) = Ok None -> records lib r g q [f] = [].
Proof.
  intros E. unfold records. cbn [flat_map]. unfold contribution.
  now rewrite E.
Qed.

(** The loop, from a state that has its reference grid. *)
Lemma process_files_from_ref (lib : WarpLib) (r : Grid) (files : list File) :
  forall st st',
    ref st = Some r ->
    process_files lib st files = Ok st' ->
    ref st' = Some r
    /\ forall g q,
         groups st' g q
         = fold_left (add_record r) (records lib r g q files) (groups st g q)
         /\ total_used st' g q
            = total_used st g q + List.length (records lib r g q files).
Proof.
  induction files as [|f files IH]; intros st st' Hr H;
    cbn [process_files] in H.
  - inversion H; subst. split; [assumption|]. intros g q. simpl.
    split; [reflexivity|lia].
  - destruct (process_file lib st f) as [st1|e1] eqn:E1; [|discriminate].
    cbn [bind] in H.
    destruct (extract_date_from_name (name f)) as [[acq|]|e] eqn:E.
    + destruct (@process_dated lib st st1 f _ E E1) as (Hr1 & _ & H1).
      rewrite Hr in Hr1, H1.
      destruct (IH st1 st' Hr1 H) as [Hr' H'].
      split; auto. intros g q.
      destruct (H' g q) as [Hg Ht], (H1 g q) as [Hg1 Ht1].
      rewrite records_cons, fold_left_app, length_app, <- Hg1, Hg, Ht, Ht1.
      split; auto. lia.
    + rewrite (process_undated lib st f E) in E1.
      inversion E1; subst st1; clear E1.
      apply IH in H; [|exact Hr]. destruct H as [Hr' H'].
      split; auto. intros g q. destruct (H' g q) as [Hg Ht].
      rewrite records_cons, (records_undated lib r g q f E). exact (H' g q).
    + unfold process_file in E1. rewrite E in E1. discriminate.
Qed.

(** The loop, from the start. *)
Lemma process_files_init (lib : WarpLib) (files : list File) :
  forall st st',
    ref st = None ->
    process_files lib st files = Ok st' ->
    ref st' = ref_of files
    /\ (forall r g q,
           ref_of files = Some r ->
           groups st' g q
           = fold_left (add_record r) (records lib r g q files) (groups st g q)
           /\ total_used st' g q
              = total_used st g q + List.length (records lib r g q files))
    /\ (ref_of files = None ->
        forall g q, groups st' g q = groups st g q
                    /\ total_used st' g q = total_used st g q).
Proof.
  induction files as [|f files IH]; intros st st' Hr H;
    cbn [process_files] in H.
  - inversion H; subst. simpl. split; [assumption|].
    split; [discriminate|]. intros _ g q. now split.
  - cbn [ref_of].
    destruct (process_file lib st f) as [st1|e1] eqn:E1; [|discriminate].
    cbn [bind] in H.
    destruct (extract_date_from_name (name f)) as [[acq|]|e] eqn:E.
    + destruct (@process_dated lib st st1 f _ E E1) as (Hr1 & _ & H1).
      rewrite Hr in Hr1, H1.
      destruct (process_files_from_ref lib _ files st1 st' Hr1 H) as [Hr' H'].
      split; auto. split; [|discriminate].
      intros r g q Er. inversion Er; subst r.
      destruct (H' g q) as [Hg Ht], (H1 g q) as [Hg1 Ht1].
      rewrite records_cons, fold_left_app, length_app, <- Hg1, Hg, Ht, Ht1.
      split; auto. lia.
    + rewrite (process_undated lib st f E) in E1.
      inversion E1; subst st1; clear E1.
      apply IH in H; [|exact Hr]. destruct H as (Hr' & H1 & H2).
      split; auto. split.
      * intros r g q Er.
        rewrite records_cons, (records_undated lib r g q f E).
        exact (H1 r g q Er).
      * exact H2.
    + unfold process_file in E1. rewrite E in E1. discriminate.
Qed.

Lemma names_ok_cons (f : File) (files : list File) :
  names_ok (f :: files) = true
  <-> (exists o, extract_date_from_name (name f) = Ok o)
      /\ names_ok files = true.
Proof.
  unfold names_ok. cbn [forallb]. rewrite andb_true_iff.
  destruct (extract_date_from_name (name f)) as [o|e]; split.
  - intros [_ H]. split; [now eexists|exact H].
  - intros [_ H]. now split.
  - intros [H _]. discriminate.
  - intros [[o H] _]. discriminate.
Qed.

(** From a state that has its reference grid, the loop comes to an end
    exactly when no name makes the date constructor raise and every
    contributing file lies on that grid. *)
Lemma process_files_returns_from_ref (lib : WarpLib) (r : Grid)
  (files : list File) :
  forall st,
    ref st = Some r ->
    (exists st', process_files lib st files = Ok st')
    <-> names_ok files = true
        /\ forallb (fun f => negb (contributes f) || same_grid (ds f) r)
                   files = true.
Proof.
  induction files as [|f files IH]; intros st Hr; cbn [process_files].
  - split; [now split|]. intros _. now eexists.
  - rewrite names_ok_cons. cbn [forallb]. rewrite andb_true_iff.
    pose proof (process_file_returns lib st f) as Hf. rewrite Hr in Hf.
    split.
    + intros [st' H].
      destruct (process_file lib st f) as [st1|e1] eqn:E1; [|discriminate].
      cbn [bind] in H.
      destruct (proj1 Hf (ex_intro _ st1 eq_refl)) as [Hn Hg].
      assert (Hr1 : ref st1 = Some r).
      { destruct Hn as [[acq|] Hn].
        - destruct (@process_dated lib st st1 f _ Hn E1) as (Hr1 & _).
          now rewrite Hr in Hr1.
        - rewrite (process_undated lib st f Hn) in E1.
          inversion E1; subst. exact Hr. }
      destruct (proj1 (IH st1 Hr1) (ex_intro _ st' H)) as [Hn' Hg'].
      repeat split; auto.
      destruct (contributes f); [|reflexivity]. now rewrite Hg.
    + intros [[Hn Hn'] [Hg Hg']].
      destruct (proj2 Hf) as [st1 E1].
      { split; [exact Hn|]. intros Hc. now rewrite Hc in Hg. }
      rewrite E1. cbn [bind].
      assert (Hr1 : ref st1 = Some r).
      { destruct Hn as [[acq|] Hn].
        - destruct (@process_dated lib st st1 f _ Hn E1) as (Hr1 & _).
          now rewrite Hr in Hr1.
        - rewrite (process_undated lib st f Hn) in E1.
          inversion E1; subst. exact Hr. }
      apply (IH st1 Hr1). now split.
Qed.

(** The loop of [main] comes to an end exactly when no name makes the
    date constructor raise and every contributing file lies on the grid
    of the first file that has a date. *)
Lemma process_files_returns (lib : WarpLib) (files : list File) :
  forall st,
    ref st = None ->
    (exists st', process_files lib st files = Ok st')
    <-> names_ok files = true /\ on_ref_grid files = true.
Proof.
  unfold on_ref_grid.
  induction files as [|f files IH]; intros st Hr; cbn [process_files].
  - split; [now split|]. intros _. now eexists.
  - rewrite names_ok_cons. cbn [ref_of].
    pose proof (process_file_returns lib st f) as Hf. rewrite Hr in Hf.
    destruct (extract_date_from_name (name f)) as [[acq|]|e] eqn:E.
    + cbn [forallb]. rewrite andb_true_iff. split.
      * intros [st' H].
        destruct (process_file lib st f) as [st1|e1] eqn:E1; [|discriminate].
        cbn [bind] in H.
        destruct (proj1 Hf (ex_intro _ st1 eq_refl)) as [Hn Hg].
        destruct (@process_dated lib st st1 f _ E E1) as (Hr1 & _).
        rewrite Hr in Hr1.
        destruct (proj1 (@process_files_returns_from_ref lib _ files st1 Hr1)
                    (ex_intro _ st' H)) as [Hn' Hg'].
        repeat split; auto.
        destruct (contributes f); [|reflexivity]. now rewrite Hg.
      * intros [[Hn Hn'] [Hg Hg']].
        destruct (proj2 Hf) as [st1 E1].
        { split; [exact Hn|]. intros Hc. now rewrite Hc in Hg. }
        rewrite E1. cbn [bind].
        destruct (@process_dated lib st st1 f _ E E1) as (Hr1 & _).
        rewrite Hr in Hr1.
        apply (@process_files_returns_from_ref lib _ files st1 Hr1). now split.
    + rewrite (process_undated lib st f E). cbn [bind].
      rewrite (IH (mkState (ref st) (groups st) (total_used st)
                           (log st ++ [WarnNoDate (name f)])) Hr).
      assert (Hc : contributes f = false)
        by (unfold contributes, has_date; now rewrite E).
      destruct (ref_of files) as [r|]; cbn [forallb]; rewrite ?Hc;
        cbn [negb orb andb];
        (split;
         [intros [Hn Hg]; split; [split; [now eexists|exact Hn]|exact Hg]
         |intros [[_ Hn] Hg]; now split]).
    + split; [|intros [[[o H] _] _]; discriminate].
      intros [st' H]. unfold process_file in H. rewrite E in H. discriminate.
Qed.




(** On files that pass [same_grid] against one another every
    contributing file lies on the reference grid. *)
Lemma one_grid_on_ref (files : list File) :
  (forall f f', In f files -> In f' files ->
                same_grid (ds f) (grid (ds f')) = true) ->
  on_ref_grid files = true.
Proof.
  intros H. unfold on_ref_grid.
  destruct (ref_of files) as [r|] eqn:Er; [|reflexivity].
  assert (Hin : exists f0, In f0 files /\ r = grid (ds f0)).
  { clear H. revert Er. induction files as [|f files IH]; simpl;
      [discriminate|].
    destruct (extract_date_from_name (name f)) as [[acq|]|e]; intros H.
    - inversion H; subst. exists f. split; auto.
    - destruct (IH H) as (f' & Hf & E). exists f'. split; auto.
    - destruct (IH H) as (f' & Hf & E). exists f'. split; auto. }
  destruct Hin as (f0 & H0 & ->).
  apply forallb_forall. intros f Hf. rewrite (H f f0 Hf H0).
  apply orb_true_r.
Qed.

(** The loop comes to an end when no file name makes the date
    constructor raise and the files lie on one grid. *)
Lemma process_files_total (lib : WarpLib) (files : list File) :
  names_ok files = true ->
  (forall f f', In f files -> In f' files ->
                same_grid (ds f) (grid (ds f')) = true) ->
  exists st', process_files lib init files = Ok st'.
Proof.
  intros Hn Hg. apply (process_files_returns lib files init eq_refl).
  split; [exact Hn|]. now apply one_grid_on_ref.
Qed.

End AvgLoop.

(** ** The averager: alignment to the reference grid *)

Module AlignFacts.

Import Raster Avg.

Lemma astype_f32_nth (t : dtype) (l : list F.float) (i : nat) :
  nth_error (astype_f32 t l) i = option_map (cast_f32 t) (nth_error l i).
Proof.
  destruct t; simpl.
  - now destruct (nth_error l i).
  - apply nth_error_map.
Qed.

(** On the reference grid the align step is the same-grid branch, and
    does not raise. *)
Lemma align_same_grid (lib : WarpLib) (d : Dataset) (r : Grid)
  (band : MaskedArray) :
  same_grid d r = true -> align lib d r band = Ok (on_grid (dt d) band).
Proof. intros Hg. unfold align. now rewrite Hg. Qed.

(** Off the reference grid it raises. *)
Lemma align_off_grid (lib : WarpLib) (d : Dataset) (r : Grid)
  (band : MaskedArray) :
  same_grid d r = false ->
  align lib d r band
  = Raise (AttributeError "'Profile' object has no attribute 'transform'").
Proof. intros Hg. unfold align. now rewrite Hg. Qed.

(** On the reference grid the band is taken pixel by pixel: a masked
    pixel becomes NaN and invalid, any other is converted to [float32]
    and is valid if the result is finite. *)
Lemma on_grid_nth (t : dtype) (band : MaskedArray) (i : nat) (x : F.float)
  (k : bool) :
  nth_error (data band) i = Some x ->
  nth_error (mask band) i = Some k ->
  nth_error (fst (on_grid t band)) i
    = Some (if k then F.nan else cast_f32 t x)
  /\ nth_error (snd (on_grid t band)) i
     = Some (negb k && F.isfinite (cast_f32 t x)).
Proof.
  intros Hx Hk. unfold on_grid. cbn [fst snd].
  assert (Hd : nth_error (astype_f32 t (filled F.nan band)) i
               = Some (if k then F.nan else cast_f32 t x)).
  { rewrite astype_f32_nth. unfold filled.
    rewrite ListFacts.nth_error_map2, Hx, Hk. cbn [option_map].
    destruct k; [|reflexivity]. now destruct t. }
  split; [exact Hd|].
  rewrite ListFacts.nth_error_map2, !nth_error_map, Hk, Hd. cbn [option_map].
  now destruct k.
Qed.

Lemma astype_f32_length (t : dtype) (l : list F.float) :
  List.length (astype_f32 t l) = List.length l.
Proof. destruct t; simpl; auto. apply length_map. Qed.

Lemma on_grid_length (t : dtype) (band : MaskedArray) :
  List.length (mask band) = List.length (data band) ->
  List.length (fst (on_grid t band)) = List.length (data band)
  /\ List.length (snd (on_grid t band)) = List.length (data band).
Proof.
  intros Hl. unfold on_grid. cbn [fst snd]. unfold filled.
  rewrite ListFacts.length_map2, !length_map, astype_f32_length,
    ListFacts.length_map2, !Hl.
  lia.
Qed.

(** The mask of a band that the reader returns. *)
Lemma read_band_masked_mask (d : Dataset) (b : nat) (band : MaskedArray) :
  read_band_masked d b = Some band ->
  List.length (mask band) = List.length (data band)
  /\ forall i x,
       nth_error (data band) i = Some x ->
       nth_error (mask band) i
       = Some (negb (F.isfinite x) || is_sentinel (dt d) (nodata d) x).
Proof.
  intros Hb. unfold read_band_masked in Hb.
  destruct (read d b) as [arr|]; [|discriminate].
  inversion Hb; subst band; clear Hb. cbn [data mask]. split.
  - apply ReaderFacts.mask_of_length.
  - intros i x Ex. now rewrite ReaderFacts.mask_of_nth, Ex.
Qed.

(** C7, as the code has it.  For a band that the masked reader returns,
    on a grid that [same_grid] accepts as the reference grid, the align
    step does not raise and resamples nothing.  The shape is kept; a
    masked pixel is handed on as NaN, and invalid; an unmasked pixel is
    handed on converted to [float32], and is valid exactly when the
    converted value is finite.  For a [float32] raster the conversion is
    the identity: every unmasked pixel keeps its value and the validity
    is the complement of the mask. *)
Theorem align_same_grid_keeps_valid_pixels (lib : WarpLib) (d : Dataset)
  (r : Grid) (b : nat) (band : MaskedArray) :
  same_grid d r = true ->
  read_band_masked d b = Some band ->
  exists out valid,
    align lib d r band = Ok (out, valid)
    /\ List.length out = List.length (data band)
    /\ List.length valid = List.length (data band)
    /\ (forall i x k,
           nth_error (data band) i = Some x ->
           nth_error (mask band) i = Some k ->
           nth_error out i = Some (if k then F.nan else cast_f32 (dt d) x)
           /\ nth_error valid i
              = Some (negb k && F.isfinite (cast_f32 (dt d) x)))
    /\ (dt d = float32 ->
        valid = map negb (mask band)
        /\ forall i x k,
             nth_error (data band) i = Some x ->
             nth_error (mask band) i = Some k ->
             nth_error out i = Some (if k then F.nan else x))
    /\ (forall lib', align lib' d r band = align lib d r band).
Proof.
  intros Hg Hb.
  destruct (read_band_masked_mask d b band Hb) as [Hl Hm].
  destruct (on_grid_length (dt d) band Hl) as [Hl1 Hl2].
  exists (fst (on_grid (dt d) band)), (snd (on_grid (dt d) band)).
  split; [rewrite (align_same_grid lib d r band Hg);
          now destruct (on_grid (dt d) band)|].
  split; [exact Hl1|]. split; [exact Hl2|]. split; [|split].
  - intros i x k Ex Ek. exact (on_grid_nth (dt d) band i x k Ex Ek).
  - intros Ht. split.
    + apply nth_error_ext. intros i.
      destruct (nth_error (data band) i) as [x|] eqn:Ex.
      * pose proof (Hm i x Ex) as Hk.
        destruct (on_grid_nth (dt d) band i x _ Ex Hk) as [_ Hv].
        rewrite Hv, nth_error_map, Hk, Ht. cbn [option_map cast_f32].
        f_equal. destruct (F.isfinite x); simpl; auto.
        now rewrite andb_true_r.
      * apply nth_error_None in Ex.
        assert (E1 : nth_error (snd (on_grid (dt d) band)) i = None)
          by (apply nth_error_None; lia).
        assert (E2 : nth_error (map negb (mask band)) i = None)
          by (apply nth_error_None; rewrite length_map; lia).
        now rewrite E1, E2.
    + intros i x k Ex Ek.
      destruct (on_grid_nth (dt d) band i x k Ex Ek) as [Hd _].
      now rewrite Hd, Ht.
  - intros lib'. now rewrite !align_same_grid.
Qed.

Lemma align_same_grid_keeps_valid_pixels_witness :
  same_grid (ds Samples.file_f64) Samples.grid2 = true
  /\ read_band_masked (ds Samples.file_f64) 1
     = Some (mkMA [Samples.f64_tenth; Samples.f64_huge] [false; false])
  /\ exists out valid,
       align Samples.no_warp (ds Samples.file_f64) Samples.grid2
         (mkMA [Samples.f64_tenth; Samples.f64_huge] [false; false])
       = Ok (out, valid)
       /\ List.length out = 2.
Proof.
  split; [reflexivity|]. split; [reflexivity|].
  destruct (align_same_grid_keeps_valid_pixels Samples.no_warp
              (ds Samples.file_f64) Samples.grid2 1
              (mkMA [Samples.f64_tenth; Samples.f64_huge] [false; false])
              eq_refl eq_refl)
    as (out & valid & H & Hl & _).
  exists out, valid. split; [exact H|exact Hl].
Defined.

(** The align step is not the identity on a grid equal to the reference
    grid.  A pixel that holds the declared no-data value -9999.0 is
    masked by the reader and handed on as NaN.  In a [float64] raster the
    unmasked pixel 0.1 is handed on as the [float32] number nearest to
    it, and the unmasked pixel 2^200 as infinity, which is invalid. *)
Lemma align_same_grid_changes_masked_values :
  ~ (forall lib d r b band,
        same_grid d r = true ->
        read_band_masked d b = Some band ->
        align lib d r band = Ok (data band, map negb (mask band)))
  /\ read_band_masked
       (ds (Samples.one_band "a_20230101_VV.tif" (Some Samples.f64_m9999)
              [Samples.f32_m9999])) 1
     = Some (mkMA [Samples.f32_m9999] [true])
  /\ align Samples.no_warp
       (ds (Samples.one_band "a_20230101_VV.tif" (Some Samples.f64_m9999)
              [Samples.f32_m9999]))
       Samples.grid1 (mkMA [Samples.f32_m9999] [true])
     = Ok ([F.nan], [false])
  /\ read_band_masked (ds Samples.file_f64) 1
     = Some (mkMA [Samples.f64_tenth; Samples.f64_huge] [false; false])
  /\ align Samples.no_warp (ds Samples.file_f64) Samples.grid2
       (mkMA [Samples.f64_tenth; Samples.f64_huge] [false; false])
     = Ok ([Samples.f32_tenth; S754_infinity false], [true; false])
  /\ F.eqb Samples.f32_tenth Samples.f64_tenth = false.
Proof.
  split; [|repeat split; vm_compute; reflexivity].
  intros H.
  specialize (H Samples.no_warp
                (ds (Samples.one_band "a_20230101_VV.tif"
                       (Some Samples.f64_m9999) [Samples.f32_m9999]))
                Samples.grid1 1 (mkMA [Samples.f32_m9999] [true])
                eq_refl eq_refl).
  vm_compute in H. discriminate.
Qed.

End AlignFacts.

(** ** The averager: shapes of the records and of the accumulators *)

Module AvgShapes.

Import Raster Avg.

Lemma grid_eqb_npix (g r : Grid) : grid_eqb g r = true -> npix g = npix r.
Proof.
  unfold grid_eqb, npix. intros H.
  apply andb_true_iff in H. destruct H as [H Hh].
  apply andb_true_iff in H. destruct H as [_ Hw].
  apply Nat.eqb_eq in Hh, Hw. congruence.
Qed.

Lemma wf_file_band (f : File) (b : nat) (arr : list F.float) :
  wf_file f = true -> read (ds f) b = Some arr ->
  List.length arr = npix (grid (ds f))
  /\ forallb (in_dtype (dt (ds f))) arr = true.
Proof.
  unfold wf_file, read. intros H Hr.
  apply andb_true_iff in H. destruct H as [_ H].
  destruct b as [|i]; [discriminate|].
  destruct (nth_error (bands (ds f)) i) as [bd|] eqn:E; [|discriminate].
  inversion Hr; subst.
  rewrite forallb_forall in H. specialize (H bd (nth_error_In _ _ E)).
  apply andb_true_iff in H. destruct H as [H1 H2].
  apply Nat.eqb_eq in H1. now split.
Qed.

Lemma wf_file_npix (f : File) : wf_file f = true -> 0 < npix (grid (ds f)).
Proof.
  unfold wf_file. intros H. apply andb_true_iff in H.
  destruct H as [H _]. now apply Nat.ltb_lt.
Qed.

(** What the align step returns is the band on its own grid, which is
    the reference grid. *)
Lemma align_ok (lib : WarpLib) (d : Dataset) (r : Grid) (band : MaskedArray)
  (dv : list F.float * list bool) :
  align lib d r band = Ok dv ->
  same_grid d r = true /\ dv = on_grid (dt d) band.
Proof.
  unfold align. destruct (same_grid d r).
  - intros H. inversion H. now split.
  - unfold reproject_to_ref. cbn [bind profile_getattr]. discriminate.
Qed.

(** Both outputs of the align step have the shape of the reference
    grid. *)
Lemma align_length (lib : WarpLib) (f : File) (r : Grid) (b : nat)
  (band : MaskedArray) (dv : list F.float * list bool) :
  wf_file f = true ->
  read_band_masked (ds f) b = Some band ->
  align lib (ds f) r band = Ok dv ->
  List.length (fst dv) = npix r /\ List.length (snd dv) = npix r.
Proof.
  intros Hwf Hb Ha. destruct (align_ok lib (ds f) r band dv Ha) as [Hg ->].
  destruct (AlignFacts.read_band_masked_mask (ds f) b band Hb) as [Hm _].
  destruct (AlignFacts.on_grid_length (dt (ds f)) band Hm) as [H1 H2].
  unfold read_band_masked in Hb.
  destruct (read (ds f) b) as [arr|] eqn:Er; [|discriminate].
  inversion Hb; subst band; clear Hb.
  destruct (wf_file_band f b arr Hwf Er) as [Hl _].
  cbn [data] in H1, H2. rewrite H1, H2, Hl.
  split; now apply grid_eqb_npix.
Qed.

(** The values of the align step are [float32] numbers, and the valid
    ones are finite. *)
Lemma align_values (lib : WarpLib) (f : File) (r : Grid) (b : nat)
  (band : MaskedArray) (dv : list F.float * list bool) (i : nat)
  (x : F.float) :
  wf_file f = true ->
  read_band_masked (ds f) b = Some band ->
  align lib (ds f) r band = Ok dv ->
  nth_error (fst dv) i = Some x ->
  F.is_f32 x = true
  /\ (nth_error (snd dv) i = Some true -> F.isfinite x = true).
Proof.
  intros Hwf Hb Ha Hx. destruct (align_ok lib (ds f) r band dv Ha) as [Hg ->].
  destruct (AlignFacts.read_band_masked_mask (ds f) b band Hb) as [Hm Hk].
  destruct (AlignFacts.on_grid_length (dt (ds f)) band Hm) as [H1 _].
  unfold read_band_masked in Hb.
  destruct (read (ds f) b) as [arr|] eqn:Er; [|discriminate].
  inversion Hb; subst band; clear Hb. cbn [data mask] in *.
  destruct (wf_file_band f b arr Hwf Er) as [Hl Hdt].
  destruct (nth_error arr i) as [y|] eqn:Ey.
  - destruct (AlignFacts.on_grid_nth (dt (ds f))
                (mkMA arr (mask_of (dt (ds f)) (nodata (ds f)) arr))
                i y _ Ey (Hk i y Ey)) as [Hd Hv].
    rewrite Hd in Hx. inversion Hx; subst x; clear Hx. split.
    + destruct (negb (F.isfinite y)
                || is_sentinel (dt (ds f)) (nodata (ds f)) y);
        [reflexivity|].
      rewrite forallb_forall in Hdt.
      specialize (Hdt y (nth_error_In _ _ Ey)).
      destruct (dt (ds f)); simpl in *; auto.
      apply FloatFacts.to_f32_is_f32.
    + rewrite Hv. intros Hv'. injection Hv' as Hv''.
      apply andb_true_iff in Hv''. destruct Hv'' as [Hk' Hfin].
      apply negb_true_iff in Hk'. rewrite Hk'. exact Hfin.
  - exfalso. apply nth_error_None in Ey.
    assert (nth_error
              (fst (on_grid (dt (ds f))
                      (mkMA arr (mask_of (dt (ds f)) (nodata (ds f)) arr))))
              i = None) by (apply nth_error_None; lia).
    congruence.
Qed.

End AvgShapes.

(** ** The averager: accumulators and outputs *)

Module AvgFinal.

Import Raster Avg.

Lemma band_record_good (lib : WarpLib) (r : Grid) (f : File)
  (b : option nat) (dv : list F.float * list bool) :
  wf_file f = true -> band_record lib r f b = Some dv -> good_record r dv.
Proof.
  intros Hwf H. unfold band_record in H.
  destruct b as [b|]; [|discriminate].
  destruct (Nat.eqb b 0 || Nat.ltb (count (ds f)) b); [discriminate|].
  destruct (read_band_masked (ds f) b) as [band|] eqn:Eb; [|discriminate].
  unfold aligned in H.
  destruct (align lib (ds f) r band) as [dv'|e] eqn:Ea; [|discriminate].
  inversion H; subst dv'; clear H.
  destruct (AvgShapes.align_length lib f r b band dv Hwf Eb Ea) as [H1 H2].
  repeat split; auto; intros;
    destruct (AvgShapes.align_values lib f r b band dv i x Hwf Eb Ea); auto.
Qed.

Lemma records_good (lib : WarpLib) (r : Grid) (g : group) (p : pol)
  (files : list File) (dv : list F.float * list bool) :
  forallb wf_file files = true ->
  In dv (records lib r g p files) -> good_record r dv.
Proof.
  intros Hwf Hin. unfold records in Hin. apply in_flat_map in Hin.
  destruct Hin as (f & Hf & Hin).
  rewrite forallb_forall in Hwf. specialize (Hwf f Hf).
  unfold contribution in Hin.
  destruct (extract_date_from_name (name f)) as [[acq|]|e];
    try contradiction.
  destruct (band_record lib r f (find_vv_vh_indices (ds f) (name f) p))
    as [dv'|] eqn:Eb; cbn [option_map] in Hin; [|contradiction].
  destruct (group_eqb (group_of acq) g); [|contradiction].
  destruct Hin as [<-|[]]. eapply band_record_good; eauto.
Qed.

Lemma accumulate_good (r : Grid) (a : Acc) (dv : list F.float * list bool) :
  good_acc r a -> good_record r dv ->
  good_acc r (accumulate a (fst dv) (snd dv)).
Proof.
  intros [Hs Hc] (Hd & Hv & _). unfold good_acc, accumulate. cbn [acc_sum acc_cnt].
  rewrite ListFacts.length_map3, ListFacts.length_map2.
  unfold F.float in *. lia.
Qed.

Lemma add_record_good (r : Grid) (o : option Acc)
  (dv : list F.float * list bool) :
  (forall a, o = Some a -> good_acc r a) -> good_record r dv ->
  exists a, add_record r o dv = Some a /\ good_acc r a.
Proof.
  intros Ho Hdv. unfold add_record. eexists. split; [reflexivity|].
  apply accumulate_good; auto.
  destruct o as [a|]; [now apply Ho|].
  unfold good_acc, zeros_f64, zeros_u32. cbn [acc_sum acc_cnt].
  now rewrite !repeat_length.
Qed.

Lemma fold_add_record_good (r : Grid)
  (recs : list (list F.float * list bool)) :
  forall o,
    (forall a, o = Some a -> good_acc r a) ->
    (forall dv, In dv recs -> good_record r dv) ->
    forall a, fold_left (add_record r) recs o = Some a -> good_acc r a.
Proof.
  induction recs as [|dv recs IH]; intros o Ho Hrecs a H; simpl in H.
  - now apply Ho.
  - destruct (add_record_good r o dv Ho (Hrecs dv (or_introl eq_refl)))
      as (a1 & E1 & G1).
    rewrite E1 in H. apply (IH (Some a1)); auto.
    + intros a' Ha'. now inversion Ha'; subst.
    + intros dv' Hdv'. apply Hrecs. now right.
Qed.

Lemma fold_add_record_some (r : Grid)
  (recs : list (list F.float * list bool)) :
  forall a, fold_left (add_record r) recs (Some a) <> None.
Proof.
  induction recs as [|dv recs IH]; intros a; simpl; [discriminate|].
  apply IH.
Qed.

Lemma fold_add_record_none (r : Grid)
  (recs : list (list F.float * list bool)) (o : option Acc) :
  fold_left (add_record r) recs o = None <-> o = None /\ recs = [].
Proof.
  split.
  - destruct recs as [|dv recs]; simpl; [now split|].
    intros H. exfalso. revert H. apply fold_add_record_some.
  - now intros [-> ->].
Qed.

Lemma fold_max_spec (l : list N) :
  forall c,
    (c <= fold_left N.max l c)%N
    /\ (forall x, In x l -> (x <= fold_left N.max l c)%N).
Proof.
  induction l as [|y l IH]; intros c; simpl.
  - split; [lia|]. intros x [].
  - destruct (IH (N.max c y)) as [H1 H2]. split; [lia|].
    intros x [<-|Hx]; [lia|]. now apply H2.
Qed.

(** A count above zero somewhere makes the maximum differ from zero. *)
Lemma amax_pos (l : list N) (c : N) :
  In c l -> (0 < c)%N -> exists mx, amax l = Ok mx /\ (mx =? 0)%N = false.
Proof.
  intros Hin Hc. destruct l as [|y l]; [contradiction|]. simpl.
  eexists. split; [reflexivity|]. apply N.eqb_neq.
  destruct (fold_max_spec l y) as [H1 H2].
  destruct Hin as [<-|Hin]; [lia|]. specialize (H2 c Hin). lia.
Qed.

Lemma amax_ok (l : list N) : l <> [] -> exists mx, amax l = Ok mx.
Proof. destruct l; [congruence|]. intros _. simpl. now eexists. Qed.

Lemma average_nth (a : Acc) (i : nat) (s : F.float) (c : N) :
  nth_error (acc_sum a) i = Some s -> nth_error (acc_cnt a) i = Some c ->
  nth_error (average a) i = Some (mean_px s c).
Proof.
  intros Hs Hc. unfold average.
  now rewrite ListFacts.nth_error_map2, Hs, Hc.
Qed.


Lemma finalize_one_written (st : State) (g : group) (p : pol) (r : Grid)
  (a : Acc) (c : N) :
  ref st = Some r -> groups st g p = Some a ->
  In c (acc_cnt a) -> (0 < c)%N ->
  finalize_one st (g, p)
  = Ok [Wrote (out_name g p) r (average a);
        OkLine (out_name g p) (total_used st g p)
          (count_true (map (fun c => (0 <? c)%N) (acc_cnt a)))].
Proof.
  intros Hr Hg Hin Hc. unfold finalize_one. rewrite Hr, Hg.
  destruct (amax_pos _ _ Hin Hc) as (mx & E & Hmx).
  rewrite E. cbn [bind]. now rewrite Hmx.
Qed.

Lemma out_name_inj (g g' : group) (p p' : pol) :
  out_name g p = out_name g' p' -> g = g' /\ p = p'.
Proof. destruct g, g', p, p'; vm_compute; intros H; now inversion H. Qed.

(** Every event of a pair carries the file name of the pair. *)
Lemma finalize_one_wrote (st : State) (g : group) (p : pol)
  (e : list event) (path : string) (r : Grid) (arr : list F.float) :
  finalize_one st (g, p) = Ok e -> In (Wrote path r arr) e ->
  path = out_name g p
  /\ ref st = Some r
  /\ exists a, groups st g p = Some a /\ arr = average a
               /\ exists mx, amax (acc_cnt a) = Ok mx /\ (mx =? 0)%N = false.
Proof.
  unfold finalize_one. intros H Hin.
  destruct (ref st) as [r0|]; [|inversion H; subst; destruct Hin as [|[]];
                                  discriminate].
  destruct (groups st g p) as [a|];
    [|inversion H; subst; destruct Hin as [|[]]; discriminate].
  destruct (amax (acc_cnt a)) as [mx|] eqn:E; [|discriminate].
  cbn [bind] in H. destruct (mx =? 0)%N eqn:Hmx.
  - inversion H; subst. destruct Hin as [|[]]; discriminate.
  - inversion H; subst. destruct Hin as [Hin|[Hin|[]]]; [|discriminate].
    inversion Hin; subst. repeat split; auto.
    exists a. repeat split; auto. now exists mx.
Qed.

Lemma finalize_in (st : State) (l : list (group * pol)) :
  forall es, finalize st l = Ok es ->
    forall ev, In ev es <->
      exists gp e, In gp l /\ finalize_one st gp = Ok e /\ In ev e.
Proof.
  induction l as [|gp l IH]; intros es H ev; simpl in H.
  - inversion H; subst. split; [intros []|]. intros (gp & e & [] & _).
  - destruct (finalize_one st gp) as [e|] eqn:E1; [|discriminate].
    cbn [bind] in H.
    destruct (finalize st l) as [es'|] eqn:E2; [|discriminate].
    cbn [bind] in H. inversion H; subst es; clear H.
    rewrite in_app_iff, (IH es' eq_refl ev). split.
    + intros [Hin|(gp' & e' & Hg & He & Hin)].
      * exists gp, e. repeat split; auto. now left.
      * exists gp', e'. repeat split; auto. now right.
    + intros (gp' & e' & [<-|Hg] & He & Hin).
      * left. congruence.
      * right. now exists gp', e'.
Qed.

Lemma finalize_ok (st : State) (l : list (group * pol)) :
  (forall gp, In gp l -> exists e, finalize_one st gp = Ok e) ->
  exists es, finalize st l = Ok es.
Proof.
  induction l as [|gp l IH]; intros H; simpl.
  - now eexists.
  - destruct (H gp (or_introl eq_refl)) as [e E]. rewrite E. cbn [bind].
    destruct IH as [es Es]; [intros; apply H; now right|].
    rewrite Es. cbn [bind]. now eexists.
Qed.

Lemma finalize_one_ok (st : State) (g : group) (p : pol) :
  (forall a, groups st g p = Some a -> acc_cnt a <> []) ->
  exists e, finalize_one st (g, p) = Ok e.
Proof.
  intros H. unfold finalize_one.
  destruct (ref st); [|now eexists].
  destruct (groups st g p) as [a|]; [|now eexists].
  destruct (amax_ok (acc_cnt a) (H a eq_refl)) as [mx E].
  rewrite E. cbn [bind]. destruct (mx =? 0)%N; now eexists.
Qed.

Lemma in_outputs (g : group) (p : pol) : In (g, p) outputs.
Proof. destruct g, p; simpl; auto. Qed.

End AvgFinal.

(** ** The averager: what [main] writes *)

Module AvgMain.

Import Raster Avg.

Lemma ref_of_in (files : list File) (r : Grid) :
  ref_of files = Some r -> exists f, In f files /\ r = grid (ds f).
Proof.
  induction files as [|f files IH]; simpl; [discriminate|].
  destruct (extract_date_from_name (name f)) as [[acq|]|e]; intros H.
  - inversion H; subst. exists f. split; auto.
  - destruct (IH H) as (f' & Hf & E). exists f'. split; auto.
  - destruct (IH H) as (f' & Hf & E). exists f'. split; auto.
Qed.

(** The state after the loop, from the records. *)
Lemma loop_summary (lib : WarpLib) (files : list File) (st : State) :
  forallb wf_file files = true ->
  process_files lib init files = Ok st ->
  ref st = ref_of files
  /\ forall g p,
       match ref_of files with
       | Some r =>
           groups st g p
           = fold_left (add_record r) (records lib r g p files) None
           /\ total_used st g p = List.length (records lib r g p files)
           /\ 0 < npix r
           /\ (forall a, groups st g p = Some a -> good_acc r a)
       | None => groups st g p = None /\ total_used st g p = 0
       end.
Proof.
  intros Hwf H.
  destruct (AvgLoop.process_files_init lib files init st eq_refl H)
    as (Hr & Hsome & Hnone).
  split; [exact Hr|]. intros g p.
  destruct (ref_of files) as [r|] eqn:Er.
  - destruct (Hsome r g p eq_refl) as [Hg Ht]. cbn [init groups total_used] in *.
    split; [exact Hg|]. split; [lia|]. split.
    + destruct (ref_of_in files r Er) as (f & Hf & ->).
      rewrite forallb_forall in Hwf.
      now apply AvgShapes.wf_file_npix, Hwf.
    + intros a Ha. rewrite Hg in Ha.
      refine (AvgFinal.fold_add_record_good r (records lib r g p files)
                None _ _ a Ha).
      * discriminate.
      * intros dv Hdv. now apply (AvgFinal.records_good lib r g p files).
  - exact (Hnone eq_refl g p).
Qed.

Lemma good_acc_nonempty (r : Grid) (a : Acc) :
  0 < npix r -> good_acc r a -> acc_cnt a <> [].
Proof.
  intros Hn [_ Hc] E. rewrite E in Hc. simpl in Hc. lia.
Qed.


(** After the loop over well-formed files the write step comes to an
    end. *)
Lemma loop_finalize_ok (lib : WarpLib) (files : list File) (st : State) :
  forallb wf_file files = true ->
  process_files lib init files = Ok st ->
  exists es, finalize st outputs = Ok es.
Proof.
  intros Hwf H.
  destruct (loop_summary lib files st Hwf H) as [Hr Hsum].
  apply AvgFinal.finalize_ok. intros [g p] _.
  apply AvgFinal.finalize_one_ok. intros a Ha.
  specialize (Hsum g p).
  destruct (ref_of files) as [r|]; [|destruct Hsum; congruence].
  destruct Hsum as (_ & _ & Hn & Hgood).
  exact (good_acc_nonempty r a Hn (Hgood a Ha)).
Qed.








End AvgMain.

(** ** The averager: the order of the files *)

Module AvgOrder.

Import Raster Avg.















End AvgOrder.

(** ** The date in a file name *)

Module DateFacts.

Import Raster Avg.

Local Open Scope Z_scope.

Lemma digit_value (c : ascii) :
  Re.digit c = true -> 0 <= Z.of_nat (nat_of_ascii c) - 48 <= 9.
Proof.
  unfold Re.digit, Str.is_digit. intros H.
  apply andb_true_iff in H. destruct H as [H1 H2].
  apply Nat.leb_le in H1, H2. lia.
Qed.

Lemma lit_eq (c a : ascii) : Re.lit c a = true -> a = c.
Proof. unfold Re.lit. intros H. apply Ascii.eqb_eq in H. congruence. Qed.

Ltac inv_matches :=
  repeat match goal with
         | H : Re.Matches (_ :: _) _ _ _ |- _ => inversion H; clear H; subst
         | H : Re.Matches [] _ _ _ |- _ => inversion H; clear H; subst
         end.

(** The characters that a match of either pattern hands to [date]: the
    digits of a year from 2000 to 2099, then two digits each for month
    and day. *)
Lemma captured_digits (p : Re.pattern) (s : string) (cs : list ascii)
  (rest : string) :
  p = pat_T \/ p = pat_sep ->
  Re.Matches p s cs rest ->
  exists y1 y2 m1 m2 d1 d2 tl,
    cs = "2"%char :: "0"%char :: y1 :: y2 :: m1 :: m2 :: d1 :: d2 :: tl
    /\ Re.digit y1 = true /\ Re.digit y2 = true.
Proof.
  intros [-> | ->] H; unfold pat_T, pat_sep in H; inv_matches;
    repeat match goal with
           | H : Re.lit _ _ = true |- _ => apply lit_eq in H; subst
           end;
    do 7 eexists; (split; [reflexivity|]); split; assumption.
Qed.

Lemma year_of_match (y1 y2 m1 m2 d1 d2 : ascii) (tl : list ascii) :
  Re.digit y1 = true -> Re.digit y2 = true ->
  2000 <= Str.int_of_digits 0
            (firstn 4 ("2"%char :: "0"%char :: y1 :: y2 :: m1 :: m2 :: d1 :: d2 :: tl))
       <= 2099.
Proof.
  intros H1 H2. apply digit_value in H1, H2.
  cbn [firstn Str.int_of_digits].
  change (Z.of_nat (nat_of_ascii "2")) with 50.
  change (Z.of_nat (nat_of_ascii "0")) with 48. lia.
Qed.

Lemma days_in_month_le (y m : Z) : Date.days_in_month y m <= 31.
Proof.
  unfold Date.days_in_month.
  repeat match goal with
         | |- context [match ?x with _ => _ end] => destruct x
         end; lia.
Qed.

Lemma make_ok (y m d : Z) (dt : Date.date) :
  Date.make y m d = Ok dt ->
  dt = Date.mk y m d /\ 1 <= m <= 12 /\ 1 <= d <= Date.days_in_month y m.
Proof.
  unfold Date.make.
  destruct ((1 <=? y) && (y <=? 9999)) eqn:Ey; [|discriminate].
  destruct ((1 <=? m) && (m <=? 12)) eqn:Em; [|discriminate].
  destruct ((1 <=? d) && (d <=? Date.days_in_month y m)) eqn:Ed;
    [|discriminate].
  cbn [negb]. intros H. inversion H; subst.
  apply andb_true_iff in Em, Ed. destruct Em as [E1 E2], Ed as [E3 E4].
  apply Z.leb_le in E1, E2, E3, E4. auto.
Qed.

Lemma make_raise (y m d : Z) (e : exn) :
  1 <= y <= 9999 ->
  Date.make y m d = Raise e ->
  (e = ValueError "month must be in 1..12" /\ ~ 1 <= m <= 12)
  \/ (e = ValueError "day is out of range for month"
      /\ 1 <= m <= 12 /\ ~ 1 <= d <= Date.days_in_month y m).
Proof.
  intros Hy. unfold Date.make.
  replace ((1 <=? y) && (y <=? 9999)) with true
    by (symmetry; apply andb_true_iff; split; apply Z.leb_le; lia).
  cbn [negb].
  destruct ((1 <=? m) && (m <=? 12)) eqn:Em; cbn [negb].
  - apply andb_true_iff in Em. destruct Em as [E1 E2].
    apply Z.leb_le in E1, E2.
    destruct ((1 <=? d) && (d <=? Date.days_in_month y m)) eqn:Ed;
      cbn [negb]; [discriminate|].
    intros H. inversion H; subst. right.
    split; [reflexivity|]. split; [lia|].
    apply andb_false_iff in Ed.
    destruct Ed as [Ed|Ed]; apply Z.leb_gt in Ed; lia.
  - intros H. inversion H; subst. left. split; [reflexivity|].
    apply andb_false_iff in Em.
    destruct Em as [Em|Em]; apply Z.leb_gt in Em; lia.
Qed.

(** What [date_of_match] returns on the capture of either pattern. *)
Lemma date_of_capture (p : Re.pattern) (name : string) (cs : list ascii) :
  p = pat_T \/ p = pat_sep ->
  Re.search p name = Some cs ->
  (forall d, date_of_match cs = Ok d ->
     2000 <= Date.year d <= 2099
     /\ 1 <= Date.month d <= 12
     /\ 1 <= Date.day d <= Date.days_in_month (Date.year d) (Date.month d))
  /\ (forall e, date_of_match cs = Raise e ->
        e = ValueError "month must be in 1..12"
        \/ e = ValueError "day is out of range for month").
Proof.
  intros Hp Hs.
  destruct (ReFacts.search_some _ _ _ Hs) as (pre & suf & _ & Hm & _).
  destruct (ReFacts.match_here_sound _ _ _ Hm) as [rest Hm'].
  destruct (captured_digits p suf cs rest Hp Hm')
    as (y1 & y2 & m1 & m2 & d1 & d2 & tl & -> & Hy1 & Hy2).
  pose proof (year_of_match y1 y2 m1 m2 d1 d2 tl Hy1 Hy2) as Hy.
  unfold date_of_match. split.
  - intros d Hd. apply make_ok in Hd. destruct Hd as (-> & Hmo & Hda).
    cbn [Date.year Date.month Date.day]. auto.
  - intros e He. apply make_raise in He; [|lia].
    destruct He as [[-> _]|[-> _]]; auto.
Qed.

(** A date that the extraction returns is a calendar date of the years
    2000 to 2099; the extraction fails in no other way than by the
    [ValueError] of [date] for a month outside 1..12 or a day outside
    the month. *)
Theorem extracted_date_is_calendar_date (name : string) :
  (forall d,
      extract_date_from_name name = Ok (Some d) ->
      2000 <= Date.year d <= 2099
      /\ 1 <= Date.month d <= 12
      /\ 1 <= Date.day d <= Date.days_in_month (Date.year d) (Date.month d)
      /\ Date.day d <= 31)
  /\ (forall e,
         extract_date_from_name name = Raise e ->
         e = ValueError "month must be in 1..12"
         \/ e = ValueError "day is out of range for month").
Proof.
  unfold extract_date_from_name.
  destruct (Re.search pat_T name) as [cs|] eqn:E1.
  - destruct (date_of_capture pat_T name cs (or_introl eq_refl) E1) as [Hok Hr].
    destruct (date_of_match cs) as [d0|e0]; cbn [bind]; split.
    + intros d H. inversion H; subst.
      destruct (Hok d eq_refl) as (Hy & Hm & Hd). repeat split; try lia.
      pose proof (days_in_month_le (Date.year d) (Date.month d)). lia.
    + discriminate.
    + discriminate.
    + intros e H. inversion H; subst. now apply Hr.
  - destruct (Re.search pat_sep name) as [cs|] eqn:E2.
    + destruct (date_of_capture pat_sep name cs (or_intror eq_refl) E2)
        as [Hok Hr].
      destruct (date_of_match cs) as [d0|e0]; cbn [bind]; split.
      * intros d H. inversion H; subst.
        destruct (Hok d eq_refl) as (Hy & Hm & Hd). repeat split; try lia.
        pose proof (days_in_month_le (Date.year d) (Date.month d)). lia.
      * discriminate.
      * discriminate.
      * intros e H. inversion H; subst. now apply Hr.
    + split; discriminate.
Qed.

End DateFacts.

(** ** The averager: files without a date *)

Module AvgRuns.

Import Raster Avg.









End AvgRuns.

(** ** The averager: what is written, pixel by pixel *)

Module AvgPixels.

Import Raster Avg AvgPixel.

Lemma accumulate_pixel (r : Grid) (a : Acc) (dv : list F.float * list bool)
  (i : nat) (s : F.float) (c : N) :
  good_record r dv ->
  nth_error (acc_sum a) i = Some s -> nth_error (acc_cnt a) i = Some c ->
  i < npix r ->
  nth_error (acc_sum (accumulate a (fst dv) (snd dv))) i
    = Some (sum_step i s dv)
  /\ nth_error (acc_cnt (accumulate a (fst dv) (snd dv))) i
     = Some (count_step i c dv).
Proof.
  intros (Hd & Hv & _) Hs Hc Hi. unfold accumulate, sum_step, count_step.
  cbn [acc_sum acc_cnt].
  rewrite ListFacts.nth_error_map3, ListFacts.nth_error_map2.
  unfold F.float in *. rewrite Hs, Hc.
  rewrite (nth_error_nth' (fst dv) S754_nan) by lia.
  rewrite (nth_error_nth' (snd dv) false) by lia.
  split; reflexivity.
Qed.

Lemma fold_pixel (r : Grid) (recs : list (list F.float * list bool))
  (i : nat) :
  i < npix r ->
  (forall dv, In dv recs -> good_record r dv) ->
  forall a s c,
    good_acc r a ->
    nth_error (acc_sum a) i = Some s -> nth_error (acc_cnt a) i = Some c ->
    exists a',
      fold_left (add_record r) recs (Some a) = Some a'
      /\ nth_error (acc_sum a') i = Some (fold_left (sum_step i) recs s)
      /\ nth_error (acc_cnt a') i = Some (fold_left (count_step i) recs c).
Proof.
  intros Hi. induction recs as [|dv recs IH]; intros Hrecs a s c Ha Hs Hc.
  - exists a. auto.
  - cbn [fold_left]. unfold add_record at 2.
    assert (Hdv : good_record r dv) by (apply Hrecs; now left).
    destruct (accumulate_pixel r a dv i s c Hdv Hs Hc Hi) as [Hs' Hc'].
    apply IH; auto.
    + intros dv' Hin. apply Hrecs. now right.
    + now apply AvgFinal.accumulate_good.
Qed.

Lemma zeros_good (r : Grid) :
  good_acc r (mkAcc (zeros_f64 (npix r)) (zeros_u32 (npix r))).
Proof.
  unfold good_acc, zeros_f64, zeros_u32. cbn [acc_sum acc_cnt].
  now rewrite !repeat_length.
Qed.

Lemma fold_from_none (r : Grid) (recs : list (list F.float * list bool)) :
  recs <> [] ->
  fold_left (add_record r) recs None
  = fold_left (add_record r) recs
      (Some (mkAcc (zeros_f64 (npix r)) (zeros_u32 (npix r)))).
Proof. destruct recs; [congruence|]. reflexivity. Qed.

(** The accumulators of a pair at one pixel, after the loop. *)
Lemma loop_pixel (lib : WarpLib) (files : list File) (st : State) (r : Grid)
  (g : group) (p : pol) (a : Acc) (i : nat) :
  forallb wf_file files = true ->
  process_files lib init files = Ok st ->
  ref st = Some r -> groups st g p = Some a ->
  i < npix r ->
  records lib r g p files <> []
  /\ total_used st g p = List.length (records lib r g p files)
  /\ good_acc r a
  /\ nth_error (acc_sum a) i
     = Some (fold_left (sum_step i) (records lib r g p files)
                       (S754_zero false))
  /\ nth_error (acc_cnt a) i
     = Some (fold_left (count_step i) (records lib r g p files) 0%N).
Proof.
  intros Hwf H Hr Hg Hi.
  destruct (AvgMain.loop_summary lib files st Hwf H) as [Hr' Hsum].
  specialize (Hsum g p). rewrite <- Hr', Hr in Hsum.
  destruct Hsum as (Hfold & Ht & _ & Hgood).
  assert (Hne : records lib r g p files <> []).
  { intros E. rewrite E in Hfold. simpl in Hfold. congruence. }
  split; [exact Hne|]. split; [exact Ht|]. split; [now apply Hgood|].
  rewrite (fold_from_none r _ Hne) in Hfold.
  destruct (fold_pixel r (records lib r g p files) i Hi
              (fun dv => AvgFinal.records_good lib r g p files dv Hwf)
              _ (S754_zero false) 0%N (zeros_good r))
    as (a' & Ea & Hs & Hc).
  - unfold zeros_f64. cbn [acc_sum]. now apply nth_error_repeat.
  - unfold zeros_u32. cbn [acc_cnt]. now apply nth_error_repeat.
  - rewrite Hfold in Hg. rewrite Ea in Hg. inversion Hg; subst a'. now split.
Qed.

Lemma count_fold (i : nat) (recs : list (list F.float * list bool)) :
  forall k : nat,
    fold_left (count_step i) recs (N.of_nat k mod 2 ^ 32)%N
    = (N.of_nat
         (k + List.length (filter (fun dv => nth i (snd dv) false) recs))
       mod 2 ^ 32)%N.
Proof.
  induction recs as [|dv recs IH]; intros k; cbn [fold_left filter].
  - now rewrite Nat.add_0_r.
  - unfold count_step at 2. destruct (nth i (snd dv) false).
    + unfold u32_succ. rewrite N.Div0.add_mod_idemp_l.
      replace (N.of_nat k + 1)%N with (N.of_nat (S k)) by lia.
      rewrite IH. cbn [List.length]. f_equal. f_equal. lia.
    + apply IH.
Qed.

(** After the loop, the count of a pixel is the number of the records of
    the pair that are valid at that pixel, in [uint32] arithmetic; it
    never exceeds the number of the contributing images. *)
Theorem pixel_count_is_number_of_valid_images (lib : WarpLib)
  (files : list File) (st : State) (r : Grid) (g : group) (p : pol)
  (a : Acc) (i : nat) (c : N) :
  forallb wf_file files = true ->
  process_files lib init files = Ok st ->
  ref st = Some r -> groups st g p = Some a ->
  nth_error (acc_cnt a) i = Some c ->
  c = (N.of_nat (List.length (filter (fun dv => nth i (snd dv) false)
                                     (records lib r g p files)))
       mod 2 ^ 32)%N
  /\ (c <= N.of_nat (total_used st g p))%N.
Proof.
  intros Hwf H Hr Hg Hc.
  destruct (AvgMain.loop_summary lib files st Hwf H) as [Hr' Hsum].
  specialize (Hsum g p). rewrite <- Hr', Hr in Hsum.
  destruct Hsum as (_ & _ & _ & Hgood). destruct (Hgood a Hg) as [_ Hlen].
  assert (Hi : i < npix r).
  { rewrite <- Hlen. apply nth_error_Some. congruence. }
  destruct (loop_pixel lib files st r g p a i Hwf H Hr Hg Hi)
    as (_ & Ht & _ & _ & Hc').
  rewrite Hc in Hc'. inversion Hc' as [Ec]. clear Hc'.
  pose proof (count_fold i (records lib r g p files) 0) as Hf.
  change (N.of_nat 0 mod 2 ^ 32)%N with 0%N in Hf.
  rewrite Hf. cbn [Nat.add]. split; [reflexivity|].
  rewrite Ht.
  pose proof (filter_length_le (fun dv => nth i (snd dv) false)
                (records lib r g p files)) as Hle.
  pose proof (N.Div0.mod_le
                (N.of_nat (List.length
                   (filter (fun dv => nth i (snd dv) false)
                           (records lib r g p files)))) (2 ^ 32)) as Hm.
  lia.
Qed.

Lemma fold_invalid (i : nat) (recs : list (list F.float * list bool)) :
  (forall dv, In dv recs -> nth_error (snd dv) i = Some false) ->
  forall s c,
    fold_left (sum_step i) recs s = s /\ fold_left (count_step i) recs c = c.
Proof.
  induction recs as [|dv recs IH]; intros H s c; cbn [fold_left]; auto.
  unfold sum_step at 2, count_step at 2.
  rewrite (nth_error_nth _ _ false (H dv (or_introl eq_refl))).
  apply IH. intros dv' Hin. apply H. now right.
Qed.

(** What has been printed by the loop is warnings. *)
Lemma log_only_warnings (lib : WarpLib) (files : list File) :
  forall st st',
    process_files lib st files = Ok st' ->
    forall e, In e (log st') ->
              In e (log st) \/ exists n, e = WarnNoDate n.
Proof.
  induction files as [|f files IH]; intros st st' H e He;
    cbn [process_files] in H.
  - inversion H; subst. now left.
  - destruct (process_file lib st f) as [s1|e1] eqn:E1; [|discriminate].
    cbn [bind] in H.
    destruct (extract_date_from_name (name f)) as [[acq|]|err] eqn:E.
    + destruct (AvgLoop.process_dated lib st s1 f acq E E1) as (_ & L & _).
      destruct (IH s1 st' H e He) as [Hin|Hw]; [left; congruence|now right].
    + rewrite (AvgLoop.process_undated lib st f E) in E1.
      inversion E1; subst s1; clear E1.
      destruct (IH _ st' H e He) as [Hin|Hw]; [|now right].
      cbn [log] in Hin. apply in_app_or in Hin.
      destruct Hin as [Hin|[<-|[]]]; [now left|right; eauto].
    + unfold process_file in E1. rewrite E in E1. discriminate.
Qed.

(** The parts of a run of [main] over a folder that is not empty. *)
Lemma main_parts (lib : WarpLib) (files : list File) (evs : list event) :
  files <> [] -> main lib files = Ok evs ->
  exists st es,
    process_files lib init files = Ok st
    /\ finalize st outputs = Ok es
    /\ evs = log st ++ es ++ [Done].
Proof.
  intros Hne H. destruct files as [|f files]; [congruence|].
  unfold main in H.
  destruct (process_files lib init (f :: files)) as [st|] eqn:P;
    [|discriminate].
  cbn [bind] in H.
  destruct (finalize st outputs) as [es|] eqn:Fi; [|discriminate].
  cbn [bind] in H. inversion H; subst. now exists st, es.
Qed.

(** A raster or an [OK] line of a run comes from the write step. *)
Lemma main_written (lib : WarpLib) (files : list File) (evs : list event)
  (e : event) :
  main lib files = Ok evs -> In e evs ->
  (exists path r arr, e = Wrote path r arr)
  \/ (exists path n k, e = OkLine path n k) ->
  exists st es gp one,
    process_files lib init files = Ok st
    /\ finalize st outputs = Ok es
    /\ evs = log st ++ es ++ [Done]
    /\ In gp outputs /\ finalize_one st gp = Ok one /\ In e one.
Proof.
  intros H He Hk.
  destruct files as [|f files].
  { inversion H; subst. destruct He as [<-|[]].
    destruct Hk as [(? & ? & ? & ?)|(? & ? & ? & ?)]; discriminate. }
  destruct (main_parts lib (f :: files) evs) as (st & es & P & Fi & ->);
    [discriminate|assumption|].
  apply in_app_or in He. destruct He as [He|He].
  { exfalso.
    destruct (log_only_warnings lib _ _ _ P e He) as [[]|[n ->]].
    destruct Hk as [(? & ? & ? & ?)|(? & ? & ? & ?)]; discriminate. }
  apply in_app_or in He. destruct He as [He|[<-|[]]].
  - apply (AvgFinal.finalize_in st outputs es Fi) in He.
    destruct He as (gp & one & Hgp & Hone & Hin).
    exists st, es, gp, one. auto 10.
  - destruct Hk as [(? & ? & ? & ?)|(? & ? & ? & ?)]; discriminate.
Qed.

(** A pixel at which exactly one image of the pair is valid holds, in
    the raster that is written for the pair, the value of that image. *)
Theorem pixel_covered_by_one_image (lib : WarpLib) (files : list File)
  (evs : list event) (r : Grid) (g : group) (p : pol)
  (pre post : list (list F.float * list bool))
  (d : list F.float) (v : list bool) (i : nat) (x : F.float) :
  forallb wf_file files = true ->
  main lib files = Ok evs ->
  ref_of files = Some r ->
  records lib r g p files = pre ++ (d, v) :: post ->
  (forall dv, In dv (pre ++ post) -> nth_error (snd dv) i = Some false) ->
  nth_error d i = Some x -> nth_error v i = Some true ->
  exists arr y,
    In (Wrote (out_name g p) r arr) evs
    /\ nth_error arr i = Some y /\ F.eqb y x = true.
Proof.
  intros Hwf Hmain Href Hrec Hothers Hx Hv.
  assert (Hne : files <> []) by (intros ->; discriminate).
  destruct (main_parts lib files evs Hne Hmain) as (st & es & P & Fi & ->).
  destruct (AvgMain.loop_summary lib files st Hwf P) as [Hr Hsum].
  rewrite Href in Hr. specialize (Hsum g p). rewrite Href in Hsum.
  destruct Hsum as (Hfold & _ & _ & _).
  assert (Hdv : good_record r (d, v)).
  { apply (AvgFinal.records_good lib r g p files (d, v) Hwf).
    rewrite Hrec. apply in_or_app. right. now left. }
  assert (Hi : i < npix r).
  { destruct Hdv as (Hd & _). cbn [fst] in Hd. rewrite <- Hd.
    apply nth_error_Some. unfold F.float in *. congruence. }
  destruct (groups st g p) as [a|] eqn:Hg.
  2:{ exfalso. symmetry in Hfold.
      apply AvgFinal.fold_add_record_none in Hfold.
      destruct Hfold as [_ E]. rewrite Hrec in E.
      now destruct pre. }
  destruct (loop_pixel lib files st r g p a i Hwf P Hr Hg Hi)
    as (_ & _ & _ & Hs & Hc).
  rewrite Hrec, !fold_left_app in Hs, Hc. cbn [fold_left] in Hs, Hc.
  destruct (fold_invalid i pre) with (s := S754_zero false) (c := 0%N)
    as [Es Ec].
  { intros dv Hin. apply Hothers. apply in_or_app. now left. }
  rewrite Es in Hs. rewrite Ec in Hc.
  unfold sum_step at 2 in Hs. unfold count_step at 2 in Hc.
  cbn [fst snd] in Hs, Hc.
  rewrite (nth_error_nth _ _ false Hv) in Hs, Hc.
  rewrite (nth_error_nth _ _ F.nan Hx) in Hs.
  destruct (fold_invalid i post) with
    (s := F.add64 (S754_zero false) (F.to_f64 x)) (c := u32_succ 0)
    as [Es' Ec'].
  { intros dv Hin. apply Hothers. apply in_or_app. now right. }
  rewrite Es' in Hs. rewrite Ec' in Hc.
  change (u32_succ 0) with 1%N in Hc.
  exists (average a), (mean_px (F.add64 (S754_zero false) (F.to_f64 x)) 1).
  split; [|split].
  - apply in_or_app. right. apply in_or_app. left.
    apply (AvgFinal.finalize_in st outputs es Fi).
    exists (g, p). eexists. split; [apply AvgFinal.in_outputs|].
    split;
      [apply (AvgFinal.finalize_one_written st g p r a 1%N Hr Hg);
       [now apply (nth_error_In _ i)|reflexivity]
      |now left].
  - now apply AvgFinal.average_nth.
  - destruct Hdv as (_ & _ & Hval). cbn [fst snd] in Hval.
    destruct (Hval i x Hx) as [Hf32 Hfin].
    apply FloatFacts.mean_single; auto.
Qed.

(** A pixel at which no image of the pair is valid holds -9999.0 in the
    raster of the pair. *)
Theorem pixel_covered_by_no_image (lib : WarpLib) (files : list File)
  (evs : list event) (r : Grid) (g : group) (p : pol)
  (arr : list F.float) (i : nat) :
  forallb wf_file files = true ->
  main lib files = Ok evs ->
  In (Wrote (out_name g p) r arr) evs ->
  (forall dv, In dv (records lib r g p files) ->
              nth_error (snd dv) i = Some false) ->
  nth_error arr i = Some NODATA_OUT.
Proof.
  intros Hwf Hmain Hin Hnone.
  destruct (main_written lib files evs _ Hmain Hin)
    as (st & es & [g' p'] & one & P & Fi & _ & _ & Hone & Hin');
    [left; eauto|].
  destruct (AvgFinal.finalize_one_wrote st g' p' one _ r arr Hone Hin')
    as (Hpath & Hr & a & Hg & -> & _).
  apply AvgFinal.out_name_inj in Hpath. destruct Hpath as [<- <-].
  destruct (AvgMain.loop_summary lib files st Hwf P) as [Hr' Hsum].
  specialize (Hsum g p). rewrite <- Hr', Hr in Hsum.
  destruct Hsum as (Hfold & _ & _ & _).
  assert (Hne : records lib r g p files <> []).
  { intros E. rewrite E in Hfold. simpl in Hfold. congruence. }
  assert (Hi : i < npix r).
  { destruct (records lib r g p files) as [|dv recs] eqn:E; [congruence|].
    assert (Hgood : good_record r dv).
    { apply (AvgFinal.records_good lib r g p files dv Hwf).
      rewrite E. now left. }
    destruct Hgood as (_ & Hv & _). rewrite <- Hv.
    apply nth_error_Some. rewrite (Hnone dv (or_introl eq_refl)).
    discriminate. }
  destruct (loop_pixel lib files st r g p a i Hwf P Hr Hg Hi)
    as (_ & _ & _ & Hs & Hc).
  destruct (fold_invalid i (records lib r g p files) Hnone
              (S754_zero false) 0%N) as [Es Ec].
  rewrite Es in Hs. rewrite Ec in Hc.
  now rewrite (AvgFinal.average_nth a i _ _ Hs Hc).
Qed.

(** Every raster that a run writes has one of the four output names,
    lies on the grid of the first file (in the order of processing)
    whose name has a date, and has one pixel per pixel of that grid. *)
Theorem rasters_on_grid_of_first_dated_file (lib : WarpLib)
  (files : list File) (path : string) (r : Grid) (arr : list F.float) :
  forallb wf_file files = true ->
  In (path, r, arr) (rasters (main lib files)) ->
  ref_of files = Some r
  /\ (exists g p, path = out_name g p)
  /\ List.length arr = npix r
  /\ exists f, In f files /\ has_date f = true /\ r = grid (ds f).
Proof.
  intros Hwf Hin.
  destruct (main lib files) as [evs|] eqn:Hmain; [|contradiction].
  unfold rasters in Hin. apply in_flat_map in Hin.
  destruct Hin as (e & He & Hin).
  destruct e; try contradiction. destruct Hin as [Hin|[]].
  inversion Hin; subst; clear Hin.
  destruct (main_written lib files evs _ Hmain He)
    as (st & es & [g p] & one & P & Fi & _ & _ & Hone & Hin');
    [left; eauto|].
  destruct (AvgFinal.finalize_one_wrote st g p one _ r arr Hone Hin')
    as (Hpath & Hr & a & Hg & -> & _).
  destruct (AvgMain.loop_summary lib files st Hwf P) as [Hr' Hsum].
  specialize (Hsum g p). rewrite <- Hr', Hr in Hsum.
  destruct Hsum as (_ & _ & _ & Hgood). destruct (Hgood a Hg) as [Hls Hlc].
  split; [congruence|]. split; [now exists g, p|]. split.
  - unfold average. rewrite ListFacts.length_map2.
    unfold F.float in *. lia.
  - rewrite Hr in Hr'. symmetry in Hr'. clear - Hr'.
    induction files as [|f files IH]; [discriminate|].
    cbn [ref_of] in Hr'.
    destruct (extract_date_from_name (name f)) as [[acq|]|err] eqn:E.
    + inversion Hr'; subst. exists f. split; [now left|].
      split; [|reflexivity]. unfold has_date. now rewrite E.
    + destruct (IH Hr') as (f' & Hf & Hd & Hrr). exists f'. split; auto.
      now right.
    + destruct (IH Hr') as (f' & Hf & Hd & Hrr). exists f'. split; auto.
      now right.
Qed.

Lemma fold_max_in (l : list N) :
  forall c, fold_left N.max l c = c \/ In (fold_left N.max l c) l.
Proof.
  induction l as [|y l IH]; intros c; cbn [fold_left]; [now left|].
  destruct (IH (N.max c y)) as [E|Hin].
  - rewrite E. destruct (N.max_spec c y) as [[_ ->]|[_ ->]];
      [right; now left|now left].
  - right. now right.
Qed.

Lemma amax_in (l : list N) (mx : N) : amax l = Ok mx -> In mx l.
Proof.
  destruct l as [|c l]; [discriminate|]. cbn [amax]. intros H.
  inversion H; subst.
  destruct (fold_max_in l c) as [->|Hin]; [now left|now right].
Qed.

Lemma count_true_le (l : list bool) : count_true l <= List.length l.
Proof. unfold count_true. apply filter_length_le. Qed.

Lemma count_true_pos (l : list bool) : In true l -> 1 <= count_true l.
Proof.
  unfold count_true. induction l as [|b l IH]; intros Hin; [contradiction|].
  destruct Hin as [->|Hin]; simpl; [lia|].
  destruct b; simpl; [lia|now apply IH].
Qed.

(** The [OK] line of a pair goes with its raster. *)
Lemma finalize_one_ok_line (st : State) (g : group) (p : pol)
  (e : list event) (path : string) (n k : nat) :
  finalize_one st (g, p) = Ok e -> In (OkLine path n k) e ->
  exists r a mx,
    path = out_name g p /\ ref st = Some r /\ groups st g p = Some a
    /\ n = total_used st g p
    /\ k = count_true (map (fun c => (0 <? c)%N) (acc_cnt a))
    /\ amax (acc_cnt a) = Ok mx /\ (mx =? 0)%N = false
    /\ In (Wrote path r (average a)) e.
Proof.
  unfold finalize_one. intros H Hin.
  destruct (ref st) as [r|];
    [|inversion H; subst; destruct Hin as [|[]]; discriminate].
  destruct (groups st g p) as [a|];
    [|inversion H; subst; destruct Hin as [|[]]; discriminate].
  destruct (amax (acc_cnt a)) as [mx|] eqn:E; [|discriminate].
  cbn [bind] in H. destruct (mx =? 0)%N eqn:Hmx.
  - inversion H; subst. destruct Hin as [|[]]; discriminate.
  - inversion H; subst. destruct Hin as [Hin|[Hin|[]]]; [discriminate|].
    inversion Hin; subst. exists r, a, mx. repeat split; auto. now left.
Qed.

Lemma records_length_le (lib : WarpLib) (r : Grid) (g : group) (p : pol)
  (files : list File) :
  List.length (records lib r g p files)
  <= List.length (filter has_date files).
Proof.
  induction files as [|f files IH]; [reflexivity|].
  rewrite AvgLoop.records_cons, length_app. cbn [filter].
  unfold records at 1. cbn [flat_map]. unfold contribution.
  destruct (has_date f) eqn:Hd; unfold has_date in Hd;
    destruct (extract_date_from_name (name f)) as [[acq|]|err];
    try discriminate; cbn [List.length app]; try lia.
  destruct (band_record lib r f (find_vv_vh_indices (ds f) (name f) p));
    cbn [option_map]; [|cbn; lia].
  destruct (group_eqb (group_of acq) g); cbn; lia.
Qed.

(** An [OK] line of a run goes with a raster of the same name, and
    reports at least one contributing image, at most as many as there
    are files with a date, and between one valid pixel and as many as
    the reference grid has pixels. *)
Theorem ok_line_counts (lib : WarpLib) (files : list File)
  (evs : list event) (path : string) (n_imgs n_pix : nat) :
  forallb wf_file files = true ->
  main lib files = Ok evs ->
  In (OkLine path n_imgs n_pix) evs ->
  exists r arr,
    ref_of files = Some r
    /\ In (Wrote path r arr) evs
    /\ 1 <= n_imgs <= List.length (filter has_date files)
    /\ 1 <= n_pix <= npix r.
Proof.
  intros Hwf Hmain Hin.
  destruct (main_written lib files evs _ Hmain Hin)
    as (st & es & [g p] & one & P & Fi & -> & Hgp & Hone & Hin');
    [right; eauto|].
  destruct (finalize_one_ok_line st g p one path n_imgs n_pix Hone Hin')
    as (r & a & mx & -> & Hr & Hg & -> & -> & Emx & Hmx & Hw).
  destruct (AvgMain.loop_summary lib files st Hwf P) as [Hr' Hsum].
  specialize (Hsum g p). rewrite <- Hr', Hr in Hsum.
  destruct Hsum as (Hfold & Ht & _ & Hgood). destruct (Hgood a Hg) as [_ Hlc].
  exists r, (average a). split; [congruence|]. split; [|split].
  - apply in_or_app. right. apply in_or_app. left.
    apply (AvgFinal.finalize_in st outputs es Fi). now exists (g, p), one.
  - rewrite Ht. split; [|apply records_length_le].
    destruct (records lib r g p files); [|cbn; lia].
    simpl in Hfold. congruence.
  - split.
    + apply count_true_pos. apply in_map_iff. exists mx.
      split; [|now apply amax_in].
      apply N.ltb_lt. apply N.eqb_neq in Hmx. lia.
    + rewrite <- Hlc, <- (length_map (fun c => (0 <? c)%N)).
      apply count_true_le.
Qed.

Lemma ok_line_counts_witness :
  exists r arr,
    ref_of Samples.two_files = Some r
    /\ In (Wrote "VV_before.tiff" r arr)
          [Wrote "VV_before.tiff" Samples.grid1 [Samples.f32_2];
           OkLine "VV_before.tiff" 1 1;
           InfoNoData VH before "VH_before.tiff";
           Wrote "VV_after.tiff" Samples.grid1 [Samples.f32_2];
           OkLine "VV_after.tiff" 1 1;
           InfoNoData VH after "VH_after.tiff";
           Done]
    /\ 1 <= 1 <= List.length (filter has_date Samples.two_files)
    /\ 1 <= 1 <= npix r.
Proof.
  apply (ok_line_counts Samples.no_warp Samples.two_files).
  - reflexivity.
  - vm_compute. reflexivity.
  - right. now left.
Defined.

(** A folder whose first file has no date and lies on a grid of its
    own; the two that follow lie on one grid. *)
Lemma rasters_on_grid_of_first_dated_file_witness :
  ref_of (Raster.mkFile "readme.tif"
            (Raster.mkDataset Samples.grid2 Raster.float32 None
               [Raster.mkBand None [] [Samples.f32_1; Samples.f32_1]])
          :: Samples.two_files) = Some Samples.grid1
  /\ List.length [Samples.f32_2] = npix Samples.grid1.
Proof.
  destruct (rasters_on_grid_of_first_dated_file Samples.no_warp
              (Raster.mkFile "readme.tif"
                 (Raster.mkDataset Samples.grid2 Raster.float32 None
                    [Raster.mkBand None [] [Samples.f32_1; Samples.f32_1]])
               :: Samples.two_files)
              "VV_after.tiff" Samples.grid1 [Samples.f32_2])
    as (H1 & _ & H2 & _).
  - reflexivity.
  - vm_compute. right. now left.
  - now split.
Defined.

(** Two images of one pair: the first without a valid pixel, the second
    with the value 2. *)
Lemma pixel_covered_by_one_image_witness :
  exists arr y,
    In (Wrote "VV_before.tiff" Samples.grid1 arr)
       [Wrote "VV_before.tiff" Samples.grid1 [Samples.f32_2];
        OkLine "VV_before.tiff" 2 1;
        InfoNoData VH before "VH_before.tiff";
        InfoNoData VV after "VV_after.tiff";
        InfoNoData VH after "VH_after.tiff";
        Done]
    /\ nth_error arr 0 = Some y /\ F.eqb y Samples.f32_2 = true.
Proof.
  apply (pixel_covered_by_one_image Samples.no_warp
           [Samples.one_band "S1_20230101_VV.tif" None [F.nan];
            Samples.one_band "S1_20230102_VV.tif" None [Samples.f32_2]]
           _ Samples.grid1 before VV
           [([F.nan], [false])] [] [Samples.f32_2] [true] 0 Samples.f32_2).
  - reflexivity.
  - vm_compute. reflexivity.
  - reflexivity.
  - vm_compute. reflexivity.
  - intros dv [<-|[]]. reflexivity.
  - reflexivity.
  - reflexivity.
Defined.

Lemma pixel_covered_by_no_image_witness :
  nth_error [Samples.f32_2; NODATA_OUT] 1 = Some NODATA_OUT.
Proof.
  apply (pixel_covered_by_no_image Samples.no_warp
           [Raster.mkFile "S1_20230104_VV.tif"
              (Raster.mkDataset Samples.grid2 Raster.float32 None
                 [Raster.mkBand None [] [Samples.f32_2; F.nan]])]
           [Wrote "VV_before.tiff" Samples.grid2 [Samples.f32_2; NODATA_OUT];
            OkLine "VV_before.tiff" 1 1;
            InfoNoData VH before "VH_before.tiff";
            InfoNoData VV after "VV_after.tiff";
            InfoNoData VH after "VH_after.tiff";
            Done]
           Samples.grid2 before VV).
  - reflexivity.
  - vm_compute. reflexivity.
  - now left.
  - vm_compute. intros dv [<-|[]]. reflexivity.
Defined.

(** Two images of one pair, of which the second alone is valid at the
    pixel: the count is 1, of 2 contributing images. *)
Lemma pixel_count_is_number_of_valid_images_witness :
  1%N
  = (N.of_nat
       (List.length
          (filter (fun dv => nth 0 (snd dv) false)
             (records Samples.no_warp Samples.grid1 before VV
                [Samples.one_band "S1_20230101_VV.tif" None [F.nan];
                 Samples.one_band "S1_20230102_VV.tif" None [Samples.f32_2]])))
     mod 2 ^ 32)%N
  /\ (1 <= N.of_nat 2)%N.
Proof.
  pose (files := [Samples.one_band "S1_20230101_VV.tif" None [F.nan];
                  Samples.one_band "S1_20230102_VV.tif" None [Samples.f32_2]]).
  pose (st := match process_files Samples.no_warp init files with
              | Ok st => st
              | Raise _ => init
              end).
  refine (pixel_count_is_number_of_valid_images Samples.no_warp files
            st Samples.grid1 before VV
            (mkAcc [F.add64 (S754_zero false) (F.to_f64 Samples.f32_2)]
                   [1%N])
            0 1%N _ _ _ _ _).
  - reflexivity.
  - vm_compute. reflexivity.
  - vm_compute. reflexivity.
  - vm_compute. reflexivity.
  - reflexivity.
Defined.

End AvgPixels.

(** ** The three band resolvers agree *)

Module ResolverRange.

Import Raster.

Lemma note_or (t : string) (i : nat) (st : option nat * option nat) :
  1 <= i -> Images.band_numbers st ->
  Images.note t i st = note t i st /\ Images.band_numbers (note t i st).
Proof.
  intros Hi [H1 H2]. destruct st as [vv vh]. cbn [fst snd] in *.
  unfold Images.note, note, Images.py_or, Images.band_numbers. cbn [fst snd].
  destruct (String.eqb t "VV"), (String.eqb t "VH");
    destruct vv as [[|a]|], vh as [[|b]|];
    try (specialize (H1 0 eq_refl); lia);
    try (specialize (H2 0 eq_refl); lia);
    (split; [reflexivity|]);
    split; intros j Hj; inversion Hj; subst; auto; try lia.
Qed.

Lemma scan_descriptions_or (l : list (option string)) :
  forall i st,
    1 <= i -> Images.band_numbers st ->
    Images.scan_descriptions i l st = scan_descriptions i l st
    /\ Images.band_numbers (scan_descriptions i l st).
Proof.
  induction l as [|d l IH]; intros i st Hi Hst; cbn; [now split|].
  destruct (truthy d) as [s|].
  - destruct (note_or (Str.upper (Str.strip s)) i st Hi Hst) as [E Hp].
    rewrite E. apply IH; [lia|assumption].
  - apply IH; [lia|assumption].
Qed.

Lemma scan_keys_or (tg : list (string * string)) (i : nat) (ks : list string) :
  forall st,
    1 <= i -> Images.band_numbers st ->
    Images.scan_keys tg i ks st = scan_keys tg i ks st
    /\ Images.band_numbers (scan_keys tg i ks st).
Proof.
  induction ks as [|k ks IH]; intros st Hi Hst; cbn; [now split|].
  destruct (truthy (get k tg)) as [s|].
  - destruct (note_or (Str.upper (Str.strip s)) i st Hi Hst) as [E Hp].
    rewrite E. now apply IH.
  - now apply IH.
Qed.

Lemma scan_tags_or (d : Dataset) (idxs : list nat) :
  forall st,
    (forall i, In i idxs -> 1 <= i) -> Images.band_numbers st ->
    Images.scan_tags d idxs st = scan_tags d idxs st
    /\ Images.band_numbers (scan_tags d idxs st).
Proof.
  induction idxs as [|i idxs IH]; intros st Hi Hst;
    cbn [Images.scan_tags scan_tags]; [now split|].
  destruct (scan_keys_or (tags_of d i) i tag_keys st
              (Hi i (or_introl eq_refl)) Hst) as [E Hp].
  rewrite E. apply IH; auto. intros j Hj. apply Hi. now right.
Qed.

(** The band resolver of the preview script, which is written with
    [vv_idx = vv_idx or i] where the two others test [vv is None],
    returns what they return. *)
Theorem preview_resolver_agrees (d : Dataset) (filename : string) (p : pol) :
  Images.find_band_indices_for_vv_vh d filename p
  = Avg.find_vv_vh_indices d filename p
  /\ Rbr.lookup p (Rbr.find_pol_indices d filename)
     = Images.find_band_indices_for_vv_vh d filename p.
Proof.
  assert (H : Images.find_band_indices_for_vv_vh d filename p
              = Avg.find_vv_vh_indices d filename p).
  { unfold Images.find_band_indices_for_vv_vh, Avg.find_vv_vh_indices, resolve.
    assert (H0 : Images.band_numbers (None, None)) by (split; discriminate).
    assert (E1 : match descriptions d with
                 | [] => (None, None)
                 | _ :: _ => Images.scan_descriptions 1 (descriptions d) (None, None)
                 end
                 = match descriptions d with
                   | [] => (None, None)
                   | _ :: _ => scan_descriptions 1 (descriptions d) (None, None)
                   end
                 /\ Images.band_numbers
                      match descriptions d with
                      | [] => (None, None)
                      | _ :: _ => scan_descriptions 1 (descriptions d) (None, None)
                      end).
    { destruct (descriptions d) as [|o l] eqn:Ed; [now split|].
      apply scan_descriptions_or; auto. }
    destruct E1 as [E1 P1].
    destruct (descriptions d) as [|o l] eqn:Ed.
    - destruct (scan_tags_or d (seq 1 (count d)) (None, None)) as [E2 P2];
        auto.
      { intros i Hi. apply in_seq in Hi. lia. }
      rewrite E2.
      destruct (scan_tags d (seq 1 (count d)) (None, None)) as [vv vh].
      destruct (Nat.eqb (count d) 1), (Nat.leb 2 (count d));
        cbn [andb];
        repeat match goal with
               | |- context [if ?b then _ else _] => destruct b
               end; try destruct p; reflexivity.
    - rewrite E1.
      destruct (scan_tags_or d (seq 1 (count d))
                  (scan_descriptions 1 (o :: l) (None, None))) as [E2 P2];
        auto.
      { intros i Hi. apply in_seq in Hi. lia. }
      rewrite E2.
      destruct (scan_tags d (seq 1 (count d))
                  (scan_descriptions 1 (o :: l) (None, None))) as [vv vh].
      destruct (Nat.eqb (count d) 1), (Nat.leb 2 (count d));
        cbn [andb];
        repeat match goal with
               | |- context [if ?b then _ else _] => destruct b
               end; try destruct p; reflexivity. }
  split; [exact H|].
  rewrite H, ResolverFacts.find_pol_indices_spec.
  symmetry. apply ResolverFacts.find_vv_vh_indices_spec.
Qed.

End ResolverRange.

(** ** The averager: the band that is read *)

Module ResolverUse.

Import Raster.

(** An index that the band resolver returns is the number of a band of
    the file: the test [not b or b > ds.count] of the loops never skips
    it, and both readers read the band. *)
Theorem resolved_band_is_read (d : Dataset) (filename : string) (p : pol)
  (b : nat) :
  Avg.find_vv_vh_indices d filename p = Some b ->
  1 <= b <= count d
  /\ Nat.eqb b 0 || Nat.ltb (count d) b = false
  /\ (exists band, Avg.read_band_masked d b = Some band)
  /\ (exists band, Rbr.read_band_masked d b = Ok band).
Proof.
  intros H. rewrite ResolverFacts.find_vv_vh_indices_spec in H.
  apply ResolverFacts.resolve_spec_in_range in H.
  split; [exact H|]. split.
  - apply orb_false_iff. split; [apply Nat.eqb_neq|apply Nat.ltb_ge]; lia.
  - destruct (ReaderFacts.read_in_range d b H) as [arr E].
    unfold Avg.read_band_masked, Rbr.read_band_masked. rewrite E.
    split; eexists; reflexivity.
Qed.

Lemma resolved_band_is_read_witness :
  1 <= 1 <= count (ds Samples.file_c)
  /\ exists band, Avg.read_band_masked (ds Samples.file_c) 1 = Some band.
Proof.
  destruct (resolved_band_is_read (ds Samples.file_c) (name Samples.file_c)
              VV 1 eq_refl) as (H1 & _ & H2 & _).
  now split.
Defined.

Lemma first_index_none {A : Type} (f : A -> bool) (l : list A) :
  (forall a, In a l -> f a = false) -> forall i, first_index f i l = None.
Proof.
  induction l as [|a l IH]; intros H i; cbn [first_index]; auto.
  rewrite (H a (or_introl eq_refl)). apply IH. intros; apply H; now right.
Qed.

(** A raster none of whose bands is labelled with a polarization, in a
    description or under one of the four tag keys: with one band, a
    polarization is band 1 when its name occurs in the upper-cased file
    name and is absent otherwise; with two bands or more, VV is band 1
    and VH band 2; without bands, nothing is resolved. *)
Theorem unlabelled_raster_resolution (d : Dataset) (filename : string)
  (p : pol) :
  (forall b q, In b (bands d) ->
     names_pol q (description b) = false
     /\ existsb (fun k => names_pol q (get k (tags b))) tag_keys = false) ->
  Avg.find_vv_vh_indices d filename p
  = match count d with
    | 0 => None
    | 1 => if Str.contains (pol_name p) (Str.upper filename)
           then Some 1 else None
    | _ => Some (match p with VV => 1 | VH => 2 end)
    end.
Proof.
  intros H. rewrite ResolverFacts.find_vv_vh_indices_spec.
  assert (Hd : forall q, by_description q d = None).
  { intros q. apply first_index_none. intros b Hb. now destruct (H b q Hb). }
  assert (Ht : forall q, by_tags q d = None).
  { intros q. apply first_index_none. intros b Hb. now destruct (H b q Hb). }
  unfold resolve_spec, by_position, steps_1_to_3.
  rewrite !Hd, !Ht. cbn [or_else]. unfold by_filename.
  destruct (count d) as [|[|n]]; cbn [Nat.eqb Nat.leb andb is_none or_else].
  - reflexivity.
  - now destruct (Str.contains (pol_name p) (Str.upper filename)).
  - reflexivity.
Qed.

Lemma unlabelled_raster_resolution_witness :
  Avg.find_vv_vh_indices (ds Samples.file_c) "S1_20230103_VV.tif" VH = None.
Proof.
  apply (unlabelled_raster_resolution (ds Samples.file_c)
           "S1_20230103_VV.tif" VH).
  intros b q [<-|[]]. destruct q; split; reflexivity.
Defined.

End ResolverUse.

(** ** The burn-ratio tool: how a run ends *)

Module RbrRuns.

Import Raster Rbr.

Lemma out_name_pol (p q : pol) : out_name p = out_name q -> p = q.
Proof. destruct p, q; vm_compute; intros H; now inversion H. Qed.

Lemma in_written_for (p : pol) (fb : File) (rbr : MaskedArray) (e : event) :
  In e (written_for p fb rbr) ->
  e = Wrote (out_name p) (grid (ds fb)) (out_array rbr)
  \/ e = OkNoValid (out_name p)
  \/ e = OkStats (out_name p) (compressed rbr).
Proof.
  unfold written_for. intros [<-|[<-|[]]]; auto.
  destruct (compressed rbr); auto.
Qed.

Lemma in_pols (p : pol) : In p [VV; VH].
Proof. destruct p; simpl; auto. Qed.

(** The loop over the polarizations of both inputs. *)
Lemma process_pols_present (lib : WarpLib) (pw : PowLib) (db : bool)
  (fb fa : File) (ps : list pol) :
  (forall p, In p ps ->
     present_in_both (find_pol_indices (ds fb) (name fb))
                     (find_pol_indices (ds fa) (name fa)) p = true) ->
  exists es,
    process_pols lib pw db fb fa (find_pol_indices (ds fb) (name fb))
                 (find_pol_indices (ds fa) (name fa)) ps = Ok es
    /\ forall e, In e es ->
         exists p b a rbr,
           In p ps
           /\ lookup p (find_pol_indices (ds fb) (name fb)) = Some b
           /\ lookup p (find_pol_indices (ds fa) (name fa)) = Some a
           /\ rbr_for lib pw db fb fa b a = Ok rbr
           /\ In e (written_for p fb rbr).
Proof.
  induction ps as [|p ps IH]; intros H; cbn [process_pols].
  - exists []. split; [reflexivity|]. intros e [].
  - destruct (RbrFacts.process_pol_present lib pw db fb fa p
                (H p (or_introl eq_refl)))
      as (b & a & rbr & Eb & Ea & Er & Ep).
    rewrite Ep. cbn [bind].
    destruct IH as (es & Ees & Hes); [intros q Hq; apply H; now right|].
    rewrite Ees. cbn [bind]. eexists. split; [reflexivity|].
    intros e He. apply in_app_or in He. destruct He as [He|He].
    + exists p, b, a, rbr. repeat split; auto. now left.
    + destruct (Hes e He) as (q & b' & a' & rbr' & Hq & Hb & Ha & Hr & Hin).
      exists q, b', a', rbr'. repeat split; auto. now right.
Qed.

(** A raster that [main] writes is the burn ratio of the bands of one
    polarization, on the grid of BEFORE. *)
Lemma main_wrote (lib : WarpLib) (pw : PowLib) (db : bool) (fb fa : File)
  (evs : list event) (path : string) (r : Grid) (arr : list F.float) :
  main lib pw db fb fa = Ok evs -> In (Wrote path r arr) evs ->
  exists p b a rbr,
    path = out_name p /\ r = grid (ds fb) /\ arr = out_array rbr
    /\ lookup p (find_pol_indices (ds fb) (name fb)) = Some b
    /\ lookup p (find_pol_indices (ds fa) (name fa)) = Some a
    /\ rbr_for lib pw db fb fa b a = Ok rbr.
Proof.
  unfold main.
  set (pol_b := find_pol_indices (ds fb) (name fb)).
  set (pol_a := find_pol_indices (ds fa) (name fa)).
  set (present := present_in_both pol_b pol_a).
  intros H Hin.
  assert (Hsk : ~ In (Wrote path r arr)
                     (map InfoSkip
                        (filter (fun p => negb (present p)) [VV; VH]))).
  { intros Hc. apply in_map_iff in Hc. destruct Hc as (q & E & _).
    discriminate. }
  destruct (process_pols_present lib pw db fb fa (filter present [VV; VH]))
    as (es & Ees & Hes).
  { intros p Hp. apply filter_In in Hp. now destruct Hp. }
  fold pol_b pol_a in Ees, Hes.
  destruct (filter present [VV; VH]) as [|p0 ps].
  - inversion H; subst. apply in_app_or in Hin.
    destruct Hin as [Hin|[Hin|[]]]; [contradiction|discriminate].
  - rewrite Ees in H. cbn [bind] in H. inversion H; subst.
    rewrite !in_app_iff in Hin.
    destruct Hin as [Hin|[Hin|[Hin|[]]]]; [contradiction| |discriminate].
    destruct (Hes _ Hin) as (p & b & a & rbr & _ & Hb & Ha & Hr & Hw).
    apply in_written_for in Hw.
    destruct Hw as [Hw|[Hw|Hw]]; try discriminate.
    exists p, b, a, rbr.
    pose proof (f_equal (fun e => match e with
                                  | Wrote n _ _ => n
                                  | _ => EmptyString
                                  end) Hw) as Hn.
    pose proof (f_equal (fun e => match e with
                                  | Wrote _ g _ => g
                                  | _ => grid (ds fb)
                                  end) Hw) as Hg.
    pose proof (f_equal (fun e => match e with
                                  | Wrote _ _ x => x
                                  | _ => []
                                  end) Hw) as Hx.
    cbv beta iota in Hn, Hg, Hx. repeat split; auto.
Qed.

(** [main] comes to an end on every pair of inputs: no band index of the
    resolver is out of range.  A polarization that one of the inputs
    lacks gets the [INFO] line and no raster; every raster written is on
    the grid of BEFORE; [Done.] is printed when at least one polarization
    is in both inputs, the [ERROR] line when none is. *)
Theorem main_comes_to_an_end (lib : WarpLib) (pw : PowLib) (db : bool)
  (fb fa : File) :
  exists evs,
    main lib pw db fb fa = Ok evs
    /\ (forall p,
          In (InfoSkip p) evs
          <-> present_in_both (find_pol_indices (ds fb) (name fb))
                              (find_pol_indices (ds fa) (name fa)) p = false)
    /\ (forall p r arr,
          In (Wrote (out_name p) r arr) evs ->
          present_in_both (find_pol_indices (ds fb) (name fb))
                          (find_pol_indices (ds fa) (name fa)) p = true
          /\ r = grid (ds fb))
    /\ (In Done evs
        <-> exists p,
              present_in_both (find_pol_indices (ds fb) (name fb))
                              (find_pol_indices (ds fa) (name fa)) p = true)
    /\ (In ErrorNothing evs
        <-> forall p,
              present_in_both (find_pol_indices (ds fb) (name fb))
                              (find_pol_indices (ds fa) (name fa)) p = false).
Proof.
  unfold main.
  set (pol_b := find_pol_indices (ds fb) (name fb)).
  set (pol_a := find_pol_indices (ds fa) (name fa)).
  set (present := present_in_both pol_b pol_a).
  set (skipped := map InfoSkip (filter (fun p => negb (present p)) [VV; VH])).
  assert (Hskip : forall e, In e skipped
                            <-> exists p, e = InfoSkip p /\ present p = false).
  { intros e. unfold skipped. rewrite in_map_iff. split.
    - intros (p & <- & Hp). apply filter_In in Hp. destruct Hp as [_ Hp].
      exists p. split; [reflexivity|]. now apply negb_true_iff.
    - intros (p & -> & Hp). exists p. split; [reflexivity|].
      apply filter_In. split; [apply in_pols|]. now rewrite Hp. }
  assert (Hav : forall p, In p (filter present [VV; VH]) <-> present p = true).
  { intros p. rewrite filter_In. split; [now intros [_ H]|].
    intros H. split; [apply in_pols|exact H]. }
  destruct (process_pols_present lib pw db fb fa (filter present [VV; VH]))
    as (es & Ees & Hes).
  { intros p Hp. now apply Hav. }
  fold pol_b pol_a in Ees.
  assert (Hwr : forall e, In e es ->
              (forall q, e <> InfoSkip q) /\ e <> Done /\ e <> ErrorNothing
              /\ forall q r arr, e = Wrote (out_name q) r arr ->
                   present q = true /\ r = grid (ds fb)).
  { intros e He. destruct (Hes e He) as (p & b & a & rbr & Hp & _ & _ & _ & Hin).
    apply Hav in Hp. apply in_written_for in Hin.
    destruct Hin as [ -> | [ -> | -> ] ];
      (split; [intros q0; discriminate|]);
      (split; [discriminate|]); (split; [discriminate|]);
      intros q r arr E; try discriminate.
    pose proof (f_equal (fun e => match e with
                                  | Wrote n _ _ => n
                                  | _ => EmptyString
                                  end) E) as Hn.
    pose proof (f_equal (fun e => match e with
                                  | Wrote _ g _ => g
                                  | _ => grid (ds fb)
                                  end) E) as Hr.
    cbv beta iota in Hn, Hr. apply out_name_pol in Hn. now subst. }
  destruct (filter present [VV; VH]) as [|p0 ps] eqn:Ef.
  - (* neither polarization is in both inputs *)
    assert (Hnone : forall p, present p = false).
    { intros p. destruct (present p) eqn:Hp; auto.
      apply Hav in Hp. contradiction. }
    exists (skipped ++ [ErrorNothing]). split; [reflexivity|].
    split; [|split; [|split]].
    + intros p. rewrite in_app_iff, Hskip. split.
      * intros [(q & E & Hq)|[E|[]]]; [|discriminate]. now inversion E; subst.
      * intros Hp. left. now exists p.
    + intros p r arr Hin. exfalso. apply in_app_or in Hin.
      destruct Hin as [Hin|[Hin|[]]]; [|discriminate].
      apply Hskip in Hin. destruct Hin as (q & E & _). discriminate.
    + split.
      * intros Hin. exfalso. apply in_app_or in Hin.
        destruct Hin as [Hin|[Hin|[]]]; [|discriminate].
        apply Hskip in Hin. destruct Hin as (q & E & _). discriminate.
      * intros [p Hp]. rewrite Hnone in Hp. discriminate.
    + split; [intros _; exact Hnone|].
      intros _. apply in_or_app. right. now left.
  - rewrite Ees. cbn [bind].
    assert (Hsome : present p0 = true) by (apply Hav; now left).
    exists (skipped ++ es ++ [Done]). split; [reflexivity|].
    split; [|split; [|split]].
    + intros p. rewrite !in_app_iff, Hskip. split.
      * intros [(q & E & Hq)|[Hin|[E|[]]]].
        -- now inversion E; subst.
        -- exfalso. now apply (proj1 (Hwr _ Hin) p).
        -- discriminate.
      * intros Hp. left. now exists p.
    + intros p r arr Hin. rewrite !in_app_iff in Hin.
      destruct Hin as [Hin|[Hin|[E|[]]]].
      * apply Hskip in Hin. destruct Hin as (q & E & _). discriminate.
      * now apply (proj2 (proj2 (proj2 (Hwr _ Hin))) p r arr).
      * discriminate.
    + split; [intros _; now exists p0|].
      intros _. rewrite !in_app_iff. right. right. now left.
    + split.
      * intros Hin. exfalso. rewrite !in_app_iff in Hin.
        destruct Hin as [Hin|[Hin|[E|[]]]].
        -- apply Hskip in Hin. destruct Hin as (q & E & _). discriminate.
        -- now apply (proj1 (proj2 (proj2 (Hwr _ Hin)))).
        -- discriminate.
      * intros Hall. rewrite Hall in Hsome. discriminate.
Qed.

End RbrRuns.

(** ** The burn-ratio tool: what is written *)

Module RbrWritten.

Import Raster Rbr.

Lemma rbr_for_is_compute_rbr (lib : WarpLib) (pw : PowLib) (db : bool)
  (fb fa : File) (b a : nat) (rbr : MaskedArray) :
  rbr_for lib pw db fb fa b a = Ok rbr ->
  exists b_band a_band b_lin a_lin,
    read_band_masked (ds fb) b = Ok b_band
    /\ read_band_masked (ds fa) a = Ok a_band
    /\ b_lin = (if db then to_linear pw b_band else b_band)
    /\ a_lin = (let a_ref :=
                  if negb (grids_match (grid (ds fb)) (grid (ds fa)))
                  then reproject_to_ref lib a_band (grid (ds fa))
                                        (grid (ds fb))
                  else a_band in
                if db then to_linear pw a_ref else a_ref)
    /\ rbr = compute_rbr b_lin a_lin.
Proof.
  unfold rbr_for. intros H.
  destruct (read_band_masked (ds fb) b) as [b_band|] eqn:Eb; [|discriminate].
  destruct (read_band_masked (ds fa) a) as [a_band|] eqn:Ea; [|discriminate].
  cbn [bind] in H. inversion H; subst.
  eexists b_band, a_band, _, _. repeat split; reflexivity.
Qed.

(** The mask of the burn ratio holds every pixel whose data is not
    finite. *)
Lemma out_array_finite (before_lin after_lin : MaskedArray) (x : F.float) :
  In x (out_array (compute_rbr before_lin after_lin)) ->
  F.isfinite x = true.
Proof.
  intros Hin. apply In_nth_error in Hin. destruct Hin as [i Hi].
  unfold out_array in Hi. rewrite ListFacts.nth_error_map2 in Hi.
  destruct (nth_error (data (compute_rbr before_lin after_lin)) i)
    as [y|] eqn:Ey; [|discriminate].
  destruct (nth_error (mask (compute_rbr before_lin after_lin)) i)
    as [k|] eqn:Ek; [|discriminate].
  inversion Hi; subst x; clear Hi.
  destruct k; [reflexivity|].
  unfold compute_rbr in Ey, Ek. cbn [data mask] in Ey, Ek.
  rewrite ListFacts.nth_error_map2, nth_error_map, Ey in Ek.
  cbn [option_map] in Ek.
  destruct (nth_error (map2 orb (mask before_lin) (mask after_lin)) i)
    as [k0|]; [|discriminate].
  inversion Ek as [E]. apply orb_false_iff in E. destruct E as [_ E].
  now apply negb_false_iff in E.
Qed.

(** No raster that the tool writes holds a NaN or an infinity: every
    pixel is -9999.0 or a finite number. *)
Theorem written_ratio_is_finite (lib : WarpLib) (pw : PowLib) (db : bool)
  (fb fa : File) (evs : list event) (path : string) (r : Grid)
  (arr : list F.float) (x : F.float) :
  main lib pw db fb fa = Ok evs ->
  In (Wrote path r arr) evs -> In x arr ->
  F.isfinite x = true.
Proof.
  intros Hmain Hin Hx.
  destruct (RbrRuns.main_wrote lib pw db fb fa evs path r arr Hmain Hin)
    as (p & b & a & rbr & _ & _ & -> & _ & _ & Hr).
  destruct (rbr_for_is_compute_rbr lib pw db fb fa b a rbr Hr)
    as (b_band & a_band & b_lin & a_lin & _ & _ & _ & _ & ->).
  exact (out_array_finite b_lin a_lin x Hx).
Qed.

Lemma written_ratio_is_finite_witness :
  F.isfinite Samples.f32_big2 = true.
Proof.
  apply (written_ratio_is_finite Samples.no_warp Samples.no_pow false
           (Samples.one_band "before_VV.tif" None [Samples.f32_mbig])
           (Samples.one_band "after_VV.tif" None [Samples.f32_big])
           [InfoSkip VH;
            Wrote "RBR_VV.tiff" Samples.grid1 [Samples.f32_big2];
            OkStats "RBR_VV.tiff" [Samples.f32_big2];
            Done]
           "RBR_VV.tiff" Samples.grid1 [Samples.f32_big2]).
  - vm_compute. reflexivity.
  - right. now left.
  - now left.
Defined.

Lemma nth_error_combine {A B : Type} (l : list A) (m : list B) (i : nat)
  (a : A) (b : B) :
  nth_error l i = Some a -> nth_error m i = Some b ->
  nth_error (combine l m) i = Some (a, b).
Proof.
  revert l m. induction i as [|i IH]; intros [|x l] [|y m] H1 H2;
    cbn in *; try discriminate.
  - now inversion H1; inversion H2.
  - now apply IH.
Qed.

(** A pixel that is masked in BEFORE or in AFTER is masked in the burn
    ratio, holds -9999.0 in the raster, and is no part of the values of
    the statistics. *)
Theorem masked_input_pixel_is_nodata (before_lin after_lin : MaskedArray)
  (i : nat) (xb xa : F.float) (kb ka : bool) :
  nth_error (data before_lin) i = Some xb ->
  nth_error (mask before_lin) i = Some kb ->
  nth_error (data after_lin) i = Some xa ->
  nth_error (mask after_lin) i = Some ka ->
  kb || ka = true ->
  nth_error (mask (compute_rbr before_lin after_lin)) i = Some true
  /\ nth_error (out_array (compute_rbr before_lin after_lin)) i
     = Some NODATA_OUT
  /\ nth_error
       (map (fun xm => negb (snd xm))
            (combine (data (compute_rbr before_lin after_lin))
                     (mask (compute_rbr before_lin after_lin)))) i
     = Some false.
Proof.
  intros Hxb Hkb Hxa Hka Hk.
  destruct (RbrFacts.compute_rbr_nth before_lin after_lin i xb xa kb ka
              Hxb Hkb Hxa Hka) as [Hd Hm].
  rewrite (RbrFacts.rbr_px_masked_input xb xa kb ka Hk) in Hm.
  split; [exact Hm|]. split.
  - unfold out_array. now rewrite ListFacts.nth_error_map2, Hd, Hm.
  - rewrite nth_error_map.
    assert (Hc : nth_error (combine (data (compute_rbr before_lin after_lin))
                                    (mask (compute_rbr before_lin after_lin))) i
                 = Some (fst (rbr_px xb xa kb ka), true))
      by now apply nth_error_combine.
    now rewrite Hc.
Qed.

Lemma masked_input_pixel_is_nodata_witness :
  nth_error (out_array (compute_rbr (mkMA [F.nan] [true])
                                    (mkMA [Samples.f32_1] [false]))) 0
  = Some NODATA_OUT.
Proof.
  exact (proj1 (proj2 (masked_input_pixel_is_nodata
                         (mkMA [F.nan] [true]) (mkMA [Samples.f32_1] [false])
                         0 F.nan Samples.f32_1 true false
                         eq_refl eq_refl eq_refl eq_refl eq_refl))).
Defined.

Lemma length_map4 {A B C D E : Type} (f : A -> B -> C -> D -> E)
  (l : list A) :
  forall (n : nat) (m : list B) (o : list C) (q : list D),
    List.length l = n -> List.length m = n ->
    List.length o = n -> List.length q = n ->
    List.length (map4 f l m o q) = n.
Proof.
  induction l as [|a l IH]; intros n [|b m] [|c o] [|d q] H1 H2 H3 H4;
    cbn in *; subst; try discriminate; auto;
    try (f_equal; apply IH; auto; lia).
Qed.

Lemma compute_rbr_length (before_lin after_lin : MaskedArray) (n : nat) :
  List.length (data before_lin) = n -> List.length (mask before_lin) = n ->
  List.length (data after_lin) = n -> List.length (mask after_lin) = n ->
  List.length (data (compute_rbr before_lin after_lin)) = n
  /\ List.length (mask (compute_rbr before_lin after_lin)) = n.
Proof.
  intros H1 H2 H3 H4.
  assert (Hd : List.length (data (compute_rbr before_lin after_lin)) = n).
  { unfold compute_rbr, ma_divide, ma_binop, ma_binop_scalar, filled.
    cbn [data mask]. rewrite length_map.
    apply length_map4;
      repeat (rewrite ListFacts.length_map3 || rewrite ListFacts.length_map2);
      unfold F.float in *; lia. }
  split; [exact Hd|].
  unfold compute_rbr in *. cbn [data mask] in *.
  rewrite ListFacts.length_map2, length_map, Hd, ListFacts.length_map2.
  lia.
Qed.

Lemma to_linear_length (pw : PowLib) (ma : MaskedArray) (n : nat) :
  List.length (data ma) = n -> List.length (mask ma) = n ->
  List.length (data (to_linear pw ma)) = n
  /\ List.length (mask (to_linear pw ma)) = n.
Proof.
  intros H1 H2. unfold to_linear, ma_binop_scalar. cbn [data mask].
  rewrite length_map, ListFacts.length_map2. unfold F.float in *. lia.
Qed.

Lemma read_band_length (f : File) (b : nat) (ma : MaskedArray) :
  Avg.wf_file f = true -> read_band_masked (ds f) b = Ok ma ->
  List.length (data ma) = npix (grid (ds f))
  /\ List.length (mask ma) = npix (grid (ds f)).
Proof.
  unfold read_band_masked. intros Hwf H.
  destruct (read (ds f) b) as [arr|] eqn:Er; [|discriminate].
  inversion H; subst. cbn [data mask].
  destruct (AvgShapes.wf_file_band f b arr Hwf Er) as [Hl _].
  rewrite ReaderFacts.mask_of_length, AlignFacts.astype_f32_length.
  now split.
Qed.

(** Whether AFTER lies on the grid of BEFORE or is resampled to it, the
    raster written has one pixel per pixel of the grid of BEFORE. *)
Theorem written_ratio_has_the_shape_of_before (lib : WarpLib) (pw : PowLib)
  (db : bool) (fb fa : File) (evs : list event) (path : string) (r : Grid)
  (arr : list F.float) :
  Avg.wf_file fb = true -> Avg.wf_file fa = true ->
  main lib pw db fb fa = Ok evs ->
  In (Wrote path r arr) evs ->
  r = grid (ds fb) /\ List.length arr = npix (grid (ds fb)).
Proof.
  intros Hwb Hwa Hmain Hin.
  destruct (RbrRuns.main_wrote lib pw db fb fa evs path r arr Hmain Hin)
    as (p & b & a & rbr & _ & -> & -> & _ & _ & Hr).
  split; [reflexivity|].
  destruct (rbr_for_is_compute_rbr lib pw db fb fa b a rbr Hr)
    as (b_band & a_band & b_lin & a_lin & Eb & Ea & -> & -> & ->).
  destruct (read_band_length fb b b_band Hwb Eb) as [B1 B2].
  destruct (read_band_length fa a a_band Hwa Ea) as [A1 A2].
  set (n := npix (grid (ds fb))) in *.
  assert (Href : let a_ref :=
                   if negb (grids_match (grid (ds fb)) (grid (ds fa)))
                   then reproject_to_ref lib a_band (grid (ds fa))
                                         (grid (ds fb))
                   else a_band in
                 List.length (data a_ref) = n /\ List.length (mask a_ref) = n).
  { cbv zeta. destruct (grids_match (grid (ds fb)) (grid (ds fa))) eqn:Eg;
      cbn [negb].
    - unfold grids_match in Eg. apply AvgShapes.grid_eqb_npix in Eg.
      fold n in Eg. rewrite A1, A2. now split.
    - unfold reproject_to_ref. cbn [data mask].
      rewrite ListFacts.length_map2, !length_map, length_seq. fold n.
      split; lia. }
  cbv zeta in Href. destruct Href as [R1 R2].
  assert (Hlen : List.length (data (compute_rbr
                   (if db then to_linear pw b_band else b_band)
                   (if db
                    then to_linear pw
                           (if negb (grids_match (grid (ds fb)) (grid (ds fa)))
                            then reproject_to_ref lib a_band (grid (ds fa))
                                                  (grid (ds fb))
                            else a_band)
                    else if negb (grids_match (grid (ds fb)) (grid (ds fa)))
                         then reproject_to_ref lib a_band (grid (ds fa))
                                               (grid (ds fb))
                         else a_band))) = n
                 /\ List.length (mask (compute_rbr
                   (if db then to_linear pw b_band else b_band)
                   (if db
                    then to_linear pw
                           (if negb (grids_match (grid (ds fb)) (grid (ds fa)))
                            then reproject_to_ref lib a_band (grid (ds fa))
                                                  (grid (ds fb))
                            else a_band)
                    else if negb (grids_match (grid (ds fb)) (grid (ds fa)))
                         then reproject_to_ref lib a_band (grid (ds fa))
                                               (grid (ds fb))
                         else a_band))) = n).
  { destruct db.
    - destruct (to_linear_length pw b_band n B1 B2).
      destruct (to_linear_length pw _ n R1 R2).
      now apply compute_rbr_length.
    - now apply compute_rbr_length. }
  destruct Hlen as [L1 L2].
  unfold out_array. rewrite ListFacts.length_map2.
  cbv zeta. unfold F.float in *. rewrite L1, L2. lia.
Qed.

Lemma written_ratio_has_the_shape_of_before_witness :
  Samples.grid1 = grid (ds (Samples.one_band "before_VV.tif" None
                              [Samples.f32_mbig]))
  /\ List.length [Samples.f32_big2] = npix Samples.grid1.
Proof.
  apply (written_ratio_has_the_shape_of_before
           Samples.no_warp Samples.no_pow false
           (Samples.one_band "before_VV.tif" None [Samples.f32_mbig])
           (Samples.one_band "after_VV.tif" None [Samples.f32_big])
           [InfoSkip VH;
            Wrote "RBR_VV.tiff" Samples.grid1 [Samples.f32_big2];
            OkStats "RBR_VV.tiff" [Samples.f32_big2];
            Done]
           "RBR_VV.tiff" Samples.grid1 [Samples.f32_big2]).
  - reflexivity.
  - reflexivity.
  - vm_compute. reflexivity.
  - right. now left.
Defined.

End RbrWritten.

(** ** Rasters on one grid are not resampled *)

Module NoResampling.

Import Raster.

Lemma align_on_grid (lib lib' : WarpLib) (d : Dataset) (r : Grid)
  (band : MaskedArray) :
  Avg.same_grid d r = true -> Avg.align lib d r band = Avg.align lib' d r band.
Proof. intros H. unfold Avg.align. now rewrite H. Qed.

Lemma process_pol_on_grid (lib lib' : WarpLib) (f : File) (which : group)
  (r : Grid) (idx : pol -> option nat) (st : Avg.State) (p : pol) :
  Avg.same_grid (ds f) r = true ->
  Avg.process_pol lib f which r idx st p
  = Avg.process_pol lib' f which r idx st p.
Proof.
  intros H. unfold Avg.process_pol.
  destruct (idx p) as [b|]; [|reflexivity].
  destruct (Nat.eqb b 0 || Nat.ltb (count (ds f)) b); [reflexivity|].
  destruct (Avg.read_band_masked (ds f) b) as [band|]; [|reflexivity].
  now rewrite (align_on_grid lib lib' (ds f) r band H).
Qed.

Lemma process_file_on_grid (lib lib' : WarpLib) (st : Avg.State) (f : File) :
  Avg.same_grid (ds f)
    (match Avg.ref st with None => grid (ds f) | Some r => r end) = true ->
  Avg.process_file lib st f = Avg.process_file lib' st f.
Proof.
  intros H. unfold Avg.process_file.
  destruct (Avg.extract_date_from_name (name f)) as [[acq|]|e];
    cbn [bind]; [|reflexivity|reflexivity].
  cbv zeta. cbn [fold_result].
  rewrite (process_pol_on_grid lib lib' f _ _ _ _ VV H).
  destruct (Avg.process_pol lib' f _ _ _ _ VV) as [st1|e]; cbn [bind];
    [|reflexivity].
  now rewrite (process_pol_on_grid lib lib' f _ _ _ st1 VH H).
Qed.

Lemma process_file_ref (lib : WarpLib) (st st' : Avg.State) (f : File) :
  Avg.process_file lib st f = Ok st' ->
  Avg.ref st' = Avg.ref st
  \/ (Avg.ref st = None /\ Avg.ref st' = Some (grid (ds f))).
Proof.
  intros H.
  destruct (Avg.extract_date_from_name (name f)) as [[acq|]|e] eqn:E.
  - destruct (AvgLoop.process_dated lib st st' f acq E H) as (Hr & _).
    destruct (Avg.ref st) as [r|]; [now left|now right].
  - rewrite (AvgLoop.process_undated lib st f E) in H.
    inversion H; subst. now left.
  - unfold Avg.process_file in H. rewrite E in H. discriminate.
Qed.

Lemma process_files_on_grid (lib lib' : WarpLib) (all : list File)
  (files : list File) :
  (forall f f', In f all -> In f' all ->
                Avg.same_grid (ds f) (grid (ds f')) = true) ->
  (forall f, In f files -> In f all) ->
  forall st,
    (Avg.ref st = None
     \/ exists f0, In f0 all /\ Avg.ref st = Some (grid (ds f0))) ->
    Avg.process_files lib st files = Avg.process_files lib' st files.
Proof.
  intros Hall. induction files as [|f files IH]; intros Hsub st Hst;
    cbn [Avg.process_files]; [reflexivity|].
  assert (Hf : In f all) by (apply Hsub; now left).
  assert (Hg : Avg.same_grid (ds f)
                 (match Avg.ref st with
                  | None => grid (ds f)
                  | Some r => r
                  end) = true).
  { destruct Hst as [->|(f0 & H0 & ->)]; now apply Hall. }
  rewrite <- (process_file_on_grid lib lib' st f Hg).
  destruct (Avg.process_file lib st f) as [st'|e] eqn:E; cbn [bind];
    [|reflexivity].
  apply IH; [intros f' Hf'; apply Hsub; now right|].
  destruct (process_file_ref lib st st' f E) as [Hr|[_ Hr]].
  - rewrite Hr. exact Hst.
  - right. now exists f.
Qed.

(** When the rasters of the folder lie on one grid, the averager resamples
    none of them: what the reprojection library would compute has no
    part in the result.  The run then comes to an end, if the files are
    well-formed and no name makes the date constructor raise. *)
Theorem rasters_on_one_grid_are_not_resampled (lib lib' : WarpLib)
  (files : list File) :
  (forall f f', In f files -> In f' files ->
                Avg.same_grid (ds f) (grid (ds f')) = true) ->
  Avg.main lib files = Avg.main lib' files
  /\ (Avg.names_ok files = true -> forallb Avg.wf_file files = true ->
      exists evs, Avg.main lib files = Ok evs).
Proof.
  intros H. split.
  - unfold Avg.main. destruct files as [|f files]; [reflexivity|].
    now rewrite (process_files_on_grid lib lib' (f :: files) (f :: files) H
                   (fun f0 H0 => H0) Avg.init (or_introl eq_refl)).
  - intros Hn Hwf.
    destruct (AvgLoop.process_files_total lib files Hn H) as [st P].
    destruct (AvgMain.loop_finalize_ok lib files st Hwf P) as [es Hes].
    unfold Avg.main. destruct files as [|f files]; [now eexists|].
    rewrite P. cbn [bind]. rewrite Hes. cbn [bind]. now eexists.
Qed.

Lemma rasters_on_one_grid_are_not_resampled_witness :
  Avg.main Samples.no_warp Samples.two_files
  = Avg.main (mkWarpLib (fun _ _ _ _ => Samples.f32_1) (fun _ _ _ _ => true))
             Samples.two_files
  /\ exists evs, Avg.main Samples.no_warp Samples.two_files = Ok evs.
Proof.
  destruct (rasters_on_one_grid_are_not_resampled Samples.no_warp
              (mkWarpLib (fun _ _ _ _ => Samples.f32_1)
                         (fun _ _ _ _ => true))
              Samples.two_files) as [H1 H2].
  - intros f f' [<-|[<-|[]]] [<-|[<-|[]]]; reflexivity.
  - split; [exact H1|]. now apply H2.
Defined.

Lemma rbr_for_on_grid (lib lib' : WarpLib) (pw : Rbr.PowLib) (db : bool)
  (fb fa : File) (b a : nat) :
  Rbr.grids_match (grid (ds fb)) (grid (ds fa)) = true ->
  Rbr.rbr_for lib pw db fb fa b a = Rbr.rbr_for lib' pw db fb fa b a.
Proof. intros H. unfold Rbr.rbr_for. now rewrite H. Qed.

Lemma rbr_for_linear (lib : WarpLib) (pw pw' : Rbr.PowLib) (fb fa : File)
  (b a : nat) :
  Rbr.rbr_for lib pw false fb fa b a = Rbr.rbr_for lib pw' false fb fa b a.
Proof. reflexivity. Qed.

Lemma main_of_rbr_for (lib lib' : WarpLib) (pw pw' : Rbr.PowLib)
  (db db' : bool) (fb fa : File) :
  (forall b a, Rbr.rbr_for lib pw db fb fa b a
               = Rbr.rbr_for lib' pw' db' fb fa b a) ->
  Rbr.main lib pw db fb fa = Rbr.main lib' pw' db' fb fa.
Proof.
  intros H. unfold Rbr.main.
  set (pol_b := Rbr.find_pol_indices (ds fb) (name fb)).
  set (pol_a := Rbr.find_pol_indices (ds fa) (name fa)).
  assert (Hp : forall p,
             Rbr.process_pol lib pw db fb fa pol_b pol_a p
             = Rbr.process_pol lib' pw' db' fb fa pol_b pol_a p).
  { intros p. unfold Rbr.process_pol.
    destruct (Rbr.lookup p pol_b) as [b|]; [|reflexivity].
    destruct (Rbr.lookup p pol_a) as [a|]; [|reflexivity].
    now rewrite H. }
  assert (Hps : forall ps,
             Rbr.process_pols lib pw db fb fa pol_b pol_a ps
             = Rbr.process_pols lib' pw' db' fb fa pol_b pol_a ps).
  { induction ps as [|p ps IH]; cbn [Rbr.process_pols]; [reflexivity|].
    now rewrite Hp, IH. }
  now rewrite Hps.
Qed.

(** The burn-ratio tool resamples AFTER only when its grid differs from
    the grid of BEFORE, and takes the power of ten only with
    [--inputs-in-db]: otherwise what the reprojection library or the
    power function would compute has no part in the result. *)
Theorem ratio_uses_libraries_only_when_needed (lib : WarpLib)
  (pw : Rbr.PowLib) (db : bool) (fb fa : File) :
  (Rbr.grids_match (grid (ds fb)) (grid (ds fa)) = true ->
   forall lib', Rbr.main lib pw db fb fa = Rbr.main lib' pw db fb fa)
  /\ (forall pw', Rbr.main lib pw false fb fa = Rbr.main lib pw' false fb fa).
Proof.
  split.
  - intros Hg lib'. apply main_of_rbr_for. intros b a.
    now apply rbr_for_on_grid.
  - intros pw'. apply main_of_rbr_for. intros b a. apply rbr_for_linear.
Qed.

End NoResampling.

(** ** IEEE-754 facts: results of the operations *)

Module FloatOps.

Local Open Scope Z_scope.

Lemma Zdigits2_succ (a : Z) : 0 < a -> Zdigits2 (a + 1) <= Zdigits2 a + 1.
Proof.
  intros Ha. rewrite !FloatFacts.Zdigits2_log2 by lia.
  assert (Z.log2 (a + 1) <= Z.log2 (2 * a)) by (apply Z.log2_le_mono; lia).
  rewrite Z.log2_double in H by lia. lia.
Qed.

Section Shape.
Variables prec emax : Z.
Hypothesis Hprec : 0 < prec.

(** The rounding step returns a zero, a member of the format that is
    not much larger than what was to be rounded, or an infinity; the
    sign is kept. *)
Lemma binary_round_aux_shape (s : bool) (m e : Z) (l : location) :
  0 < m -> e <= fexp prec emax (Zdigits2 m + e) ->
  binary_round_aux prec emax s m e l = S754_zero s
  \/ (exists m2 e2,
        binary_round_aux prec emax s m e l = S754_finite s m2 e2
        /\ bounded prec emax m2 e2 = true
        /\ Zpos (digits2_pos m2) + e2
           <= Z.max (Zdigits2 m + e) (emin prec emax) + 1)
  \/ (binary_round_aux prec emax s m e l = S754_infinity s
      /\ emax - prec
         < fexp prec emax (Z.max (Zdigits2 m + e) (emin prec emax) + 1)).
Proof.
  intros Hm He. unfold binary_round_aux.
  pose proof (FloatFacts.shr_fexp_spec prec emax m e l ltac:(lia)) as H1.
  destruct (shr_fexp prec emax m e l) as [r1 e1].
  destruct H1 as (Hr1 & H1 & _). specialize (H1 He).
  remember (fexp prec emax (Zdigits2 m + e)) as F eqn:EF.
  destruct H1 as (He1 & Hd1 & Hz1). subst e1.
  set (m1' := round_nearest_even (shr_m r1) (loc_of_shr_record r1)).
  assert (Hm1' : m1' = shr_m r1 \/ m1' = shr_m r1 + 1)
    by apply FloatFacts.round_nearest_even_cases.
  pose proof (FloatFacts.shr_fexp_spec prec emax m1' F loc_Exact ltac:(lia))
    as H2.
  destruct (shr_fexp prec emax m1' F loc_Exact) as [r2 e2].
  destruct H2 as (Hr2 & H2 & H2').
  destruct (shr_m r2) as [|p2|p2] eqn:E2; try lia; [now left|].
  right.
  change (Zpos (digits2_pos p2)) with (Zdigits2 (Zpos p2)).
  assert (HF : emin prec emax <= F)
    by (rewrite EF; apply FloatFacts.fexp_ge_emin).
  assert (Hm1pos : 0 < m1').
  { destruct (Z.eq_dec m1' 0) as [Hz|]; [|lia]. exfalso.
    destruct (Z_le_gt_dec (fexp prec emax (Zdigits2 m1' + F)) F) as [Hc|Hc].
    - destruct (H2' Hc) as [Hs _]. lia.
    - rewrite Hz in Hc. simpl in Hc. unfold fexp in Hc. lia. }
  assert (Hbound : Zdigits2 m1' + F
                   <= Z.max (Zdigits2 m + e) (emin prec emax) + 1
                   /\ F <= fexp prec emax (Zdigits2 m1' + F)).
  { destruct (Z.eq_dec (shr_m r1) 0) as [Hz|Hnz].
    - destruct (Hz1 Hz) as [?|Hall]; [lia|].
      assert (HFe : F = emin prec emax)
        by (rewrite EF in *; unfold fexp in *; lia).
      assert (m1' = 1) by lia. subst m1'. rewrite H. cbn [Zdigits2 digits2_pos].
      split; [lia|]. rewrite HFe at 1. apply FloatFacts.fexp_ge_emin.
    - specialize (Hd1 ltac:(lia)).
      assert (Hdd : Zdigits2 (shr_m r1) <= Zdigits2 m1')
        by (apply FloatFacts.Zdigits2_mono; lia).
      assert (Hdu : Zdigits2 m1' <= Zdigits2 (shr_m r1) + 1).
      { destruct Hm1' as [->| ->]; [lia|]. apply Zdigits2_succ. lia. }
      split; [lia|].
      assert (HFF : F = fexp prec emax (Zdigits2 (shr_m r1) + F))
        by (rewrite Hd1; exact EF).
      rewrite HFF at 1. apply FloatFacts.fexp_mono. lia. }
  destruct Hbound as [Hb Hpre].
  destruct (H2 Hpre) as (He2 & Hd2 & _). specialize (Hd2 ltac:(lia)).
  cbn [Zdigits2] in Hd2.
  destruct (Z.leb e2 (emax - prec)) eqn:Hle.
  - left. exists p2, e2. split; [reflexivity|]. split; [|lia].
    unfold bounded, canonical_mantissa. rewrite Hle, andb_true_r.
    apply Z.eqb_eq. rewrite Hd2. lia.
  - right. split; [reflexivity|]. apply Z.leb_gt in Hle.
    assert (fexp prec emax (Zdigits2 m1' + F)
            <= fexp prec emax (Z.max (Zdigits2 m + e) (emin prec emax) + 1))
      by (apply FloatFacts.fexp_mono; lia).
    lia.
Qed.

(** Rounding a number that is not zero returns a zero, a member of the
    format or an infinity, of the sign of the number. *)
Lemma binary_round_shape (s : bool) (m : positive) (e : Z) :
  binary_round prec emax s m e = S754_zero s
  \/ (exists m2 e2, binary_round prec emax s m e = S754_finite s m2 e2
                    /\ bounded prec emax m2 e2 = true)
  \/ binary_round prec emax s m e = S754_infinity s.
Proof.
  assert (H : forall mz ez,
             ez <= fexp prec emax (Zdigits2 (Zpos mz) + ez) ->
             binary_round_aux prec emax s (Zpos mz) ez loc_Exact = S754_zero s
             \/ (exists m2 e2,
                   binary_round_aux prec emax s (Zpos mz) ez loc_Exact
                   = S754_finite s m2 e2
                   /\ bounded prec emax m2 e2 = true)
             \/ binary_round_aux prec emax s (Zpos mz) ez loc_Exact
                = S754_infinity s).
  { intros mz ez Hz.
    destruct (binary_round_aux_shape s (Zpos mz) ez loc_Exact ltac:(lia) Hz)
      as [E|[(m2 & e2 & E & Hb & _)|[E _]]]; auto.
    right. left. now exists m2, e2. }
  unfold binary_round, shl_align.
  destruct (fexp prec emax (Zpos (digits2_pos m) + e) - e) as [|p|p] eqn:En.
  - apply H. simpl Zdigits2. lia.
  - apply H. simpl Zdigits2. lia.
  - apply H. cbn [Zdigits2]. rewrite (FloatFacts.digits_pos_iter m p).
    replace (Zpos (digits2_pos m) + Zpos p
             + fexp prec emax (Zpos (digits2_pos m) + e))
      with (Zpos (digits2_pos m) + e) by lia.
    lia.
Qed.

Lemma binary_normalize_valid (m e : Z) (sz : bool) :
  valid_binary prec emax (binary_normalize prec emax m e sz) = true
  /\ binary_normalize prec emax m e sz <> S754_nan.
Proof.
  unfold binary_normalize. destruct m as [|p|p].
  - split; [reflexivity|discriminate].
  - destruct (binary_round_shape false p e)
      as [E|[(m2 & e2 & E & Hb)|E]]; rewrite E; split;
      try reflexivity; try discriminate; exact Hb.
  - destruct (binary_round_shape true p e)
      as [E|[(m2 & e2 & E & Hb)|E]]; rewrite E; split;
      try reflexivity; try discriminate; exact Hb.
Qed.

(** Sums and differences of members of the format are members of the
    format, and no NaN unless an operand is a NaN or both are
    infinities. *)
Lemma SFadd_valid (x y : spec_float) :
  valid_binary prec emax x = true -> valid_binary prec emax y = true ->
  valid_binary prec emax (SFadd prec emax x y) = true.
Proof.
  destruct x as [sx|sx| |sx mx ex], y as [sy|sy| |sy my ey]; cbn [SFadd];
    intros Hx Hy; try assumption; try reflexivity;
    try (destruct sx, sy; assumption || reflexivity).
  apply binary_normalize_valid.
Qed.

Lemma SFsub_valid (x y : spec_float) :
  valid_binary prec emax x = true -> valid_binary prec emax y = true ->
  valid_binary prec emax (SFsub prec emax x y) = true.
Proof.
  destruct x as [sx|sx| |sx mx ex], y as [sy|sy| |sy my ey]; cbn [SFsub];
    intros Hx Hy; try assumption; try reflexivity;
    try (destruct sx, sy; assumption || reflexivity).
  apply binary_normalize_valid.
Qed.

Lemma SFadd_not_nan (x y : spec_float) :
  F.isfinite x = true -> F.isnan y = false ->
  F.isnan (SFadd prec emax x y) = false.
Proof.
  destruct x as [sx|sx| |sx mx ex], y as [sy|sy| |sy my ey]; cbn [SFadd];
    intros Hx Hy; try discriminate; try reflexivity;
    try (destruct sx, sy; reflexivity).
  destruct (binary_normalize_valid
              (cond_Zopp sx (Zpos (fst (shl_align mx ex (Z.min ex ey))))
               + cond_Zopp sy (Zpos (fst (shl_align my ey (Z.min ex ey)))))
              (Z.min ex ey) false) as [_ Hn].
  destruct (binary_normalize prec emax _ _ _); try reflexivity. congruence.
Qed.

End Shape.

End FloatOps.

(** ** The burn ratio at a pixel that is valid in both inputs *)

Module RbrValues.

Import Raster Rbr.

Local Open Scope Z_scope.

Lemma f32_magnitude (m : positive) (e : Z) :
  bounded 24 128 m e = true ->
  -148 <= Zpos (digits2_pos m) + e <= 128.
Proof.
  unfold bounded, canonical_mantissa, fexp, emin. intros H.
  apply andb_true_iff in H. destruct H as [Hc He].
  apply Z.eqb_eq in Hc. apply Z.leb_le in He.
  pose proof (Pos2Z.is_pos (digits2_pos m)). lia.
Qed.

Lemma f64_exponent (m : positive) (e : Z) :
  bounded 53 1024 m e = true ->
  e = Z.max (Zpos (digits2_pos m) + e - 53) (-1074).
Proof.
  unfold bounded, canonical_mantissa, fexp, emin. intros H.
  apply andb_true_iff in H. destruct H as [Hc _].
  apply Z.eqb_eq in Hc. lia.
Qed.

(** A finite [float32] number, without its sign, as a [float64] number. *)
Lemma abs_to_f64 (s : bool) (m : positive) (e : Z) :
  bounded 24 128 m e = true ->
  exists m' e',
    F.to_f64 (F.abs (S754_finite s m e)) = S754_finite false m' e'
    /\ bounded 53 1024 m' e' = true
    /\ Zpos (digits2_pos m') + e' = Zpos (digits2_pos m) + e.
Proof.
  intros H. cbn [F.abs SFabs].
  destruct (FloatFacts.to_f64_of_f32 false m e H) as (k & E & Hb).
  exists (Pos.iter xO m k), (e - Zpos k). split; [exact E|].
  split; [exact Hb|]. apply (FloatFacts.digits_shift 53 1024).
Qed.

Lemma digits_mul_pow2 (m : positive) :
  Zdigits2 (Zpos (m * 4503599627370496)) = Zpos (digits2_pos m) + 52.
Proof.
  rewrite Pos2Z.inj_mul. change (Zpos 4503599627370496) with (2 ^ 52).
  rewrite FloatFacts.Zdigits2_log2 by lia.
  rewrite Z.log2_mul_pow2 by lia.
  change (Zpos (digits2_pos m)) with (Zdigits2 (Zpos m)).
  rewrite FloatFacts.Zdigits2_log2 by lia. lia.
Qed.

(** [np.absolute(a) * tiny] for a finite [float32] number [a]: a zero, or
    a number far below the least positive [float32] number. *)
Lemma times_tiny (a : F.float) :
  F.is_f32 a = true -> F.isfinite a = true ->
  F.mul64 (F.to_f64 (F.abs a)) tiny = S754_zero false
  \/ exists mp ep,
       F.mul64 (F.to_f64 (F.abs a)) tiny = S754_finite false mp ep
       /\ ep <= -946.
Proof.
  destruct a as [s|s| |s m e]; try discriminate; intros Hv _.
  - left. reflexivity.
  - destruct (abs_to_f64 s m e Hv) as (m' & e' & E & Hb & Hd).
    rewrite E. pose proof (f32_magnitude m e Hv) as Hmag.
    unfold F.mul64, F.prec64, F.emax64, tiny. cbn [SFmul xorb].
    destruct (FloatOps.binary_round_aux_shape 53 1024 ltac:(lia) false
                (Zpos (m' * 4503599627370496)) (e' + -1074) loc_Exact
                ltac:(lia))
      as [E0|[(mp & ep & E1 & Hbp & Hdp)|[E2 Hov]]].
    + rewrite digits_mul_pow2. unfold fexp, emin.
      pose proof (Pos2Z.is_pos (digits2_pos m')). lia.
    + now left.
    + right. exists mp, ep. split; [exact E1|].
      rewrite digits_mul_pow2 in Hdp. unfold emin in Hdp.
      pose proof (f64_exponent mp ep Hbp). lia.
    + exfalso. rewrite digits_mul_pow2 in Hov. unfold fexp, emin in Hov.
      lia.
Qed.

(** The domain test of [np.ma.divide] does not fire on [float32]
    operands unless the denominator is zero. *)
Lemma domain_of_divide (a b : F.float) :
  F.is_f32 a = true -> F.isfinite a = true ->
  F.is_f32 b = true -> F.isnan b = false ->
  (forall s, b <> S754_zero s) ->
  domain_safe_divide a b = false.
Proof.
  intros Ha Hfa Hb Hnb Hzb. unfold domain_safe_divide.
  destruct (times_tiny a Ha Hfa) as [E|(mp & ep & E & Hep)]; rewrite E.
  - destruct b as [s|s| |s m e]; try discriminate.
    + exfalso. now apply (Hzb s).
    + reflexivity.
    + destruct (abs_to_f64 s m e Hb) as (m' & e' & E' & _). now rewrite E'.
  - destruct b as [s|s| |s m e]; try discriminate.
    + exfalso. now apply (Hzb s).
    + reflexivity.
    + destruct (abs_to_f64 s m e Hb) as (m' & e' & E' & Hb' & Hd').
      rewrite E'. pose proof (f32_magnitude m e Hb) as Hmag.
      pose proof (f64_exponent m' e' Hb') as He'.
      unfold F.leb, SFleb. cbn [SFcompare].
      assert (Hgt : (e' ?= ep) = Gt) by (apply Z.compare_gt_iff; lia).
      now rewrite Hgt.
Qed.

(** A finite quotient has a finite numerator and a denominator that is
    no zero and no NaN. *)
Lemma finite_quotient (prec emax : Z) (x y : F.float) :
  F.isfinite (SFdiv prec emax x y) = true ->
  F.isfinite x = true /\ F.isnan y = false /\ forall s, y <> S754_zero s.
Proof.
  destruct x as [sx|sx| |sx mx ex], y as [sy|sy| |sy my ey]; cbn [SFdiv];
    intros H; try discriminate; repeat split; intros; discriminate.
Qed.

Lemma EPS32_is_f32 : F.is_f32 EPS32 = true.
Proof. reflexivity. Qed.

(** The numerator and the denominator of the ratio are [float32]
    numbers. *)
Lemma ratio_operands (xb xa : F.float) :
  F.is_f32 xb = true -> F.is_f32 xa = true ->
  F.is_f32 (F.sub32 xa xb) = true
  /\ F.is_f32 (F.add32 (F.add32 xa xb) EPS32) = true.
Proof.
  intros Hb Ha. split.
  - apply FloatOps.SFsub_valid; [reflexivity|assumption|assumption].
  - apply FloatOps.SFadd_valid; [reflexivity| |exact EPS32_is_f32].
    apply FloatOps.SFadd_valid; [reflexivity|assumption|assumption].
Qed.

(** Adding a zero of either sign. *)
Lemma add_zero_eqb (prec emax : Z) (q : F.float) (s : bool) :
  F.isfinite q = true ->
  F.isfinite (SFadd prec emax q (S754_zero s)) = true
  /\ F.eqb (SFadd prec emax q (S754_zero s)) q = true.
Proof.
  destruct q as [sq|sq| |sq mq eq]; try discriminate; intros _; cbn [SFadd].
  - destruct sq, s; split; reflexivity.
  - split; [reflexivity|]. now apply FloatFacts.eqb_refl_finite.
Qed.

Lemma mul_zero (prec emax : Z) (x : F.float) :
  F.isfinite x = true -> exists s, SFmul prec emax F.zero x = S754_zero s.
Proof.
  destruct x as [sx|sx| |sx mx ex]; try discriminate; intros _;
    cbn [F.zero SFmul]; eexists; reflexivity.
Qed.

(** At a pixel valid in both inputs whose ratio is finite, the result is
    valid and holds the ratio. *)
Lemma rbr_px_finite_ratio (xb xa : F.float) :
  F.is_f32 xb = true -> F.is_f32 xa = true ->
  F.isfinite (ratio xb xa) = true ->
  exists r,
    rbr_px xb xa false false = (r, false)
    /\ F.eqb r (ratio xb xa) = true.
Proof.
  intros Hb Ha Hq. rewrite RbrFacts.rbr_px_valid_inputs. cbv zeta.
  destruct (ratio_operands xb xa Hb Ha) as [Hnum Hden].
  pose proof Hq as Hq'. unfold ratio, F.div32 in Hq'.
  apply finite_quotient in Hq'. destruct Hq' as (Hfn & Hnd & Hzd).
  rewrite (domain_of_divide _ _ Hnum Hfn Hden Hnd Hzd), Hq.
  cbn [negb orb bool32].
  destruct (mul_zero F.prec32 F.emax32 (F.sub32 xa xb) Hfn) as [s Es].
  unfold F.mul32. rewrite Es.
  destruct (add_zero_eqb F.prec32 F.emax32 (ratio xb xa) s Hq) as [Hf He].
  unfold F.add32 at 1 2. rewrite Hf. cbn [negb].
  eexists. split; [reflexivity|exact He].
Qed.

(** Wherever both inputs are valid and the ratio
    [(after - before) / (after + before + EPS)], taken in [float32], is
    finite, the pixel of the burn ratio is valid and the raster holds
    the ratio there. *)
Theorem valid_pixel_holds_the_ratio (before_lin after_lin : MaskedArray)
  (i : nat) (xb xa : F.float) :
  nth_error (data before_lin) i = Some xb ->
  nth_error (mask before_lin) i = Some false ->
  nth_error (data after_lin) i = Some xa ->
  nth_error (mask after_lin) i = Some false ->
  F.is_f32 xb = true -> F.is_f32 xa = true ->
  F.isfinite (ratio xb xa) = true ->
  nth_error (mask (compute_rbr before_lin after_lin)) i = Some false
  /\ exists y,
       nth_error (out_array (compute_rbr before_lin after_lin)) i = Some y
       /\ F.eqb y (ratio xb xa) = true.
Proof.
  intros Hxb Hkb Hxa Hka Hb Ha Hq.
  destruct (RbrFacts.compute_rbr_nth before_lin after_lin i xb xa false false
              Hxb Hkb Hxa Hka) as [Hd Hm].
  destruct (rbr_px_finite_ratio xb xa Hb Ha Hq) as (r & Er & He).
  rewrite Er in Hd, Hm. cbn [fst snd] in Hd, Hm.
  split; [exact Hm|]. exists r. split; [|exact He].
  unfold out_array. now rewrite ListFacts.nth_error_map2, Hd, Hm.
Qed.

Lemma valid_pixel_holds_the_ratio_witness :
  exists y,
    nth_error (out_array (compute_rbr (mkMA [Samples.f32_1] [false])
                                      (mkMA [Samples.f32_3] [false]))) 0
    = Some y
    /\ F.eqb y (ratio Samples.f32_1 Samples.f32_3) = true.
Proof.
  apply (valid_pixel_holds_the_ratio
           (mkMA [Samples.f32_1] [false]) (mkMA [Samples.f32_3] [false])
           0 Samples.f32_1 Samples.f32_3); reflexivity.
Defined.

End RbrValues.

(** ** The burn ratio of a raster with itself, and with the inputs
    exchanged *)

Module RbrSymmetry.

Import Raster Rbr.

Local Open Scope Z_scope.

Lemma sub_self (prec emax : Z) (x : F.float) :
  F.isfinite x = true -> SFsub prec emax x x = S754_zero false.
Proof.
  destruct x as [s|s| |s m e]; try discriminate; intros _; cbn [SFsub].
  - now destruct s.
  - now rewrite Z.sub_diag.
Qed.

Lemma SFadd_not_nan_r (prec emax : Z) (x y : F.float) :
  0 < prec -> F.isnan x = false -> F.isfinite y = true ->
  F.isnan (SFadd prec emax x y) = false.
Proof.
  intros Hp Hx Hy.
  destruct x as [sx|sx| |sx mx ex]; try discriminate.
  - now apply FloatOps.SFadd_not_nan; [|reflexivity|destruct y].
  - destruct y; try discriminate; reflexivity.
  - now apply FloatOps.SFadd_not_nan; [|reflexivity|destruct y].
Qed.

(** The ratio of a finite number with itself: the result of
    [compute_rbr] at the pixel is valid and holds +0. *)
Lemma rbr_px_same (x : F.float) :
  F.isfinite x = true -> F.is_f32 x = true ->
  rbr_px x x false false = (F.zero, false).
Proof.
  intros Hf Hv. rewrite RbrFacts.rbr_px_valid_inputs. cbv zeta.
  unfold ratio, F.sub32. rewrite (sub_self F.prec32 F.emax32 x Hf).
  destruct (RbrValues.ratio_operands x x Hv Hv) as [_ Hden].
  assert (Hnn : F.isnan (F.add32 (F.add32 x x) EPS32) = false).
  { apply SFadd_not_nan_r; [reflexivity| |reflexivity].
    apply FloatOps.SFadd_not_nan; [reflexivity|exact Hf|now destruct x]. }
  destruct (F.add32 (F.add32 x x) EPS32) as [sd|sd| |sd md ed] eqn:Ed;
    try discriminate.
  - (* the denominator is zero *)
    now destruct sd.
  - (* the denominator is an infinity *)
    now destruct sd.
  - rewrite (RbrValues.domain_of_divide (S754_zero false)
               (S754_finite sd md ed) eq_refl eq_refl Hden eq_refl)
      by (intros s; discriminate).
    now destruct sd.
Qed.

(** The burn ratio of a raster with itself, for a band of finite
    [float32] values at the unmasked pixels: zero at every pixel, with
    the mask of the band. *)
Theorem ratio_of_a_raster_with_itself (ma : MaskedArray) :
  List.length (mask ma) = List.length (data ma) ->
  (forall i x, nth_error (data ma) i = Some x ->
               nth_error (mask ma) i = Some false ->
               F.isfinite x = true /\ F.is_f32 x = true) ->
  compute_rbr ma ma = mkMA (map (fun _ => F.zero) (data ma)) (mask ma)
  /\ out_array (compute_rbr ma ma)
     = map (fun k : bool => if k then NODATA_OUT else F.zero) (mask ma).
Proof.
  intros Hl Hval.
  assert (Hpx : forall i x k,
             nth_error (data ma) i = Some x -> nth_error (mask ma) i = Some k ->
             rbr_px x x k k = (F.zero, k)).
  { intros i x k Hx Hk. destruct k.
    - reflexivity.
    - destruct (Hval i x Hx Hk) as [Hf Hv]. now apply rbr_px_same. }
  assert (E : compute_rbr ma ma
              = mkMA (map (fun _ => F.zero) (data ma)) (mask ma)).
  { assert (Hd : data (compute_rbr ma ma) = map (fun _ => F.zero) (data ma)
                 /\ mask (compute_rbr ma ma) = mask ma).
    { split; apply nth_error_ext; intros i.
      - rewrite nth_error_map.
        destruct (nth_error (data ma) i) as [x|] eqn:Ex.
        + destruct (nth_error (mask ma) i) as [k|] eqn:Ek.
          * destruct (RbrFacts.compute_rbr_nth ma ma i x x k k Ex Ek Ex Ek)
              as [Hd _].
            rewrite Hd, (Hpx i x k Ex Ek). reflexivity.
          * exfalso. apply nth_error_None in Ek.
            assert (nth_error (data ma) i <> None) by congruence.
            apply nth_error_Some in H. unfold F.float in *. lia.
        + cbn [option_map]. apply nth_error_None.
          apply nth_error_None in Ex.
          destruct (RbrWritten.compute_rbr_length ma ma
                      (List.length (data ma)) eq_refl Hl eq_refl Hl)
            as [L1 L2].
          unfold F.float in *. lia.
      - destruct (nth_error (mask ma) i) as [k|] eqn:Ek.
        + destruct (nth_error (data ma) i) as [x|] eqn:Ex.
          * destruct (RbrFacts.compute_rbr_nth ma ma i x x k k Ex Ek Ex Ek)
              as [_ Hm].
            rewrite Hm, (Hpx i x k Ex Ek). reflexivity.
          * exfalso. apply nth_error_None in Ex.
            assert (nth_error (mask ma) i <> None) by congruence.
            apply nth_error_Some in H. unfold F.float in *. lia.
        + apply nth_error_None. apply nth_error_None in Ek.
          destruct (RbrWritten.compute_rbr_length ma ma
                      (List.length (data ma)) eq_refl Hl eq_refl Hl)
            as [L1 L2].
          unfold F.float in *. lia. }
    destruct Hd as [Hd Hm]. destruct (compute_rbr ma ma) as [d m].
    cbn [data mask] in Hd, Hm. now subst. }
  split; [exact E|]. rewrite E. unfold out_array. cbn [data mask].
  apply nth_error_ext. intros i.
  rewrite ListFacts.nth_error_map2, !nth_error_map.
  destruct (nth_error (data ma) i) as [x|] eqn:Ex;
    destruct (nth_error (mask ma) i) as [k|] eqn:Ek; cbn [option_map];
    try reflexivity.
  exfalso. apply nth_error_None in Ex.
  assert (nth_error (mask ma) i <> None) by congruence.
  apply nth_error_Some in H. unfold F.float in *. lia.
Qed.

Lemma ratio_of_a_raster_with_itself_witness :
  out_array (compute_rbr (mkMA [Samples.f32_2; F.nan] [false; true])
                         (mkMA [Samples.f32_2; F.nan] [false; true]))
  = [F.zero; NODATA_OUT].
Proof.
  refine (proj2 (ratio_of_a_raster_with_itself
                   (mkMA [Samples.f32_2; F.nan] [false; true]) eq_refl _)).
  intros [|[|[|i]]] x Hx Hk; cbn in Hx, Hk; try discriminate.
  inversion Hx; subst. split; reflexivity.
Defined.

End RbrSymmetry.

(** ** The averager: a name that is no date, and the images counted *)

Module AvgCounts.

Import Raster Avg.




(** The test of [main] lets through exactly the bands that the resolver
    names. *)
Lemma has_band_resolved (f : File) (p : pol) :
  has_band f p = negb (is_none (find_vv_vh_indices (ds f) (name f) p)).
Proof.
  unfold has_band.
  destruct (find_vv_vh_indices (ds f) (name f) p) as [b|] eqn:E;
    [|reflexivity].
  rewrite ResolverFacts.find_vv_vh_indices_spec in E.
  apply ResolverFacts.resolve_spec_in_range in E.
  cbn [is_none negb]. apply negb_true_iff, orb_false_iff.
  split; [apply Nat.eqb_neq|apply Nat.ltb_ge]; lia.
Qed.

Lemma records_length (lib : WarpLib) (r : Grid) (g : group) (p : pol)
  (files : list File) :
  (forall f, In f files -> contributes f = true ->
             same_grid (ds f) r = true) ->
  List.length (records lib r g p files)
  = List.length
      (filter (fun f =>
                 match extract_date_from_name (name f) with
                 | Ok (Some acq) =>
                     group_eqb (group_of acq) g
                     && negb (is_none
                                (find_vv_vh_indices (ds f) (name f) p))
                 | _ => false
                 end) files).
Proof.
  induction files as [|f files IH]; intros Hon; [reflexivity|].
  rewrite AvgLoop.records_cons, length_app, IH
    by (intros f' Hf'; apply Hon; now right).
  cbn [filter]. unfold records. cbn [flat_map]. unfold contribution.
  rewrite <- has_band_resolved.
  specialize (Hon f (or_introl eq_refl)). unfold contributes, has_date in Hon.
  destruct (extract_date_from_name (name f)) as [[acq|]|e];
    try reflexivity.
  destruct (has_band f p) eqn:Hb.
  - assert (Hg : same_grid (ds f) r = true).
    { apply Hon. destruct p; rewrite Hb; cbn [andb orb];
        [reflexivity|apply orb_true_r]. }
    destruct (AvgLoop.band_record_on_ref lib r f p Hb Hg)
      as (b & band & _ & _ & ->).
    cbn [option_map]. rewrite andb_true_r.
    destruct (group_eqb (group_of acq) g); reflexivity.
  - rewrite (AvgLoop.band_record_no_band lib r f p Hb). cbn [option_map].
    now rewrite andb_false_r.
Qed.

(** The number of contributing images of a pair, which the [OK] line
    reports, is the number of the files dated in the group in which the
    polarization resolves to a band, whether or not a pixel of the band
    is valid. *)
Theorem contributing_images_are_resolved_bands (lib : WarpLib)
  (files : list File) (st : State) (g : group) (p : pol) :
  process_files lib init files = Ok st ->
  total_used st g p
  = List.length
      (filter (fun f =>
                 match extract_date_from_name (name f) with
                 | Ok (Some acq) =>
                     group_eqb (group_of acq) g
                     && negb (is_none
                                (find_vv_vh_indices (ds f) (name f) p))
                 | _ => false
                 end) files).
Proof.
  intros H.
  destruct (AvgLoop.process_files_init lib files init st eq_refl H)
    as (_ & Hsome & Hnone).
  destruct (ref_of files) as [r|] eqn:Er.
  - destruct (Hsome r g p eq_refl) as [_ Ht]. cbn [init total_used] in Ht.
    rewrite Ht. apply records_length.
    destruct (proj1 (AvgLoop.process_files_returns lib files init eq_refl)
                (ex_intro _ st H)) as [_ Hon].
    unfold on_ref_grid in Hon. rewrite Er in Hon.
    rewrite forallb_forall in Hon. intros f Hf Hc.
    specialize (Hon f Hf). now rewrite Hc in Hon.
  - destruct (Hnone eq_refl g p) as [_ Ht]. cbn [init total_used] in Ht.
    rewrite Ht. clear - Er.
    induction files as [|f files IH]; [reflexivity|].
    cbn [ref_of filter] in *.
    destruct (extract_date_from_name (name f)) as [[acq|]|e];
      [discriminate|now apply IH|now apply IH].
Qed.

(** One image, without a valid pixel: it is counted. *)
Lemma contributing_images_are_resolved_bands_witness :
  total_used
    (match process_files Samples.no_warp init
             [Samples.one_band "S1_20230101_VV.tif" None [F.nan]] with
     | Ok st => st
     | Raise _ => init
     end) before VV
  = 1%nat.
Proof.
  exact (contributing_images_are_resolved_bands Samples.no_warp
           [Samples.one_band "S1_20230101_VV.tif" None [F.nan]]
           _ before VV eq_refl).
Defined.

End AvgCounts.

(** ** From the averager to the burn-ratio tool *)

Module PipelineFacts.

Import Raster Pipeline.



(** The reader masks the pixels of an average that hold -9999.0. *)
Lemma nodata_pixel_is_masked (array : list F.float) (i : nat) :
  nth_error array i = Some NODATA_OUT ->
  nth_error (mask_of float32 (Some nodata_py) array) i = Some true.
Proof.
  intros H. rewrite ReaderFacts.mask_of_nth, H. reflexivity.
Qed.



End PipelineFacts.

(** ** The burn ratio with BEFORE and AFTER exchanged *)

Module RbrSwap.

Import Raster Rbr FloatSign.

Local Open Scope Z_scope.

Lemma SFopp_involutive (x : F.float) : SFopp (SFopp x) = x.
Proof. destruct x; cbn; now rewrite ?negb_involutive. Qed.

Lemma opposite_sym (x y : F.float) : opposite x y -> opposite y x.
Proof.
  intros [->|(s & s' & -> & ->)].
  - left. now rewrite SFopp_involutive.
  - right. now exists s', s.
Qed.

Lemma opposite_opp (x : F.float) : opposite (SFopp x) x.
Proof. now left. Qed.

Lemma opposite_zeros (s s' : bool) : opposite (S754_zero s) (S754_zero s').
Proof. right. now exists s, s'. Qed.

Lemma opposite_nan : opposite S754_nan S754_nan.
Proof. now left. Qed.

Lemma opposite_finite (x y : F.float) :
  opposite x y -> F.isfinite x = F.isfinite y.
Proof. intros [->|(s & s' & -> & ->)]; [now destruct y|reflexivity]. Qed.

Lemma opposite_abs (x y : F.float) : opposite x y -> SFabs x = SFabs y.
Proof. intros [->|(s & s' & -> & ->)]; [now destruct y|reflexivity]. Qed.

Lemma opposite_eqb (x y : F.float) :
  opposite x y -> F.isfinite x = true -> F.eqb x (SFopp y) = true.
Proof.
  intros [->|(s & s' & -> & ->)] Hf.
  - now apply FloatFacts.eqb_refl_finite.
  - reflexivity.
Qed.

(** Rounding is symmetric in the sign. *)
Lemma binary_round_aux_opp (prec emax : Z) (s : bool) (m e : Z)
  (l : location) :
  binary_round_aux prec emax (negb s) m e l
  = SFopp (binary_round_aux prec emax s m e l).
Proof.
  unfold binary_round_aux.
  destruct (shr_fexp prec emax m e l) as [r1 e1].
  destruct (shr_fexp prec emax _ e1 loc_Exact) as [r2 e2].
  destruct (shr_m r2); [reflexivity| |reflexivity].
  now destruct (e2 <=? emax - prec).
Qed.

Lemma binary_round_opp (prec emax : Z) (s : bool) (m : positive) (e : Z) :
  binary_round prec emax (negb s) m e = SFopp (binary_round prec emax s m e).
Proof.
  unfold binary_round.
  destruct (shl_align m e (fexp prec emax (Zpos (digits2_pos m) + e)))
    as [mz ez].
  apply binary_round_aux_opp.
Qed.

Lemma binary_normalize_opp (prec emax : Z) (z e : Z) :
  opposite (binary_normalize prec emax (- z) e false)
           (binary_normalize prec emax z e false).
Proof.
  destruct z as [|p|p]; cbn [Z.opp binary_normalize].
  - apply opposite_zeros.
  - left. apply (binary_round_opp prec emax false).
  - apply opposite_sym. left. apply (binary_round_opp prec emax false).
Qed.

Lemma cond_Zopp_negb (s : bool) (z : Z) : cond_Zopp (negb s) z = - cond_Zopp s z.
Proof. destruct s; cbn; lia. Qed.

(** [y - x] is the opposite of [x - y]. *)
Lemma sub_swap (prec emax : Z) (x y : F.float) :
  opposite (SFsub prec emax x y) (SFsub prec emax y x).
Proof.
  destruct x as [sx|sx| |sx mx ex], y as [sy|sy| |sy my ey]; cbn [SFsub];
    try apply opposite_nan;
    try (destruct sx, sy; first [apply opposite_zeros | apply opposite_nan
                                | now left]);
    try (left; cbn [SFopp]; now rewrite ?negb_involutive).
  rewrite (Z.min_comm ey ex).
  set (A := cond_Zopp sx (Zpos (fst (shl_align mx ex (Z.min ex ey))))).
  set (B := cond_Zopp sy (Zpos (fst (shl_align my ey (Z.min ex ey))))).
  replace (A - B) with (- (B - A)) by lia.
  apply binary_normalize_opp.
Qed.

Lemma add_comm (prec emax : Z) (x y : F.float) :
  SFadd prec emax x y = SFadd prec emax y x.
Proof.
  destruct x as [sx|sx| |sx mx ex], y as [sy|sy| |sy my ey]; cbn [SFadd];
    try reflexivity; try (now destruct sx, sy).
  now rewrite (Z.min_comm ey ex), Z.add_comm.
Qed.

Lemma div_opposite (prec emax : Z) (a a' d : F.float) :
  opposite a a' -> opposite (SFdiv prec emax a d) (SFdiv prec emax a' d).
Proof.
  intros [->|(s & s' & -> & ->)].
  - left.
    destruct a' as [sa|sa| |sa ma ea], d as [sd|sd| |sd md ed];
      cbn [SFopp SFdiv]; try reflexivity;
      try (now destruct sa, sd).
    destruct (SFdiv_core_binary prec emax (Zpos ma) ea (Zpos md) ed)
      as [[mz ez] lz].
    replace (xorb (negb sa) sd) with (negb (xorb sa sd))
      by (now destruct sa, sd).
    apply binary_round_aux_opp.
  - destruct d as [sd|sd| |sd md ed]; cbn [SFdiv];
      first [apply opposite_nan | apply opposite_zeros].
Qed.

Lemma mul_opposite (prec emax : Z) (c a a' : F.float) :
  opposite a a' -> opposite (SFmul prec emax c a) (SFmul prec emax c a').
Proof.
  intros [->|(s & s' & -> & ->)].
  - left.
    destruct c as [sc|sc| |sc mc ec], a' as [sa|sa| |sa ma ea];
      cbn [SFopp SFmul]; try reflexivity;
      try (replace (xorb sc (negb sa)) with (negb (xorb sc sa))
             by (now destruct sc, sa); reflexivity).
    replace (xorb sc (negb sa)) with (negb (xorb sc sa))
      by (now destruct sc, sa).
    apply binary_round_aux_opp.
  - destruct c as [sc|sc| |sc mc ec]; cbn [SFmul];
      first [apply opposite_nan | apply opposite_zeros].
Qed.

Lemma add_opp (prec emax : Z) (a b : F.float) :
  opposite (SFadd prec emax (SFopp a) (SFopp b)) (SFadd prec emax a b).
Proof.
  destruct a as [sa|sa| |sa ma ea], b as [sb|sb| |sb mb eb];
    cbn [SFopp SFadd];
    try apply opposite_nan;
    try (destruct sa, sb; cbn [negb];
         first [apply opposite_zeros | apply opposite_nan | now left]);
    try (now left).
  rewrite !cond_Zopp_negb.
  set (A := cond_Zopp sa (Zpos (fst (shl_align ma ea (Z.min ea eb))))).
  set (B := cond_Zopp sb (Zpos (fst (shl_align mb eb (Z.min ea eb))))).
  replace (- A + - B) with (- (A + B)) by lia.
  apply binary_normalize_opp.
Qed.

Lemma add_opposite (prec emax : Z) (a a' b b' : F.float) :
  opposite a a' -> opposite b b' ->
  opposite (SFadd prec emax a b) (SFadd prec emax a' b').
Proof.
  intros [->|(s & s' & -> & ->)] [->|(t & t' & -> & ->)].
  - apply add_opp.
  - destruct a' as [sa|sa| |sa ma ea]; cbn [SFopp SFadd].
    + destruct sa, t, t'; cbn [negb]; apply opposite_zeros.
    + now left.
    + apply opposite_nan.
    + now left.
  - destruct b' as [sb|sb| |sb mb eb]; cbn [SFopp SFadd].
    + destruct sb, s, s'; cbn [negb]; apply opposite_zeros.
    + now left.
    + apply opposite_nan.
    + now left.
  - cbn [SFadd]. destruct s, t, s', t'; apply opposite_zeros.
Qed.

(** [compute_rbr] at one pixel, with the inputs exchanged. *)
Lemma rbr_px_swap (xb xa : F.float) (kb ka : bool) :
  snd (rbr_px xb xa kb ka) = snd (rbr_px xa xb ka kb)
  /\ (kb || ka = false ->
      opposite (fst (rbr_px xb xa kb ka)) (fst (rbr_px xa xb ka kb))).
Proof.
  assert (Hop : kb || ka = false ->
                opposite (fst (rbr_px xb xa kb ka))
                         (fst (rbr_px xa xb ka kb))).
  { intros Hk. apply orb_false_iff in Hk. destruct Hk as [-> ->].
    rewrite !RbrFacts.rbr_px_valid_inputs. cbv zeta. cbn [fst].
    unfold ratio.
    replace (F.add32 xb xa) with (F.add32 xa xb)
      by (apply add_comm).
    set (den := F.add32 (F.add32 xa xb) EPS32).
    pose proof (sub_swap F.prec32 F.emax32 xa xb) as Hnum.
    fold F.sub32 in Hnum.
    pose proof (div_opposite F.prec32 F.emax32 _ _ den Hnum) as Hq.
    fold F.div32 in Hq.
    rewrite (opposite_finite _ _ Hq).
    unfold domain_safe_divide, F.abs.
    rewrite (opposite_abs _ _ Hnum).
    set (m := negb (F.isfinite (F.div32 (F.sub32 xb xa) den))
              || F.leb (F.to_f64 (SFabs den))
                       (F.mul64 (F.to_f64 (SFabs (F.sub32 xb xa))) tiny)).
    apply add_opposite.
    - destruct m; [apply opposite_zeros|exact Hq].
    - now apply mul_opposite. }
  split; [|exact Hop].
  unfold rbr_px at 1 2. cbn [snd].
  destruct (kb || ka) eqn:Hk.
  - rewrite orb_comm in Hk. now rewrite Hk.
  - specialize (Hop eq_refl). apply opposite_finite in Hop.
    unfold rbr_px in Hop. cbn [fst] in Hop. rewrite Hk in Hop.
    rewrite orb_comm in Hk. rewrite Hk in Hop |- *.
    cbn [orb]. now rewrite Hop.
Qed.

(** Exchanging BEFORE and AFTER leaves the mask of the burn ratio and
    changes the sign of its values: at every pixel that is valid in the
    result, the one ratio equals the negation of the other. *)
Theorem exchanging_inputs_negates_the_ratio
  (before_lin after_lin : MaskedArray) (i : nat) (xb xa : F.float)
  (kb ka : bool) :
  nth_error (data before_lin) i = Some xb ->
  nth_error (mask before_lin) i = Some kb ->
  nth_error (data after_lin) i = Some xa ->
  nth_error (mask after_lin) i = Some ka ->
  exists y y' k,
    nth_error (data (compute_rbr before_lin after_lin)) i = Some y
    /\ nth_error (data (compute_rbr after_lin before_lin)) i = Some y'
    /\ nth_error (mask (compute_rbr before_lin after_lin)) i = Some k
    /\ nth_error (mask (compute_rbr after_lin before_lin)) i = Some k
    /\ (k = false -> F.eqb y (SFopp y') = true).
Proof.
  intros Hxb Hkb Hxa Hka.
  destruct (RbrFacts.compute_rbr_nth before_lin after_lin i xb xa kb ka
              Hxb Hkb Hxa Hka) as [Hd Hm].
  destruct (RbrFacts.compute_rbr_nth after_lin before_lin i xa xb ka kb
              Hxa Hka Hxb Hkb) as [Hd' Hm'].
  destruct (rbr_px_swap xb xa kb ka) as [Es Ho].
  exists (fst (rbr_px xb xa kb ka)), (fst (rbr_px xa xb ka kb)),
         (snd (rbr_px xb xa kb ka)).
  split; [exact Hd|]. split; [exact Hd'|]. split; [exact Hm|].
  split; [now rewrite Es|].
  intros Hk. unfold rbr_px in Hk at 1. cbn [snd] in Hk.
  apply orb_false_iff in Hk. destruct Hk as [Hk Hf].
  apply opposite_eqb; [now apply Ho|]. now apply negb_false_iff in Hf.
Qed.

Lemma exchanging_inputs_negates_the_ratio_witness :
  exists y y' k,
    nth_error (data (compute_rbr (mkMA [Samples.f32_1] [false])
                                 (mkMA [Samples.f32_3] [false]))) 0 = Some y
    /\ nth_error (data (compute_rbr (mkMA [Samples.f32_3] [false])
                                    (mkMA [Samples.f32_1] [false]))) 0
       = Some y'
    /\ nth_error (mask (compute_rbr (mkMA [Samples.f32_1] [false])
                                    (mkMA [Samples.f32_3] [false]))) 0
       = Some k
    /\ nth_error (mask (compute_rbr (mkMA [Samples.f32_3] [false])
                                    (mkMA [Samples.f32_1] [false]))) 0
       = Some k
    /\ (k = false -> F.eqb y (SFopp y') = true).
Proof.
  apply (exchanging_inputs_negates_the_ratio
           (mkMA [Samples.f32_1] [false]) (mkMA [Samples.f32_3] [false])
           0 Samples.f32_1 Samples.f32_3 false false); reflexivity.
Defined.

End RbrSwap.

(** ** The list of the rasters of a folder *)

Module FolderFacts.

Import Folder.

Lemma string_compare_refl (s : string) : String.compare s s = Eq.
Proof.
  induction s as [|c s IH]; simpl; auto.
  unfold Ascii.compare. now rewrite N.compare_refl.
Qed.

Lemma string_compare_trans (a : string) :
  forall b c,
    String.compare a b = Lt -> String.compare b c = Lt ->
    String.compare a c = Lt.
Proof.
  induction a as [|x a IH]; intros [|y b] [|z c]; simpl; try discriminate;
    auto.
  unfold Ascii.compare.
  destruct (N.compare (N_of_ascii x) (N_of_ascii y)) eqn:Exy;
    destruct (N.compare (N_of_ascii y) (N_of_ascii z)) eqn:Eyz;
    try discriminate; intros H1 H2.
  - apply N.compare_eq in Exy, Eyz. rewrite Exy, Eyz, N.compare_refl.
    now apply (IH b c).
  - apply N.compare_eq in Exy. now rewrite Exy, Eyz.
  - apply N.compare_eq in Eyz. now rewrite <- Eyz, Exy.
  - rewrite N.compare_lt_iff in Exy, Eyz.
    assert (H : (N_of_ascii x < N_of_ascii z)%N) by lia.
    apply N.compare_lt_iff in H. now rewrite H.
Qed.

Lemma compare_refl (p : path) : compare p p = Eq.
Proof.
  induction p as [|a p IH]; simpl; auto. now rewrite string_compare_refl.
Qed.

Lemma compare_eq (p : path) : forall q, compare p q = Eq -> p = q.
Proof.
  induction p as [|a p IH]; intros [|b q]; simpl; try discriminate; auto.
  destruct (String.compare a b) eqn:E; try discriminate.
  intros H. apply String.compare_eq_iff in E. subst. f_equal. now apply IH.
Qed.

Lemma compare_antisym (p : path) :
  forall q, compare q p = CompOpp (compare p q).
Proof.
  induction p as [|a p IH]; intros [|b q]; simpl; auto.
  rewrite (String.compare_antisym b a).
  destruct (String.compare a b); simpl; auto.
Qed.

Lemma compare_trans (p : path) :
  forall q r, compare p q = Lt -> compare q r = Lt -> compare p r = Lt.
Proof.
  induction p as [|a p IH]; intros [|b q] [|c r]; simpl; try discriminate;
    auto.
  destruct (String.compare a b) eqn:Eab;
    destruct (String.compare b c) eqn:Ebc; try discriminate; intros H1 H2.
  - apply String.compare_eq_iff in Eab, Ebc. subst.
    rewrite string_compare_refl. now apply (IH q r).
  - apply String.compare_eq_iff in Eab. subst. now rewrite Ebc.
  - apply String.compare_eq_iff in Ebc. subst. now rewrite Eab.
  - now rewrite (string_compare_trans a b c Eab Ebc).
Qed.

Lemma insert_in (p : path) (l : list path) (q : path) :
  In q (insert p l) <-> q = p \/ In q l.
Proof.
  induction l as [|x l IH]; simpl.
  - intuition.
  - destruct (leb p x); simpl; rewrite ?IH; intuition.
Qed.

Lemma sorted_in (l : list path) (q : path) : In q (sorted l) <-> In q l.
Proof.
  induction l as [|p l IH]; simpl; [tauto|].
  rewrite insert_in, IH. intuition.
Qed.

Lemma insert_ascending (p : path) (l : list path) :
  ascending l -> ~ In p l -> ascending (insert p l).
Proof.
  induction l as [|x l IH]; intros Ha Hn; simpl.
  - split; [intros q []|exact I].
  - destruct Ha as [Hx Hl]. unfold leb.
    destruct (compare p x) eqn:E.
    + apply compare_eq in E. subst. exfalso. apply Hn. now left.
    + split; [|now split].
      intros q [<-|Hq]; [exact E|].
      apply (compare_trans p x q E). now apply Hx.
    + split.
      * intros q Hq. apply insert_in in Hq. destruct Hq as [->|Hq].
        -- rewrite compare_antisym, E. reflexivity.
        -- now apply Hx.
      * apply IH; auto. intros H. apply Hn. now right.
Qed.

Lemma sorted_ascending (l : list path) : NoDup l -> ascending (sorted l).
Proof.
  induction 1 as [|p l Hp Hl IH]; simpl; [exact I|].
  apply insert_ascending; auto. now rewrite sorted_in.
Qed.

(** Two ascending lists with the same members are equal. *)
Lemma ascending_unique (l : list path) :
  forall l',
    ascending l -> ascending l' -> (forall q, In q l <-> In q l') -> l = l'.
Proof.
  induction l as [|p l IH]; intros [|p' l'] Ha Ha' Hin.
  - reflexivity.
  - exfalso. apply (proj2 (Hin p')). now left.
  - exfalso. apply (proj1 (Hin p)). now left.
  - destruct Ha as [Hp Hl], Ha' as [Hp' Hl'].
    assert (E : p = p').
    { destruct (proj1 (Hin p) (or_introl eq_refl)) as [->|H1]; auto.
      destruct (proj2 (Hin p') (or_introl eq_refl)) as [->|H2]; auto.
      exfalso. specialize (Hp' p H1). specialize (Hp p' H2).
      rewrite compare_antisym, Hp in Hp'. discriminate. }
    subst p'. f_equal. apply IH; auto.
    intros q. split; intros Hq.
    + destruct (proj1 (Hin q) (or_intror Hq)) as [E|H]; auto.
      exfalso. specialize (Hp q Hq). rewrite E, compare_refl in Hp.
      discriminate.
    + destruct (proj2 (Hin q) (or_intror Hq)) as [E|H]; auto.
      exfalso. specialize (Hp' q Hq). rewrite E, compare_refl in Hp'.
      discriminate.
Qed.

Lemma list_tiffs_in (entries : list path) (recursive : bool) (p : path) :
  In p (list_tiffs entries recursive)
  <-> In p entries
      /\ (recursive = true \/ List.length p = 1%nat)
      /\ p <> []
      /\ is_tiff p = true.
Proof.
  unfold list_tiffs. rewrite sorted_in, nodup_In, in_flat_map. split.
  - intros (suf & Hs & Hp). unfold glob in Hp. apply filter_In in Hp.
    destruct Hp as [Hp Hc].
    apply andb_true_iff in Hc. destruct Hc as [Hc He].
    apply andb_true_iff in Hc. destruct Hc as [Hr Hn].
    split; [exact Hp|]. split; [|split].
    + apply orb_true_iff in Hr. destruct Hr as [Hr|Hr]; [now left|].
      right. now apply Nat.eqb_eq.
    + intros ->. discriminate.
    + unfold is_tiff. apply existsb_exists. now exists suf.
  - intros (Hp & Hr & Hn & Ht). unfold is_tiff in Ht.
    apply existsb_exists in Ht. destruct Ht as (suf & Hs & He).
    exists suf. split; [exact Hs|]. unfold glob. apply filter_In.
    split; [exact Hp|]. rewrite He, andb_true_r.
    apply andb_true_iff. split.
    + destruct Hr as [->|Hr]; [reflexivity|].
      apply orb_true_iff. right. now apply Nat.eqb_eq.
    + destruct p; [congruence|reflexivity].
Qed.

(** [list_tiffs] returns, each once and in strictly ascending order of
    the paths, the entries whose name ends in [.tif], [.tiff], [.TIF] or
    [.TIFF]: those of the folder itself, or with [--recursive] those at
    any depth. *)
Theorem list_tiffs_ascending_without_repetition (entries : list path)
  (recursive : bool) :
  ascending (list_tiffs entries recursive)
  /\ NoDup (list_tiffs entries recursive)
  /\ forall p,
       In p (list_tiffs entries recursive)
       <-> In p entries
           /\ (recursive = true \/ List.length p = 1%nat)
           /\ p <> []
           /\ is_tiff p = true.
Proof.
  assert (Ha : ascending (list_tiffs entries recursive)).
  { unfold list_tiffs. apply sorted_ascending. apply NoDup_nodup. }
  split; [exact Ha|]. split; [|apply list_tiffs_in].
  clear - Ha. induction (list_tiffs entries recursive) as [|p l IH];
    [constructor|].
  destruct Ha as [Hp Hl]. constructor; [|now apply IH].
  intros Hin. specialize (Hp p Hin). rewrite compare_refl in Hp.
  discriminate.
Qed.

(** The list does not depend on the order in which the file system
    lists the folder, nor on an entry being listed more than once: two
    listings with the same entries give the same list, hence the same
    order of processing. *)
Theorem list_tiffs_ignores_listing_order (entries entries' : list path)
  (recursive : bool) :
  (forall p, In p entries <-> In p entries') ->
  list_tiffs entries recursive = list_tiffs entries' recursive.
Proof.
  intros H. apply ascending_unique.
  - unfold list_tiffs. apply sorted_ascending. apply NoDup_nodup.
  - unfold list_tiffs. apply sorted_ascending. apply NoDup_nodup.
  - intros q. rewrite !list_tiffs_in, (H q). reflexivity.
Qed.

Lemma list_tiffs_ignores_listing_order_witness :
  list_tiffs [["b.tif"]; ["a.TIF"]; ["notes.txt"]; ["sub"; "c.tiff"]]%string
             false
  = list_tiffs [["a.TIF"]; ["sub"; "c.tiff"]; ["b.tif"]; ["notes.txt"];
                ["b.tif"]]%string false.
Proof.
  apply list_tiffs_ignores_listing_order.
  intros p. simpl. intuition.
Defined.

End FolderFacts.
